(** * type-mapper: the conversion engine and the validator chains

    A shallow embedding of [src/mapper.ts] and [src/validation.ts].

    Mutable objects are modelled by explicit state passing.  The issue list
    and the path stack of one [Mapper.convert] call live in a single
    [ValidationContext] record: in the source the [path] array handed to
    [internalCreateInstance] and the [_path] field of the context are the
    same array, so one field stands for both. *)

From Stdlib Require Import List String Ascii ZArith Bool Arith Lia.
From Stdlib Require Import DecimalString DecimalNat.
Import ListNotations.
Local Open Scope string_scope.
Local Open Scope list_scope.

Set Warnings "-register-all".

(** ** Untyped data *)

(** The values the engine walks: what [JSON.parse] produces, plus
    [undefined] and [NaN], the number the validators single out.  The other
    numbers are integers; objects keep their own properties in insertion
    order.  Class instances are objects as well. *)
Inductive value : Type :=
| VUndefined
| VNull
| VBoolean (b : bool)
| VNumber (n : Z)
| VNaN
| VString (s : string)
| VArray (elems : list value)
| VObject (fields : list (string * value)).

(** [v == null] *)
Definition is_nullish (v : value) : bool :=
  match v with VUndefined | VNull => true | _ => false end.

(** [typeof v] *)
Definition typeof (v : value) : string :=
  match v with
  | VUndefined => "undefined"
  | VNull => "object"
  | VBoolean _ => "boolean"
  | VNumber _ => "number"
  | VNaN => "number"
  | VString _ => "string"
  | VArray _ => "object"
  | VObject _ => "object"
  end.

(** JavaScript truthiness, as used by [if (mapping.defaultValue)]. *)
Definition truthy (v : value) : bool :=
  match v with
  | VUndefined | VNull => false
  | VBoolean b => b
  | VNumber n => negb (n =? 0)%Z
  | VNaN => false
  | VString s => negb (s =? "")
  | VArray _ | VObject _ => true
  end.

(** A number in decimal digits: what the host prints for an integer up to
    [Number.MAX_SAFE_INTEGER] in magnitude (larger ones lose digits or are
    printed with an exponent by the host, and not here). *)
Definition nat_to_string (n : nat) : string :=
  NilEmpty.string_of_uint (Nat.to_uint n).

Definition Z_to_string (z : Z) : string :=
  match z with
  | Z0 => "0"
  | Zpos p => nat_to_string (Pos.to_nat p)
  | Zneg p => "-" ++ nat_to_string (Pos.to_nat p)
  end.

(** ** Diagnostics *)

Module IssueLevel.
Inductive t : Type := info | warn | error.

(** The numeric value of the enum member. *)
Definition num (l : t) : Z :=
  match l with info => 0 | warn => 1 | error => 2 end%Z.

Definition eqb (a b : t) : bool := (num a =? num b)%Z.

(** The larger of two levels under info < warn < error. *)
Definition max (a b : t) : t := if (num a <? num b)%Z then b else a.
End IssueLevel.

(** A path segment is a property name or a numeric index. *)
Inductive segment : Type :=
| SegName (s : string)
| SegIndex (n : nat).

Record ValidationIssue : Type := {
  path : string;
  level : IssueLevel.t;
  message : string
}.

(** [ValidationContext]: the issue list (oldest first) and the shared path
    stack (bottom first). *)
Record ValidationContext : Type := {
  issues : list ValidationIssue;
  _path : list segment
}.

Fixpoint pathString_from (str : string) (p : list segment) : string :=
  match p with
  | [] => str
  | SegName s :: rest =>
      pathString_from (if (str =? "") then str ++ s else str ++ "." ++ s) rest
  | SegIndex n :: rest =>
      pathString_from (str ++ "[" ++ nat_to_string n ++ "]") rest
  end.

(** [ValidationContext.pathString] *)
Definition pathString (ctx : ValidationContext) : string :=
  pathString_from "" (_path ctx).

Module VC.
(** [ValidationContext.addIssue] *)
Definition addIssue (lvl : IssueLevel.t) (msg : string)
           (ctx : ValidationContext) : ValidationContext :=
  {| issues := issues ctx ++
                 [{| path := pathString ctx; level := lvl; message := msg |}];
     _path := _path ctx |}.

Definition info := addIssue IssueLevel.info.
Definition warn := addIssue IssueLevel.warn.
Definition error := addIssue IssueLevel.error.

Definition push (s : segment) (ctx : ValidationContext) : ValidationContext :=
  {| issues := issues ctx; _path := _path ctx ++ [s] |}.

Definition pop (ctx : ValidationContext) : ValidationContext :=
  {| issues := issues ctx; _path := removelast (_path ctx) |}.
End VC.

(** An [IValidationContext] is either the plain context or a
    [TrackingValidationContext] around another one. *)
Inductive IValidationContext : Type :=
| Plain (c : ValidationContext)
| Tracking (maximumSeverity : option IssueLevel.t) (context : IValidationContext).

(** [!this.maximumSeverity || level > this.maximumSeverity]: an unset
    maximum and the level [info] (numerically 0) are both falsy. *)
Definition should_raise (lvl : IssueLevel.t) (m : option IssueLevel.t) : bool :=
  match m with
  | None => true
  | Some cur =>
      (IssueLevel.num cur =? 0)%Z || (IssueLevel.num cur <? IssueLevel.num lvl)%Z
  end.

Definition raise (lvl : IssueLevel.t) (m : option IssueLevel.t)
  : option IssueLevel.t :=
  if should_raise lvl m then Some lvl else m.

Fixpoint addIssue (lvl : IssueLevel.t) (msg : string) (ctx : IValidationContext)
  : IValidationContext :=
  match ctx with
  | Plain c => Plain (VC.addIssue lvl msg c)
  | Tracking m inner => Tracking (raise lvl m) (addIssue lvl msg inner)
  end.

Fixpoint info (msg : string) (ctx : IValidationContext) : IValidationContext :=
  match ctx with
  | Plain c => Plain (VC.info msg c)
  | Tracking m inner => Tracking (raise IssueLevel.info m) (info msg inner)
  end.

Fixpoint warn (msg : string) (ctx : IValidationContext) : IValidationContext :=
  match ctx with
  | Plain c => Plain (VC.warn msg c)
  | Tracking m inner => Tracking (raise IssueLevel.warn m) (warn msg inner)
  end.

Fixpoint error (msg : string) (ctx : IValidationContext) : IValidationContext :=
  match ctx with
  | Plain c => Plain (VC.error msg c)
  | Tracking m inner => Tracking (raise IssueLevel.error m) (error msg inner)
  end.

(** The issue list seen through any wrapper ([get issues]). *)
Fixpoint issues_of (ctx : IValidationContext) : list ValidationIssue :=
  match ctx with
  | Plain c => issues c
  | Tracking _ inner => issues_of inner
  end.

(** The plain context at the bottom of a stack of wrappers. *)
Fixpoint plain_of (ctx : IValidationContext) : ValidationContext :=
  match ctx with
  | Plain c => c
  | Tracking _ inner => plain_of inner
  end.

(** [wrappedContext.maximumSeverity]; a plain context has no such field. *)
Definition maximumSeverity_of (ctx : IValidationContext) : option IssueLevel.t :=
  match ctx with
  | Plain _ => None
  | Tracking m _ => m
  end.

(** The object a wrapper was built around. *)
Definition context_of (ctx : IValidationContext) : IValidationContext :=
  match ctx with
  | Plain c => Plain c
  | Tracking _ inner => inner
  end.

(** ** Validator chains *)

(** What a validation function can do with the context it is handed: call
    one of the four reporting methods of the interface. *)
Inductive Call : Type :=
| CallInfo (msg : string)
| CallWarn (msg : string)
| CallError (msg : string)
| CallAddIssue (lvl : IssueLevel.t) (msg : string).

Definition perform (k : Call) (ctx : IValidationContext) : IValidationContext :=
  match k with
  | CallInfo msg => info msg ctx
  | CallWarn msg => warn msg ctx
  | CallError msg => error msg ctx
  | CallAddIssue lvl msg => addIssue lvl msg ctx
  end.

Definition perform_all (ks : list Call) (ctx : IValidationContext)
  : IValidationContext :=
  fold_left (fun c k => perform k c) ks ctx.

(** A [ValidatorFn] is a function [(value, ctx) => void].  The closures the
    library builds are represented by what they capture: [UserFn body] is a
    function written by the user, which inspects the value and reports
    through the context; [ChainFn] is the [validate] closure of
    [makeValidatorChain]; [RefinedFn] the one of [refineValidatorChain]. *)
Inductive ValidatorFn : Type :=
| UserFn (body : value -> list Call)
| ChainFn (fn : ValidatorFn) (ignoreNull : bool)
| RefinedFn (chain : ValidatorFn) (next : ValidatorFn) (ignoreNull : bool).

Definition is_error (m : option IssueLevel.t) : bool :=
  match m with
  | Some l => IssueLevel.eqb l IssueLevel.error
  | None => false
  end.

(** Calling a validation function: the bodies of the three closures. *)
Fixpoint call (f : ValidatorFn) (v : value) (ctx : IValidationContext)
  : IValidationContext :=
  match f with
  | UserFn body => perform_all (body v) ctx
  | ChainFn fn ignoreNull =>
      if negb ignoreNull || negb (is_nullish v) then call fn v ctx else ctx
  | RefinedFn chain next ignoreNull =>
      if negb ignoreNull || negb (is_nullish v) then
        let wrappedContext := call chain v (Tracking None ctx) in
        let wrappedContext :=
          if negb (is_error (maximumSeverity_of wrappedContext))
          then call next v wrappedContext
          else wrappedContext in
        context_of wrappedContext
      else ctx
  end.

(** A [ValidatorChain] is a validation function carrying a [refine] method;
    the method closes over the chain itself and over [ignoreNull]. *)
Record ValidatorChain : Type := {
  validate : ValidatorFn;
  chain_ignoreNull : bool
}.

Definition makeValidatorChain (fn : ValidatorFn) (ignoreNull : bool)
  : ValidatorChain :=
  {| validate := ChainFn fn ignoreNull; chain_ignoreNull := ignoreNull |}.

Definition refineValidatorChain (chain : ValidatorChain) (next : ValidatorFn)
           (ignoreNull : bool) : ValidatorChain :=
  {| validate := RefinedFn (validate chain) next ignoreNull;
     chain_ignoreNull := ignoreNull |}.

(** [chain.refine(next)] *)
Definition refine (chain : ValidatorChain) (next : ValidatorFn) : ValidatorChain :=
  refineValidatorChain chain next (chain_ignoreNull chain).

(** [str?.length] compared with a number; only strings and arrays have a
    numeric length here.  A string is counted by characters, which is the
    host's count of UTF-16 code units when the characters are ASCII. *)
Definition length_of (v : value) : option nat :=
  match v with
  | VString s => Some (String.length s)
  | VArray l => Some (List.length l)
  | _ => None
  end.

(** [`${v}`]: the string a value is interpolated as.  An array shows its
    elements separated by commas, null and undefined elements as nothing. *)
Fixpoint display (v : value) : string :=
  match v with
  | VUndefined => "undefined"
  | VNull => "null"
  | VBoolean true => "true"
  | VBoolean false => "false"
  | VNumber n => Z_to_string n
  | VNaN => "NaN"
  | VString s => s
  | VArray elems =>
      String.concat ","
        (map (fun x => if is_nullish x then "" else display x) elems)
  | VObject _ => "[object Object]"
  end.

Definition includes (values : list string) (v : value) : bool :=
  match v with
  | VString s => existsb (String.eqb s) values
  | _ => false
  end.

Definition or_else (msg : option string) (dflt : string) : string :=
  match msg with Some m => m | None => dflt end.

Module StringValidator.
Definition maxLength (base : ValidatorChain) (len : nat)
           (lvl : IssueLevel.t) (msg : option string) : ValidatorChain :=
  refine base (UserFn (fun str =>
    match length_of str with
    | Some actual =>
        if (len <? actual)%nat
        then [CallAddIssue lvl (or_else msg
                ("Maximum length exceeded (max: " ++ nat_to_string len ++
                 ", actual: " ++ nat_to_string actual ++ ")"))]
        else []
    | None => []
    end)).

Definition minLength (base : ValidatorChain) (len : nat)
           (lvl : IssueLevel.t) (msg : option string) : ValidatorChain :=
  refine base (UserFn (fun str =>
    match length_of str with
    | Some actual =>
        if (actual <? len)%nat
        then [CallAddIssue lvl (or_else msg
                ("Minimum length violated (max: " ++ nat_to_string len ++
                 ", actual: " ++ nat_to_string actual ++ ")"))]
        else []
    | None => []
    end)).

Definition enum (base : ValidatorChain) (values : list string)
           (lvl : IssueLevel.t) (msg : option string) : ValidatorChain :=
  refine base (UserFn (fun str =>
    if negb (includes values str)
    then [CallAddIssue lvl (or_else msg
            ("Value did not match one of the " ++
             nat_to_string (List.length values) ++
             " expected options: " ++ display str))]
    else [])).
End StringValidator.

(** The type check shared by [isString] and [nullable().isString]. *)
Definition string_check : ValidatorFn :=
  UserFn (fun v =>
    if negb (typeof v =? "string")
    then [CallError ("Expected type string, but found: " ++ typeof v)]
    else []).

Definition isString : ValidatorChain := makeValidatorChain string_check false.

Definition nullable : ValidatorChain := makeValidatorChain (UserFn (fun _ => [])) true.

Module NullableValidator.
(** [nullable().isString()]: the base chain is not consulted. *)
Definition isString (base : ValidatorChain) : ValidatorChain :=
  makeValidatorChain string_check true.
End NullableValidator.

(** [Validator.validateValue]: the tracked maximum and the context after the
    validations ran. *)
Definition validateValue (validations : list ValidatorFn) (v : value)
           (context : ValidationContext)
  : option IssueLevel.t * ValidationContext :=
  let trackingContext :=
    fold_left (fun c validation => call validation v c) validations
              (Tracking None (Plain context)) in
  (maximumSeverity_of trackingContext, plain_of trackingContext).

(** ** Exceptions and the engine's monad *)

Inductive Exn : Type :=
| TypeError (msg : string)
| StructuralError (msg : string)
| ValidationError (msg : string) (context : ValidationContext).

(** How a call ends: it returns a value or throws. *)
Inductive OutcomeOf (E A : Type) : Type :=
| Returned (a : A)
| Thrown (e : E).
Arguments Returned {E A} a.
Arguments Thrown {E A} e.

(** The outcome of a call that does not touch the context. *)
Abbreviation Outcome := (OutcomeOf Exn).

(** A computation that may update the context or throw.  The context is one
    mutable object shared by all calls, so what was pushed and reported
    before a throw is still there after it: an exception comes with the
    context as the throw left it. *)
Definition M (A : Type) : Type :=
  ValidationContext -> OutcomeOf (Exn * ValidationContext) (A * ValidationContext).

Definition ret {A} (a : A) : M A := fun ctx => Returned (a, ctx).

Definition bind {A B} (m : M A) (k : A -> M B) : M B :=
  fun ctx =>
    match m ctx with
    | Returned (a, ctx') => k a ctx'
    | Thrown e => Thrown e
    end.

Definition throw {A} (e : Exn) : M A := fun ctx => Thrown (e, ctx).

Definition lift {A} (o : Outcome A) : M A :=
  fun ctx =>
    match o with
    | Returned a => Returned (a, ctx)
    | Thrown e => Thrown (e, ctx)
    end.

(** Run a context update for its effect. *)
Definition modify (f : ValidationContext -> ValidationContext) : M unit :=
  fun ctx => Returned (tt, f ctx).

Notation "x <- m ;; k" := (bind m (fun x => k))
  (at level 61, m at next level, right associativity).
Notation "m ;;; k" := (bind m (fun _ => k))
  (at level 61, right associativity).

(** ** Property lookup *)

Fixpoint assoc {A} (key : string) (l : list (string * A)) : option A :=
  match l with
  | [] => None
  | (k, a) :: rest => if k =? key then Some a else assoc key rest
  end.

(** The element of an array stored under a property key: a canonical index
    below the length, or ["length"]. *)
Fixpoint array_index (key : string) (i : nat) (l : list value) : option value :=
  match l with
  | [] => None
  | x :: rest => if nat_to_string i =? key then Some x else array_index key (S i) rest
  end.

Definition array_property (key : string) (l : list value) : option value :=
  if key =? "length" then Some (VNumber (Z.of_nat (List.length l)))
  else array_index key 0 l.

(** The names under which every object finds a member of the host's
    [Object.prototype]. *)
Definition inherited (key : string) : bool :=
  existsb (String.eqb key)
    ["constructor"; "toString"; "toLocaleString"; "valueOf"; "hasOwnProperty";
     "isPrototypeOf"; "propertyIsEnumerable"; "__proto__"; "__defineGetter__";
     "__defineSetter__"; "__lookupGetter__"; "__lookupSetter__"].

(** [key in v] together with [v[key]]: [Some x] when the key is an own
    property.  The [in] operator throws on a right operand that is not an
    object.  The members an object or an array inherits from the host
    ([toString], [push] and the like) are not modelled: they are found by
    the source and not here. *)
Definition property (key : string) (v : value) : Outcome (option value) :=
  match v with
  | VObject fields => Returned (assoc key fields)
  | VArray elems => Returned (array_property key elems)
  | _ => Thrown (TypeError "Cannot use 'in' operator to search for a key in a primitive")
  end.

(** [s.split(".")] *)
Fixpoint split_dot (s : string) : list string :=
  match s with
  | EmptyString => [""]
  | String c rest =>
      if Ascii.eqb c "."%char then "" :: split_dot rest
      else match split_dot rest with
           | h :: t => String c h :: t
           | [] => [String c ""]
           end
  end.

(** ** Metadata *)

(** A static member of a constructor function that is expected to hold a
    collection: absent, present with the collection, or present with a
    number (the simplest value that is neither an object nor an array). *)
Inductive Static (A : Type) : Type :=
| Unspecified
| Specified (a : A)
| Malformed (n : Z).
Arguments Unspecified {A}.
Arguments Specified {A} a.
Arguments Malformed {A} n.

Definition object := list (string * value).

(** A capability hook of the constructed instance: the instance after the
    call and what the hook reported. *)
Definition Hook (A : Type) : Type := A -> object -> object * list Call.

(** Modelled from the spec: the member [defaultValue] of [MappingMetadata],
    which [internalCreateInstance] reads and the type declaration at hand
    does not list ("used when absent and not required"); [None] stands for a
    mapping without it.  Everything else follows the declarations of
    [DecoratedType] and [MappingMetadata].  A constructor is represented by
    what [new ctor(...params)] leaves in the fresh instance.  [_parameters]
    may have holes.  [_parmeters] is the member the metadata check reads. *)
Inductive DecoratedType : Type := mkDecoratedType {
  construct : list value -> object;
  _properties : Static (list (string * MappingMetadata));
  _parameters : Static (list (option MappingMetadata));
  _parmeters : Static unit;
  mapData : option (Hook value);
  validateHook : option (Hook unit)
}
with MappingMetadata : Type := mkMappingMetadata {
  aliases : list segment;
  preValidationTransform : option (value -> value);
  validations : list ValidatorFn;
  transform : option (value -> value);
  mappedAs : option DecoratedType;
  isArray : bool;
  isRequired : bool;
  defaultValue : option value
}.

Section Engine.

(** The host's [Number(part)] on a path part, as the property key the
    number denotes ([None] for [NaN]): [Number("2")] is the key ["2"],
    [Number("foo")] is [NaN]. *)
Variable Number_key : string -> option string.

Fixpoint walk (parts : list string) (current : value) : Outcome (option value) :=
  match parts with
  | [] => Returned (Some current)
  | part :: rest =>
      if is_nullish current then Returned None
      else
        let ixOrName :=
          match Number_key part with Some ix => ix | None => part end in
        match property ixOrName current with
        | Thrown e => Thrown e
        | Returned None => Returned None
        | Returned (Some next) => walk rest next
        end
  end.

(** [getProperty]: [Some value] when found. *)
Definition getProperty (propertyRef : segment) (data : value)
  : Outcome (option value) :=
  match propertyRef with
  | SegIndex n => property (nat_to_string n) data
  | SegName s => walk (split_dot s) data
  end.


(** ** The conversion engine *)

Definition ifEmpty (ary : option (list segment)) (val : segment) : list segment :=
  match ary with
  | Some (a :: rest) => a :: rest
  | _ => [val]
  end.

(** [params[index] = v]; a slot that was never assigned is passed to the
    constructor as [undefined]. *)
Fixpoint array_set (l : list value) (i : nat) (v : value) : list value :=
  match i, l with
  | O, [] => [v]
  | O, _ :: rest => v :: rest
  | S i', [] => VUndefined :: array_set [] i' v
  | S i', x :: rest => x :: array_set rest i' v
  end.

(** [result[key] = v] *)
Fixpoint set_field (key : string) (v : value) (o : object) : object :=
  match o with
  | [] => [(key, v)]
  | (k, x) :: rest =>
      if k =? key then (k, v) :: rest else (k, x) :: set_field key v rest
  end.

Definition segment_text (s : segment) : string :=
  match s with SegName n => n | SegIndex i => nat_to_string i end.

(** [segments.join(sep)] *)
Definition join (sep : string) (segs : list segment) : string :=
  String.concat sep (map segment_text segs).

(** The callback [(v, ix) => { path.push(ix); ...; path.pop(); return r; }] *)
Definition mapElement (create : value -> M value) (v : value) (ix : nat)
  : M value :=
  modify (VC.push (SegIndex ix)) ;;;
  r <- create v ;;
  modify VC.pop ;;;
  ret r.

(** [data.map(callback)], from index [ix] on. *)
Fixpoint mapElements (create : value -> M value) (ix : nat) (elems : list value)
  : M (list value) :=
  match elems with
  | [] => ret []
  | v :: rest =>
      r <- mapElement create v ix ;;
      rs <- mapElements create (S ix) rest ;;
      ret (r :: rs)
  end.

(** [handleRecursiveMapping], with [create] standing for
    [internalCreateInstance] at the nested type. *)
Definition handleRecursiveMappingWith (create : value -> M value)
           (isArray : bool) (data : value) : M value :=
  if isArray then
    if negb (is_nullish data) then
      match data with
      | VArray elems =>
          rs <- mapElements create 0 elems ;;
          ret (VArray rs)
      | _ =>
          fun ctx =>
            Returned (VUndefined,
                      VC.error ("Expected an array but found a non array type for property "
                                  ++ join "." (_path ctx)) ctx)
      end
    else ret VUndefined
  else create data.

(** The statements run once an alias was found, from [path.push] to
    [path.pop].  The result is [Some val] when the field was mapped. *)
Definition mapFound (recurse : MappingMetadata -> option (value -> M value))
           (mapping : option MappingMetadata) (mappedNameOrIx : segment)
           (val : value) : M (option value) :=
  modify (VC.push mappedNameOrIx) ;;;
  match mapping with
  | None =>
      throw (TypeError "Cannot read properties of undefined (reading 'preValidationTransform')")
  | Some mapping =>
      let val := match preValidationTransform mapping with
                 | Some f => f val
                 | None => val
                 end in
      validationResult <-
        match validations mapping with
        | [] => ret None
        | _ :: _ => fun ctx => Returned (validateValue (validations mapping) val ctx)
        end ;;
      r <- (if negb (is_error validationResult) then
              let val := match transform mapping with
                         | Some f => f val
                         | None => val
                         end in
              val <- match recurse mapping with
                     | Some handle => handle val
                     | None => ret val
                     end ;;
              ret (Some val)
            else ret None) ;;
      modify VC.pop ;;;
      ret r
  end.

(** The loop over [ifEmpty(mapping?.aliases, ...)]: the first alias found
    in the data decides. *)
Fixpoint tryAliases (recurse : MappingMetadata -> option (value -> M value))
         (mapping : option MappingMetadata) (names : list segment)
         (data : value) : M (option value) :=
  match names with
  | [] => ret None
  | mappedNameOrIx :: rest =>
      found <- lift (getProperty mappedNameOrIx data) ;;
      match found with
      | Some val => mapFound recurse mapping mappedNameOrIx val
      | None => tryAliases recurse mapping rest data
      end
  end.

Definition opt_isRequired (mapping : option MappingMetadata) : bool :=
  match mapping with Some m => isRequired m | None => false end.

(** [mapping?.defaultValue] when it is truthy. *)
Definition opt_defaultValue (mapping : option MappingMetadata) : option value :=
  match mapping with
  | Some m =>
      match defaultValue m with
      | Some d => if truthy d then Some d else None
      | None => None
      end
  | None => None
  end.

(** The [if (!mapped)] block of the parameter pass. *)
Definition unmappedParam (mapping : option MappingMetadata) (index : nat)
           (params : list value) : M (list value) :=
  if opt_isRequired mapping then
    modify (VC.error ("Required parameter not found: "
                        ++ join "," (ifEmpty (option_map aliases mapping) (SegIndex index)))) ;;;
    ret params
  else
    match opt_defaultValue mapping with
    | Some d => ret (array_set params index d)
    | None => ret params
    end.

Fixpoint paramPass (recurse : MappingMetadata -> option (value -> M value))
         (paramMappings : list (option MappingMetadata)) (index : nat)
         (data : value) (params : list value) : M (list value) :=
  match paramMappings with
  | [] => ret params
  | mapping :: rest =>
      r <- tryAliases recurse mapping
             (ifEmpty (option_map aliases mapping) (SegIndex index)) data ;;
      params <- match r with
                | Some val => ret (array_set params index val)
                | None => unmappedParam mapping index params
                end ;;
      paramPass recurse rest (S index) data params
  end.

(** The [if (!mapped)] block of the property pass. *)
Definition unmappedProp (mapping : MappingMetadata) (key : string)
           (result : object) : M object :=
  if isRequired mapping then
    modify (VC.error ("Required property or field not found: " ++ key)) ;;;
    ret result
  else
    match opt_defaultValue (Some mapping) with
    | Some d => ret (set_field key d result)
    | None => ret result
    end.

(** The property pass, over the own property names of [_properties] in
    the order the list gives them. *)
Fixpoint propPass (recurse : MappingMetadata -> option (value -> M value))
         (propMappings : list (string * MappingMetadata))
         (data : value) (result : object) : M object :=
  match propMappings with
  | [] => ret result
  | (key, mapping) :: rest =>
      r <- tryAliases recurse (Some mapping)
             (ifEmpty (Some (aliases mapping)) (SegName key)) data ;;
      result <- match r with
                | Some val => ret (set_field key val result)
                | None => unmappedProp mapping key result
                end ;;
      propPass recurse rest data result
  end.

(** Calling a capability hook with the plain context. *)
Definition runHook {A} (hook : option (Hook A)) (arg : A) (result : object)
  : M object :=
  match hook with
  | Some h =>
      let '(result', calls) := h arg result in
      fun ctx => Returned (result', plain_of (perform_all calls (Plain ctx)))
  | None => ret result
  end.

Fixpoint internalCreateInstance (ctor : DecoratedType) (data : value)
         {struct ctor} : M value :=
  if is_nullish data then ret data
  else
    let recurse := fun m : MappingMetadata =>
      match mappedAs m with
      | Some nested =>
          Some (handleRecursiveMappingWith (internalCreateInstance nested) (isArray m))
      | None => None
      end in
    params <- match _parameters ctor with
              | Specified paramMappings => paramPass recurse paramMappings 0 data []
              | Unspecified | Malformed _ => ret []
              end ;;
    let result := construct ctor params in
    result <- match _properties ctor with
              | Specified propMappings => propPass recurse propMappings data result
              | Unspecified | Malformed _ => ret result
              end ;;
    result <- runHook (mapData ctor) data result ;;
    result <- runHook (validateHook ctor) tt result ;;
    ret (VObject result).

(** [handleRecursiveMapping] *)
Definition handleRecursiveMapping (ctor : DecoratedType) (isArray : bool)
           (data : value) : M value :=
  handleRecursiveMappingWith (internalCreateInstance ctor) isArray data.

(** The recursion a mapping asks for: [handleRecursiveMapping] at
    [mapping.mappedAs] when that is set. *)
Definition recurseInto (mapping : MappingMetadata) : option (value -> M value) :=
  match mappedAs mapping with
  | Some nested => Some (handleRecursiveMapping nested (isArray mapping))
  | None => None
  end.

Definition objectOrUnspecified {A} (member : Static A) : bool :=
  match member with
  | Unspecified => true
  | Specified _ => true
  | Malformed _ => false
  end.

Definition arrayOrUnspecified {A} (member : Static A) : bool :=
  match member with
  | Unspecified => true
  | Specified _ => true
  | Malformed _ => false
  end.

(** [isDecoratedType]: the second check reads the member [_parmeters]. *)
Definition isDecoratedType (ctor : DecoratedType) : bool :=
  objectOrUnspecified (_properties ctor) && arrayOrUnspecified (_parmeters ctor).

(** The optional callback of [convert]: user code that returns or throws. *)
Definition Callback : Type := value -> ValidationContext -> Outcome unit.

(** What a call of [convert] does: the callback invocations it made, with
    their arguments, and how it ended. *)
Record Completion : Type := {
  invocations : list (value * ValidationContext);
  outcome : Outcome value
}.

Definition is_error_issue (iss : ValidationIssue) : bool :=
  IssueLevel.eqb (level iss) IssueLevel.error.

Definition failure_message (errors : list ValidationIssue) : string :=
  "Validation failed with " ++ nat_to_string (List.length errors) ++ " errors: "
    ++ String.concat "," (map message errors).

Definition empty_context : ValidationContext := {| issues := []; _path := [] |}.

(** [Mapper.convert] *)
Definition convert (ctor : DecoratedType) (data : value) (cb : option Callback)
  : Completion :=
  if negb (isDecoratedType ctor) then
    {| invocations := [];
       outcome := Thrown (StructuralError
         "The specified type contains invalid metadata for a type-mapper decorated type.") |}
  else
    match internalCreateInstance ctor data empty_context with
    | Thrown (e, _) => {| invocations := []; outcome := Thrown e |}
    | Returned (result, ctx) =>
        match cb with
        | Some cb =>
            {| invocations := [(result, ctx)];
               outcome := match cb result ctx with
                          | Returned _ => Returned result
                          | Thrown e => Thrown e
                          end |}
        | None =>
            let errors := filter is_error_issue (issues ctx) in
            match errors with
            | _ :: _ =>
                {| invocations := [];
                   outcome := Thrown (ValidationError (failure_message errors) ctx) |}
            | [] => {| invocations := []; outcome := Returned result |}
            end
        end
    end.

End Engine.

(** A [Number] for path parts that are plain names: every part is [NaN].
    It agrees with the host on parts that do not denote a number. *)
Definition names_only (part : string) : option string := None.

Module Examples.
Definition nullableFoo : MappingMetadata :=
  {| aliases := []; preValidationTransform := None;
     validations := [validate (NullableValidator.isString nullable)];
     transform := None; mappedAs := None; isArray := false;
     isRequired := false; defaultValue := None |}.

(** [class { @validate(nullable().isString()) foo = "def" }] *)
Definition NullableExample : DecoratedType :=
  {| construct := fun _ => [("foo", VString "def")];
     _properties := Specified [("foo", nullableFoo)];
     _parameters := Unspecified; _parmeters := Unspecified;
     mapData := None; validateHook := None |}.

Definition plainMapping : MappingMetadata :=
  {| aliases := []; preValidationTransform := None; validations := [];
     transform := None; mappedAs := None; isArray := false;
     isRequired := false; defaultValue := None |}.

Definition classOf (construct : list value -> object)
           (params : Static (list (option MappingMetadata)))
           (props : Static (list (string * MappingMetadata))) : DecoratedType :=
  {| construct := construct; _properties := props; _parameters := params;
     _parmeters := Unspecified; mapData := None; validateHook := None |}.

Definition defaultedFoo : MappingMetadata :=
  {| aliases := []; preValidationTransform := None;
     validations := [validate isString];
     transform := None; mappedAs := None; isArray := false;
     isRequired := false; defaultValue := Some (VString "dflt") |}.

(** [class { @validate(isString()) @defaultValue("dflt") foo = "init" }] *)
Definition DefaultedExample : DecoratedType :=
  classOf (fun _ => [("foo", VString "init")]) Unspecified
    (Specified [("foo", defaultedFoo)]).

Definition requiredFoo : MappingMetadata :=
  {| aliases := []; preValidationTransform := None;
     validations := [validate isString];
     transform := None; mappedAs := None; isArray := false;
     isRequired := true; defaultValue := None |}.

(** [class { @required @validate(isString()) foo = "init" }] *)
Definition RequiredExample : DecoratedType :=
  classOf (fun _ => [("foo", VString "init")]) Unspecified
    (Specified [("foo", requiredFoo)]).

(** [class { @mapped name = "" }] *)
Definition ItemExample : DecoratedType :=
  classOf (fun _ => [("name", VString "")]) Unspecified
    (Specified [("name", plainMapping)]).

(** [class { @arrayOf(Item) items }] *)
Definition ListExample : DecoratedType :=
  classOf (fun _ => []) Unspecified
    (Specified
       [("items", {| aliases := []; preValidationTransform := None;
                     validations := []; transform := None;
                     mappedAs := Some ItemExample; isArray := true;
                     isRequired := false; defaultValue := None |})]).

(** A constructor whose [_parameters] member holds the number 5. *)
Definition MalformedExample : DecoratedType :=
  classOf (fun _ => [("foo", VString "init")]) (Malformed 5) Unspecified.

Definition accept : Callback := fun _ _ => Returned tt.

(** The first three characters of a string. *)
Definition firstThree (v : value) : value :=
  match v with
  | VString s => VString (String.substring 0 3 s)
  | _ => v
  end.

(** A string with an exclamation mark added. *)
Definition exclaim (v : value) : value :=
  match v with
  | VString s => VString (s ++ "!")
  | _ => v
  end.

(** [@transform(exclaim) @validate(isString().minLength(5, IssueLevel.warn))
     @validate((v, ctx) => ctx.info("checked"))
     @transform(firstThree, true) @alias("title") name]: decorators run from
    the one nearest to the member outwards. *)
Definition shortName : MappingMetadata :=
  {| aliases := [SegName "title"]; preValidationTransform := Some firstThree;
     validations :=
       [UserFn (fun _ => [CallInfo "checked"]);
        validate (StringValidator.minLength isString 5 IssueLevel.warn None)];
     transform := Some exclaim; mappedAs := None; isArray := false;
     isRequired := false; defaultValue := None |}.
End Examples.

(** * Vocabulary of the properties *)

Definition call_level (k : Call) : IssueLevel.t :=
  match k with
  | CallInfo _ => IssueLevel.info
  | CallWarn _ => IssueLevel.warn
  | CallError _ => IssueLevel.error
  | CallAddIssue lvl _ => lvl
  end.

Definition call_message (k : Call) : string :=
  match k with
  | CallInfo msg | CallWarn msg | CallError msg | CallAddIssue _ msg => msg
  end.

(** The issue a call leaves in a plain context whose path renders as [p]. *)
Definition issue_at (p : string) (k : Call) : ValidationIssue :=
  {| path := p; level := call_level k; message := call_message k |}.

(** The maximum of a sequence of levels under info < warn < error; [None]
    for the empty sequence. *)
Definition max_from (m : option IssueLevel.t) (ls : list IssueLevel.t)
  : option IssueLevel.t :=
  fold_left (fun acc l => match acc with
                          | None => Some l
                          | Some a => Some (IssueLevel.max a l)
                          end) ls m.

Definition max_level (ls : list IssueLevel.t) : option IssueLevel.t :=
  max_from None ls.

(** What a validation function reports for a value, as a sequence of calls
    on the context it is handed. *)
Fixpoint reports (f : ValidatorFn) (v : value) : list Call :=
  match f with
  | UserFn body => body v
  | ChainFn fn ignoreNull =>
      if negb ignoreNull || negb (is_nullish v) then reports fn v else []
  | RefinedFn chain next ignoreNull =>
      if negb ignoreNull || negb (is_nullish v) then
        let first := reports chain v in
        if is_error (max_level (map call_level first)) then first
        else first ++ reports next v
      else []
  end.

(** The context the refined chain leaves behind when the first stage runs
    against a fresh tracking wrapper around [d] and the next stage runs, with
    the same value and that same wrapper, exactly when the tracked maximum is
    not [error]. *)
Definition gated (C N : ValidatorFn) (v : value) (d : IValidationContext)
  : IValidationContext :=
  let w := call C v (Tracking None d) in
  context_of (if is_error (maximumSeverity_of w) then w else call N v w).

(** [nullable().isString().enum(["a"])], as a chain and a next stage. *)
Definition only_a : ValidatorFn :=
  UserFn (fun str =>
    if negb (includes ["a"] str)
    then [CallAddIssue IssueLevel.error
            ("Value did not match one of the 1 expected options: " ++ display str)]
    else []).

(** The rendering rule in the words of the specification: a name is joined
    with a dot unless it is the first segment, an index is appended in
    brackets. *)
Fixpoint rendered_rest (p : list segment) : string :=
  match p with
  | [] => ""
  | SegName s :: rest => "." ++ s ++ rendered_rest rest
  | SegIndex n :: rest => "[" ++ nat_to_string n ++ "]" ++ rendered_rest rest
  end.

Definition rendered (p : list segment) : string :=
  match p with
  | [] => ""
  | SegName s :: rest => s ++ rendered_rest rest
  | SegIndex n :: rest => "[" ++ nat_to_string n ++ "]" ++ rendered_rest rest
  end.

Definition at_path (p : list segment) : ValidationContext :=
  {| issues := []; _path := p |}.

(** An issue recorded while the stack held [base] followed by further
    segments. *)
Definition under (base : list segment) (i : ValidationIssue) : Prop :=
  exists ext, path i = pathString (at_path (base ++ ext)).

(** [ctx'] has the stack of [ctx]; it has the issues of [ctx] followed by
    issues recorded under [base]. *)
Definition extends (base : list segment) (ctx ctx' : ValidationContext) : Prop :=
  _path ctx' = _path ctx /\
  exists new, issues ctx' = issues ctx ++ new /\ Forall (under base) new.

(** A computation keeps the stack and records only under it. *)
Definition balanced {A} (m : M A) : Prop :=
  forall ctx a ctx', m ctx = Returned (a, ctx') -> extends (_path ctx) ctx ctx'.

(** A computation that keeps the stack and records only under the stack
    extended with [s]. *)
Definition scoped {A} (s : segment) (m : M A) : Prop :=
  forall ctx a ctx',
    m ctx = Returned (a, ctx') ->
    _path ctx' = _path ctx /\
    exists new, issues ctx' = issues ctx ++ new
                /\ Forall (under (_path ctx ++ [s])) new.

(** A computation that, when it throws, leaves on the stack the segments
    [pre] and possibly further ones above those it was given, and has
    recorded only under the stack followed by [pre]. *)
Definition left_open {A} (pre : list segment) (m : M A) : Prop :=
  forall ctx e ctx',
    m ctx = Thrown (e, ctx') ->
    exists ext new,
      _path ctx' = _path ctx ++ pre ++ ext
      /\ issues ctx' = issues ctx ++ new
      /\ Forall (under (_path ctx ++ pre)) new.

(** The context a computation ends with, whether it returns or throws. *)
Definition final_context {A} (o : OutcomeOf (Exn * ValidationContext) (A * ValidationContext))
  : ValidationContext :=
  match o with
  | Returned (_, ctx) => ctx
  | Thrown (_, ctx) => ctx
  end.

Definition nested_depth (depth : DecoratedType -> nat) (m : MappingMetadata) : nat :=
  match mappedAs m with
  | Some nested => depth nested
  | None => 0
  end.

Fixpoint depth (ctor : DecoratedType) : nat :=
  S (Nat.max
       match _parameters ctor with
       | Specified l =>
           list_max (map (fun o => match o with
                                   | Some m => nested_depth depth m
                                   | None => 0
                                   end) l)
       | _ => 0
       end
       match _properties ctor with
       | Specified l => list_max (map (fun km => nested_depth depth (snd km)) l)
       | _ => 0
       end).

(** The first alias present in the data, with the value found there. *)
Fixpoint firstFound (Number_key : string -> option string)
         (names : list segment) (data : value)
  : Outcome (option (segment * value)) :=
  match names with
  | [] => Returned None
  | name :: rest =>
      match getProperty Number_key name data with
      | Thrown e => Thrown e
      | Returned (Some val) => Returned (Some (name, val))
      | Returned None => firstFound Number_key rest data
      end
  end.

(** The value handed to the validations. *)
Definition preValidated (m : MappingMetadata) (val : value) : value :=
  match preValidationTransform m with Some f => f val | None => val end.

(** The value handed on after the validations. *)
Definition transformed (m : MappingMetadata) (val : value) : value :=
  match transform m with Some f => f val | None => val end.

(** Everything the validations of a mapping report on a found value. *)
Definition fieldReports (m : MappingMetadata) (val : value) : list Call :=
  flat_map (fun f => reports f (preValidated m val)) (validations m).

(** [validateValue] returned [error] for a found value.  The level it
    returns does not depend on the context it runs in. *)
Definition rejects (m : MappingMetadata) (val : value) : bool :=
  is_error (fst (validateValue (validations m) (preValidated m val) empty_context)).

(** The context after [validateValue] ran for a value found at [name] and
    the segment was popped again. *)
Definition afterValidation (m : MappingMetadata) (name : segment) (val : value)
           (ctx : ValidationContext) : ValidationContext :=
  VC.pop (snd (validateValue (validations m) (preValidated m val) (VC.push name ctx))).

Definition propNames (key : string) (m : MappingMetadata) : list segment :=
  ifEmpty (Some (aliases m)) (SegName key).

Definition paramNames (index : nat) (m : MappingMetadata) : list segment :=
  ifEmpty (Some (aliases m)) (SegIndex index).

(** The property with its default applied, when there is a truthy one. *)
Definition propDefaulted (m : MappingMetadata) (key : string) (result : object)
  : object :=
  match opt_defaultValue (Some m) with
  | Some d => set_field key d result
  | None => result
  end.

Definition paramDefaulted (m : MappingMetadata) (index : nat) (params : list value)
  : list value :=
  match opt_defaultValue (Some m) with
  | Some d => array_set params index d
  | None => params
  end.

Definition requiredProp (key : string) (ctx : ValidationContext) : ValidationIssue :=
  {| path := pathString ctx; level := IssueLevel.error;
     message := "Required property or field not found: " ++ key |}.

Definition requiredParam (names : list segment) (ctx : ValidationContext)
  : ValidationIssue :=
  {| path := pathString ctx; level := IssueLevel.error;
     message := "Required parameter not found: " ++ join "," names |}.

Definition not_an_array (ctx : ValidationContext) : ValidationIssue :=
  {| path := pathString ctx; level := IssueLevel.error;
     message := "Expected an array but found a non array type for property "
                  ++ join "." (_path ctx) |}.

(** * The rest of the validator library *)

(** [isNaN(v)] on a value whose type is number. *)
Definition is_NaN (v : value) : bool :=
  match v with VNaN => true | _ => false end.

(** The type check of [isNumber(allowNaN)]. *)
Definition number_check (allowNaN : bool) : ValidatorFn :=
  UserFn (fun v =>
    if negb (typeof v =? "number")
    then [CallError ("Expected type number, but found: " ++ typeof v)]
    else if negb allowNaN && is_NaN v
         then [CallError "Unexpected value: NaN"]
         else []).

(** The type check of [nullable().isNumber()], which does not look for
    [NaN]. *)
Definition nullable_number_check : ValidatorFn :=
  UserFn (fun v =>
    if negb (typeof v =? "number")
    then [CallError ("Expected type number, but found: " ++ typeof v)]
    else []).

Definition isNumber (allowNaN : bool) : ValidatorChain :=
  makeValidatorChain (number_check allowNaN) false.

Module NumberValidator.
(** The stage is reached by numbers only, since every number validator
    starts from a type check that reports an error otherwise.  [NaN] is
    neither above nor below a limit; the comparison of a value that is not a
    number with the limit is not modelled and reports nothing. *)
Definition max (base : ValidatorChain) (limit : Z)
           (lvl : IssueLevel.t) (msg : option string) : ValidatorChain :=
  refine base (UserFn (fun num =>
    match num with
    | VNumber n =>
        if (limit <? n)%Z
        then [CallAddIssue lvl (or_else msg
                ("Value (" ++ Z_to_string n ++ ") is greater than the maximum: "
                   ++ Z_to_string limit))]
        else []
    | _ => []
    end)).

Definition min (base : ValidatorChain) (limit : Z)
           (lvl : IssueLevel.t) (msg : option string) : ValidatorChain :=
  refine base (UserFn (fun num =>
    match num with
    | VNumber n =>
        if (n <? limit)%Z
        then [CallAddIssue lvl (or_else msg
                ("Value (" ++ Z_to_string n ++ ") is less than the minimum: "
                   ++ Z_to_string limit))]
        else []
    | _ => []
    end)).
End NumberValidator.

Module NullableNumber.
(** [nullable().isNumber()]: the base chain is not consulted. *)
Definition isNumber (base : ValidatorChain) : ValidatorChain :=
  makeValidatorChain nullable_number_check true.
End NullableNumber.

(** [chain.refine(n1).refine(n2)...]: the fluent calls, in order. *)
Definition refineAll (chain : ValidatorChain) (nexts : list ValidatorFn)
  : ValidatorChain :=
  fold_left refine nexts chain.

(** One fluent call on a string validator. *)
Inductive StringStep : Type :=
| MaxLength (len : nat) (lvl : IssueLevel.t) (msg : option string)
| MinLength (len : nat) (lvl : IssueLevel.t) (msg : option string)
| Enum (values : list string) (lvl : IssueLevel.t) (msg : option string).

Definition stringStep (base : ValidatorChain) (step : StringStep) : ValidatorChain :=
  match step with
  | MaxLength len lvl msg => StringValidator.maxLength base len lvl msg
  | MinLength len lvl msg => StringValidator.minLength base len lvl msg
  | Enum values lvl msg => StringValidator.enum base values lvl msg
  end.

(** One fluent call on a number validator. *)
Inductive NumberStep : Type :=
| Max (limit : Z) (lvl : IssueLevel.t) (msg : option string)
| Min (limit : Z) (lvl : IssueLevel.t) (msg : option string).

Definition numberStep (base : ValidatorChain) (step : NumberStep) : ValidatorChain :=
  match step with
  | Max limit lvl msg => NumberValidator.max base limit lvl msg
  | Min limit lvl msg => NumberValidator.min base limit lvl msg
  end.

(** The issues a sequence of calls leaves in a plain context. *)
Definition issues_at (p : string) (ks : list Call) : list ValidationIssue :=
  map (issue_at p) ks.

(** Some call of the sequence reports at error level. *)
Definition has_error (ks : list Call) : bool :=
  existsb (fun k => IssueLevel.eqb (call_level k) IssueLevel.error) ks.

(** The reports of consecutive stages, up to and including the first stage
    that reports an error. *)
Fixpoint untilError (stages : list (list Call)) : list Call :=
  match stages with
  | [] => []
  | stage :: rest => if has_error stage then stage else stage ++ untilError rest
  end.

(** The stage a fluent call adds to a string validator. *)
Definition stringStage (step : StringStep) : ValidatorFn :=
  match validate (stringStep isString step) with
  | RefinedFn _ next _ => next
  | f => f
  end.

(** The stage a fluent call adds to a number validator. *)
Definition numberStage (step : NumberStep) : ValidatorFn :=
  match validate (numberStep (isNumber false) step) with
  | RefinedFn _ next _ => next
  | f => f
  end.

(** [Number.MAX_SAFE_INTEGER]: up to it, in either direction, an integer is a
    number of the host and is printed in plain digits. *)
Definition MAX_SAFE_INTEGER : Z := 9007199254740991.

Definition is_safe (n : Z) : bool :=
  (- MAX_SAFE_INTEGER <=? n)%Z && (n <=? MAX_SAFE_INTEGER)%Z.

(** A string of ASCII characters only: its [length] in the host, which
    counts UTF-16 code units, is the number of its characters here. *)
Fixpoint ascii_only (s : string) : bool :=
  match s with
  | EmptyString => true
  | String c rest => (nat_of_ascii c <? 128)%nat && ascii_only rest
  end.

(** The values on which lengths, comparisons and printed numbers are those
    of the host. *)
Definition exact_value (v : value) : bool :=
  match v with
  | VNumber n => is_safe n
  | VString s => ascii_only s
  | _ => true
  end.

(** What a constraint on strings has to say about a string. *)
Definition stringViolation (step : StringStep) (s : string) : list Call :=
  match step with
  | MaxLength len lvl msg =>
      if (len <? String.length s)%nat
      then [CallAddIssue lvl (or_else msg
              ("Maximum length exceeded (max: " ++ nat_to_string len ++
               ", actual: " ++ nat_to_string (String.length s) ++ ")"))]
      else []
  | MinLength len lvl msg =>
      if (String.length s <? len)%nat
      then [CallAddIssue lvl (or_else msg
              ("Minimum length violated (max: " ++ nat_to_string len ++
               ", actual: " ++ nat_to_string (String.length s) ++ ")"))]
      else []
  | Enum values lvl msg =>
      if existsb (String.eqb s) values then []
      else [CallAddIssue lvl (or_else msg
              ("Value did not match one of the " ++
               nat_to_string (List.length values) ++ " expected options: " ++ s))]
  end.

(** What a constraint on numbers has to say about a number. *)
Definition numberViolation (step : NumberStep) (n : Z) : list Call :=
  match step with
  | Max limit lvl msg =>
      if (limit <? n)%Z
      then [CallAddIssue lvl (or_else msg
              ("Value (" ++ Z_to_string n ++ ") is greater than the maximum: "
                 ++ Z_to_string limit))]
      else []
  | Min limit lvl msg =>
      if (n <? limit)%Z
      then [CallAddIssue lvl (or_else msg
              ("Value (" ++ Z_to_string n ++ ") is less than the minimum: "
                 ++ Z_to_string limit))]
      else []
  end.

(** The fluent calls whose limit is a number of the host. *)
Definition exact_string_step (step : StringStep) : bool :=
  match step with
  | MaxLength len _ _ | MinLength len _ _ => is_safe (Z.of_nat len)
  | Enum _ _ _ => true
  end.

Definition exact_number_step (step : NumberStep) : bool :=
  match step with
  | Max limit _ _ | Min limit _ _ => is_safe limit
  end.

(** A computation that throws nothing but [TypeError]. *)
Definition typeErrorsOnly {A} (m : M A) : Prop :=
  forall ctx e ctx', m ctx = Thrown (e, ctx') -> exists msg, e = TypeError msg.

(** * The decorators *)

(** [makeMappingMetadata]: no aliases, no validations, every other member
    absent. *)
Definition makeMappingMetadata : MappingMetadata :=
  {| aliases := []; preValidationTransform := None; validations := [];
     transform := None; mappedAs := None; isArray := false;
     isRequired := false; defaultValue := None |}.

(** [properties[key]] brought into existence if need be, then changed in
    place by [fn]. *)
Fixpoint updateProperty (key : string) (fn : MappingMetadata -> MappingMetadata)
         (properties : list (string * MappingMetadata))
  : list (string * MappingMetadata) :=
  match properties with
  | [] => [(key, fn makeMappingMetadata)]
  | (k, m) :: rest =>
      if k =? key then (k, fn m) :: rest
      else (k, m) :: updateProperty key fn rest
  end.

(** [parameters[ix]] brought into existence if need be (the array grows,
    leaving holes), then changed in place by [fn]. *)
Fixpoint updateParameter (ix : nat) (fn : MappingMetadata -> MappingMetadata)
         (parameters : list (option MappingMetadata))
  : list (option MappingMetadata) :=
  match ix, parameters with
  | O, [] => [Some (fn makeMappingMetadata)]
  | O, Some m :: rest => Some (fn m) :: rest
  | O, None :: rest => Some (fn makeMappingMetadata) :: rest
  | S i, [] => None :: updateParameter i fn []
  | S i, o :: rest => o :: updateParameter i fn rest
  end.

Definition with_properties (ctor : DecoratedType)
           (properties : list (string * MappingMetadata)) : DecoratedType :=
  {| construct := construct ctor; _properties := Specified properties;
     _parameters := _parameters ctor; _parmeters := _parmeters ctor;
     mapData := mapData ctor; validateHook := validateHook ctor |}.

Definition with_parameters (ctor : DecoratedType)
           (parameters : list (option MappingMetadata)) : DecoratedType :=
  {| construct := construct ctor; _properties := _properties ctor;
     _parameters := Specified parameters; _parmeters := _parmeters ctor;
     mapData := mapData ctor; validateHook := validateHook ctor |}.

(** What the callback of [withMapping] does when it is handed a member of
    the host in place of a mapping: nothing, a throw, or an assignment to a
    member of the host's object. *)
Inductive OnHost : Type :=
| HostUntouched
| HostThrows (e : Exn)
| HostChanged.

(** The callback [fn] of [withMapping]: the change it makes to a mapping,
    and what it does to a member of the host. *)
Record MappingChange : Type := {
  on_mapping : MappingMetadata -> MappingMetadata;
  on_host : OnHost
}.

(** The names under which a number finds a member of the host's
    [Number.prototype] or [Object.prototype]. *)
Definition inherited_by_number (key : string) : bool :=
  inherited key || existsb (String.eqb key) ["toExponential"; "toFixed"; "toPrecision"].

(** [ensurePropertyMapping] followed by the call of [fn] on the mapping it
    returns.  A falsy [_properties] is replaced by a fresh object.  The
    lookup [properties[key]] finds the mapping the object holds under [key]
    and, when it holds none, the member the host's prototype supplies under
    that name: no mapping is created then and [fn] is handed that member.
    Only a name found in neither gets a fresh mapping; a member holding a
    number other than zero cannot take it, and the assignment throws in a
    module.  The result is [None] when [fn] assigned a member of an object of
    the host, which is not followed here. *)
Definition ensurePropertyMapping (ctor : DecoratedType) (key : string)
           (fn : MappingChange) : option (Outcome DecoratedType) :=
  let handed_host_member (ctor' : DecoratedType) :=
    match on_host fn with
    | HostUntouched => Some (Returned ctor')
    | HostThrows e => Some (Thrown e)
    | HostChanged => None
    end in
  let in_object (properties : list (string * MappingMetadata)) :=
    match assoc key properties with
    | Some _ =>
        Some (Returned (with_properties ctor (updateProperty key (on_mapping fn) properties)))
    | None =>
        if inherited key then handed_host_member (with_properties ctor properties)
        else Some (Returned
                     (with_properties ctor (updateProperty key (on_mapping fn) properties)))
    end in
  match _properties ctor with
  | Unspecified => in_object []
  | Specified properties => in_object properties
  | Malformed n =>
      if (n =? 0)%Z then in_object []
      else if inherited_by_number key then handed_host_member ctor
           else Some (Thrown (TypeError "Cannot create property on number"))
  end.

(** [ensureParameterMapping] followed by the call of [fn]: no host supplies
    a member under an array index. *)
Definition ensureParameterMapping (ctor : DecoratedType) (ix : nat)
           (fn : MappingChange) : option (Outcome DecoratedType) :=
  match _parameters ctor with
  | Unspecified =>
      Some (Returned (with_parameters ctor (updateParameter ix (on_mapping fn) [])))
  | Specified parameters =>
      Some (Returned (with_parameters ctor (updateParameter ix (on_mapping fn) parameters)))
  | Malformed n =>
      if (n =? 0)%Z
      then Some (Returned (with_parameters ctor (updateParameter ix (on_mapping fn) [])))
      else Some (Thrown (TypeError "Cannot create property on number"))
  end.

(** [withMapping]: [key] is [Some] when the decorated member has a string
    name, [descriptorOrIx] is [Some] when the third argument is a number;
    [ctor] is the class the decorator is applied in, which is
    [target.constructor] for an instance member and [target] for a
    constructor parameter. *)
Definition withMapping (ctor : DecoratedType) (key : option string)
           (descriptorOrIx : option nat) (fn : MappingChange)
  : option (Outcome DecoratedType) :=
  match key with
  | Some k => ensurePropertyMapping ctor k fn
  | None =>
      match descriptorOrIx with
      | Some ix => ensureParameterMapping ctor ix fn
      | None => Some (Returned ctor)
      end
  end.

Definition push_alias (name : string) (m : MappingMetadata) : MappingMetadata :=
  {| aliases := aliases m ++ [SegName name];
     preValidationTransform := preValidationTransform m;
     validations := validations m; transform := transform m;
     mappedAs := mappedAs m; isArray := isArray m;
     isRequired := isRequired m; defaultValue := defaultValue m |}.

Definition set_required (m : MappingMetadata) : MappingMetadata :=
  {| aliases := aliases m; preValidationTransform := preValidationTransform m;
     validations := validations m; transform := transform m;
     mappedAs := mappedAs m; isArray := isArray m;
     isRequired := true; defaultValue := defaultValue m |}.

Definition push_validation (fn : ValidatorFn) (m : MappingMetadata) : MappingMetadata :=
  {| aliases := aliases m; preValidationTransform := preValidationTransform m;
     validations := validations m ++ [fn]; transform := transform m;
     mappedAs := mappedAs m; isArray := isArray m;
     isRequired := isRequired m; defaultValue := defaultValue m |}.

Definition set_transform (fn : value -> value) (preValidation : bool)
           (m : MappingMetadata) : MappingMetadata :=
  if preValidation then
    {| aliases := aliases m; preValidationTransform := Some fn;
       validations := validations m; transform := transform m;
       mappedAs := mappedAs m; isArray := isArray m;
       isRequired := isRequired m; defaultValue := defaultValue m |}
  else
    {| aliases := aliases m; preValidationTransform := preValidationTransform m;
       validations := validations m; transform := Some fn;
       mappedAs := mappedAs m; isArray := isArray m;
       isRequired := isRequired m; defaultValue := defaultValue m |}.

Definition set_mappedAs (type : DecoratedType) (array : bool) (m : MappingMetadata)
  : MappingMetadata :=
  {| aliases := aliases m; preValidationTransform := preValidationTransform m;
     validations := validations m; transform := transform m;
     mappedAs := Some type; isArray := if array then true else isArray m;
     isRequired := isRequired m; defaultValue := defaultValue m |}.

(** The decorators, each as the change it makes to the mapping of its
    target; [validateWith] and [transformWith] stand for the decorators
    [validate] and [transform]. *)
Inductive Decorator : Type :=
| mapped
| alias (name : string)
| required
| validateWith (fn : ValidatorFn)
| transformWith (fn : value -> value) (preValidation : bool)
| typeOf (type : DecoratedType)
| arrayOf (type : DecoratedType).

Definition change (d : Decorator) : MappingMetadata -> MappingMetadata :=
  match d with
  | mapped => fun m => m
  | alias name => push_alias name
  | required => set_required
  | validateWith fn => push_validation fn
  | transformWith fn preValidation => set_transform fn preValidation
  | typeOf type => set_mappedAs type false
  | arrayOf type => set_mappedAs type true
  end.

(** What the callback of a decorator does to a member of the host: [alias]
    and [validate] read a member it does not have and call [push] on it, the
    others but [mapped] assign. *)
Definition hostEffect (d : Decorator) : OnHost :=
  match d with
  | mapped => HostUntouched
  | alias _ | validateWith _ =>
      HostThrows (TypeError "Cannot read properties of undefined (reading 'push')")
  | required | transformWith _ _ | typeOf _ | arrayOf _ => HostChanged
  end.

(** Applying a decorator to a member of a class. *)
Definition decorate (d : Decorator) (key : option string) (descriptorOrIx : option nat)
           (ctor : DecoratedType) : option (Outcome DecoratedType) :=
  withMapping ctor key descriptorOrIx
    {| on_mapping := change d; on_host := hostEffect d |}.

(** Applying decorators one after the other, first to last; the first
    that throws ends it. *)
Fixpoint decorateAll (ds : list (Decorator * option string * option nat))
         (ctor : DecoratedType) : option (Outcome DecoratedType) :=
  match ds with
  | [] => Some (Returned ctor)
  | (d, key, ix) :: rest =>
      match decorate d key ix ctor with
      | Some (Returned ctor') => decorateAll rest ctor'
      | Some (Thrown e) => Some (Thrown e)
      | None => None
      end
  end.

(** The decorated members that are named like no member of the host. *)
Definition own_names (ds : list (Decorator * option string * option nat)) : bool :=
  forallb (fun '(_, key, _) =>
             match key with
             | Some k => negb (inherited k)
             | None => true
             end) ds.

(** A class before any decorator ran. *)
Definition undecorated (construct : list value -> object) : DecoratedType :=
  {| construct := construct; _properties := Unspecified; _parameters := Unspecified;
     _parmeters := Unspecified; mapData := None; validateHook := None |}.

(** The mapping a class holds for a property, and for a parameter. *)
Definition propertyMapping (ctor : DecoratedType) (key : string)
  : option MappingMetadata :=
  match _properties ctor with
  | Specified properties => assoc key properties
  | _ => None
  end.

(** [parameters[ix]], a hole or a position past the end being absent. *)
Definition slot (parameters : list (option MappingMetadata)) (ix : nat)
  : option MappingMetadata :=
  match nth_error parameters ix with Some o => o | None => None end.

Definition parameterMapping (ctor : DecoratedType) (ix : nat)
  : option MappingMetadata :=
  match _parameters ctor with
  | Specified parameters => slot parameters ix
  | _ => None
  end.

(** * Properties *)

(** ** Diagnostics and tracking *)

Lemma raise_is_max (lvl : IssueLevel.t) (m : option IssueLevel.t) :
  raise lvl m = match m with
                | None => Some lvl
                | Some a => Some (IssueLevel.max a lvl)
                end.
Proof.
  destruct m as [a|]; [|reflexivity].
  destruct a, lvl; reflexivity.
Qed.

Lemma perform_Tracking (k : Call) (m : option IssueLevel.t) (c : IValidationContext) :
  perform k (Tracking m c) = Tracking (raise (call_level k) m) (perform k c).
Proof. destruct k; reflexivity. Qed.

Lemma perform_all_Tracking (ks : list Call) :
  forall m c,
    perform_all ks (Tracking m c)
    = Tracking (max_from m (map call_level ks)) (perform_all ks c).
Proof.
  induction ks as [|k ks IH]; intros m c; [reflexivity|].
  unfold perform_all in *. cbn [fold_left map].
  rewrite perform_Tracking, IH. unfold max_from. cbn [fold_left].
  now rewrite raise_is_max.
Qed.

Lemma perform_all_app (ks1 ks2 : list Call) (c : IValidationContext) :
  perform_all (ks1 ++ ks2) c = perform_all ks2 (perform_all ks1 c).
Proof. unfold perform_all. apply fold_left_app. Qed.

Lemma plain_of_perform (k : Call) (c : IValidationContext) :
  plain_of (perform k c)
  = VC.addIssue (call_level k) (call_message k) (plain_of c).
Proof.
  induction c as [c|m c IH]; destruct k; cbn in *; auto.
Qed.

Lemma issues_of_plain (c : IValidationContext) : issues_of c = issues (plain_of c).
Proof. induction c; cbn; auto. Qed.

Lemma plain_of_perform_all (ks : list Call) :
  forall c,
    _path (plain_of (perform_all ks c)) = _path (plain_of c) /\
    issues (plain_of (perform_all ks c))
    = issues (plain_of c) ++ map (issue_at (pathString (plain_of c))) ks.
Proof.
  induction ks as [|k ks IH]; intros c.
  - cbn. now rewrite app_nil_r.
  - unfold perform_all in *. cbn [fold_left map].
    destruct (IH (perform k c)) as [Hp Hi]. rewrite Hp, Hi.
    rewrite plain_of_perform. unfold VC.addIssue, pathString. cbn.
    split; [reflexivity|]. now rewrite <- app_assoc.
Qed.

Lemma call_reports (f : ValidatorFn) :
  forall v ctx, call f v ctx = perform_all (reports f v) ctx.
Proof.
  induction f as [body|fn IH ign|chain IHc next IHn ign]; intros v ctx.
  - reflexivity.
  - cbn. destruct (negb ign || negb (is_nullish v)); [apply IH|reflexivity].
  - cbn. destruct (negb ign || negb (is_nullish v)); [|reflexivity].
    rewrite IHc, perform_all_Tracking. cbn [maximumSeverity_of].
    fold (max_level (map call_level (reports chain v))).
    destruct (is_error (max_level (map call_level (reports chain v)))); cbn.
    + reflexivity.
    + rewrite IHn, perform_all_Tracking. cbn. now rewrite perform_all_app.
Qed.

Lemma validations_reports (fs : list ValidatorFn) (v : value) :
  forall ctx,
    fold_left (fun c f => call f v c) fs ctx
    = perform_all (flat_map (fun f => reports f v) fs) ctx.
Proof.
  induction fs as [|f fs IH]; intros ctx; [reflexivity|].
  cbn [fold_left flat_map]. now rewrite IH, call_reports, perform_all_app.
Qed.

Lemma validateValue_reports (fs : list ValidatorFn) (v : value) (ctx : ValidationContext) :
  validateValue fs v ctx
  = (max_level (map call_level (flat_map (fun f => reports f v) fs)),
     plain_of (perform_all (flat_map (fun f => reports f v) fs) (Plain ctx))).
Proof.
  unfold validateValue. now rewrite validations_reports, perform_all_Tracking.
Qed.

Lemma max_from_Some (ls : list IssueLevel.t) :
  forall a, exists m,
    max_from (Some a) ls = Some m /\
    (m = a \/ In m ls) /\
    (IssueLevel.num a <= IssueLevel.num m)%Z /\
    Forall (fun l => (IssueLevel.num l <= IssueLevel.num m)%Z) ls.
Proof.
  induction ls as [|l ls IH]; intros a.
  - exists a. cbn. repeat split; auto; lia.
  - destruct (IH (IssueLevel.max a l)) as (m & Hm & Hin & Hle & Hall).
    exists m. unfold max_from in *. cbn [fold_left]. rewrite Hm.
    assert (Hmax : (IssueLevel.num a <= IssueLevel.num (IssueLevel.max a l)
                    /\ IssueLevel.num l <= IssueLevel.num (IssueLevel.max a l))%Z)
      by (destruct a, l; cbn; lia).
    assert (Hc : IssueLevel.max a l = a \/ IssueLevel.max a l = l)
      by (destruct a, l; cbn; auto).
    repeat split; try lia.
    + destruct Hin as [->|Hin]; [destruct Hc as [->| ->]|]; cbn; auto.
    + constructor; [lia|exact Hall].
Qed.

Lemma max_level_spec (ls : list IssueLevel.t) :
  match max_level ls with
  | None => ls = []
  | Some m => In m ls /\ Forall (fun l => (IssueLevel.num l <= IssueLevel.num m)%Z) ls
  end.
Proof.
  destruct ls as [|a ls]; [reflexivity|].
  unfold max_level, max_from. cbn [fold_left].
  destruct (max_from_Some ls a) as (m & Hm & Hin & Hle & Hall).
  unfold max_from in Hm. rewrite Hm. split.
  - destruct Hin as [->|Hin]; cbn; auto.
  - constructor; assumption.
Qed.

(** C5.  Reporting any sequence of issues through a tracking context around
    a sink leaves the tracked maximum equal to the greatest reported level
    (unset when nothing was reported), and hands the sink the very same
    calls in the same order, so the sink gains exactly one issue per call;
    [validateValue] returns that maximum over everything the validations of
    a field report. *)
Theorem tracking_maximum_and_delivery :
  forall (ks : list Call) (inner : IValidationContext),
    perform_all ks (Tracking None inner)
    = Tracking (max_level (map call_level ks)) (perform_all ks inner)
    /\ issues_of (perform_all ks inner)
       = issues_of inner ++ map (issue_at (pathString (plain_of inner))) ks
    /\ match max_level (map call_level ks) with
       | None => ks = []
       | Some m =>
           In m (map call_level ks) /\
           Forall (fun k => (IssueLevel.num (call_level k) <= IssueLevel.num m)%Z) ks
       end
    /\ (forall (f : ValidatorFn) (v : value) (c : IValidationContext),
          call f v c = perform_all (reports f v) c)
    /\ forall (validations : list ValidatorFn) (v : value) (context : ValidationContext),
         fst (validateValue validations v context)
         = max_level (map call_level (flat_map (fun f => reports f v) validations)).
Proof.
  intros ks inner. repeat split.
  - apply perform_all_Tracking.
  - rewrite !issues_of_plain. apply plain_of_perform_all.
  - pose proof (max_level_spec (map call_level ks)) as H.
    destruct (max_level (map call_level ks)) as [m|].
    + destruct H as [Hin Hall]. split; [exact Hin|].
      now rewrite Forall_map in Hall.
    + now apply map_eq_nil in H.
  - intros f v c. apply call_reports.
  - intros. now rewrite validateValue_reports.
Qed.

(** ** Refinement *)

(** C2, as stated, fails: on a chain built with [ignoreNull] and a null
    value the refined chain runs neither stage, although the first stage
    reports no error; the next stage would have reported an issue. *)
Lemma refine_skips_next_on_null :
  let C := NullableValidator.isString nullable in
  let d := Plain empty_context in
  call (validate (refine C only_a)) VNull d = d
  /\ is_error (maximumSeverity_of (call (validate C) VNull (Tracking None d))) = false
  /\ gated (validate C) only_a VNull d <> d
  /\ ~ (forall (C : ValidatorChain) (N : ValidatorFn) v d,
          call (validate (refine C N)) v d = gated (validate C) N v d).
Proof.
  cbn zeta. repeat split; try reflexivity.
  - vm_compute. discriminate.
  - intros H.
    specialize (H (NullableValidator.isString nullable) only_a VNull
                  (Plain empty_context)).
    vm_compute in H. discriminate.
Qed.

Lemma refined_wrapper (C N : ValidatorFn) (ign : bool) (v : value)
      (m : option IssueLevel.t) (d : IValidationContext) :
  call (RefinedFn C N ign) v (Tracking m d)
  = Tracking (max_from m (map call_level (reports (RefinedFn C N ign) v)))
             (call (RefinedFn C N ign) v d).
Proof. now rewrite !call_reports, perform_all_Tracking. Qed.

(** C2, amended.  When the chain was not built with [ignoreNull], or the
    value is not null or undefined, the refined chain runs the first stage
    against a fresh tracking wrapper around the caller's context and runs the
    next stage, on the same value and the same wrapper, exactly when the
    tracked maximum is not [error]; a wrapper placed around the refined chain
    by a later refinement records the maximum over everything both stages
    reported.  When the chain was built with [ignoreNull] and the value is
    null or undefined, the refined chain runs neither the first stage nor the
    next one: whatever the two stages would report, nothing is reported, the
    caller's context is left as it was and a wrapper placed around the
    refined chain keeps the maximum it had. *)
Theorem refine_gates_on_tracked_severity :
  forall (C : ValidatorChain) (N : ValidatorFn) (v : value) (d : IValidationContext),
    (chain_ignoreNull C = false \/ is_nullish v = false ->
     call (validate (refine C N)) v d = gated (validate C) N v d
     /\ (is_error (maximumSeverity_of (call (validate C) v (Tracking None d))) = true ->
         call (validate (refine C N)) v d = call (validate C) v d)
     /\ (is_error (maximumSeverity_of (call (validate C) v (Tracking None d))) = false ->
         call (validate (refine C N)) v d = call N v (call (validate C) v d))
     /\ maximumSeverity_of (call (validate (refine C N)) v (Tracking None d))
        = max_level (map call_level (reports (validate (refine C N)) v)))
    /\ (chain_ignoreNull C = true -> is_nullish v = true ->
        call (validate (refine C N)) v d = d
        /\ reports (validate (refine C N)) v = []
        /\ forall m, call (validate (refine C N)) v (Tracking m d) = Tracking m d).
Proof.
  intros C N v d. split.
  - intros Hrun.
    assert (Hgo : negb (chain_ignoreNull C) || negb (is_nullish v) = true).
    { destruct Hrun as [-> | ->]; [reflexivity|apply orb_true_r]. }
    assert (Hw : call (validate C) v (Tracking None d)
                 = Tracking (max_level (map call_level (reports (validate C) v)))
                            (call (validate C) v d)).
    { now rewrite !call_reports, perform_all_Tracking. }
    unfold gated, refine, refineValidatorChain. cbn [validate call].
    rewrite Hgo, Hw. cbn [maximumSeverity_of].
    repeat split.
    + destruct (is_error (max_level (map call_level (reports (validate C) v))));
        reflexivity.
    + intros ->. reflexivity.
    + intros ->. cbn [negb].
      rewrite (call_reports N), perform_all_Tracking. cbn [context_of].
      symmetry. apply call_reports.
    + pose proof (refined_wrapper (validate C) N (chain_ignoreNull C) v None d) as R.
      cbn [call] in R. rewrite Hgo in R. rewrite R. reflexivity.
  - intros Hign Hnull.
    unfold refine, refineValidatorChain. cbn [validate call reports].
    rewrite Hign, Hnull. cbn [negb orb]. repeat split.
Qed.

(** The amended statement applies to [isString().enum(["a"])] on a number:
    the type check reports an error and the membership check does not run;
    and to [nullable().isString().enum(["a"])] on null, where nothing runs. *)
Lemma refine_gates_on_tracked_severity_witness :
  (chain_ignoreNull isString = false \/ is_nullish (VNumber 7) = false)
  /\ call (validate (refine isString only_a)) (VNumber 7) (Plain empty_context)
     = gated (validate isString) only_a (VNumber 7) (Plain empty_context)
  /\ issues_of (call (validate (refine isString only_a)) (VNumber 7) (Plain empty_context))
     = [{| path := ""; level := IssueLevel.error;
           message := "Expected type string, but found: number" |}]
  /\ chain_ignoreNull (NullableValidator.isString nullable) = true
  /\ is_nullish VNull = true
  /\ call (validate (refine (NullableValidator.isString nullable) only_a)) VNull
          (Plain empty_context)
     = Plain empty_context.
Proof.
  split; [left; reflexivity|]. split.
  - exact (proj1 (proj1 (refine_gates_on_tracked_severity isString only_a (VNumber 7)
                           (Plain empty_context)) (or_introl eq_refl))).
  - split; [reflexivity|]. split; [reflexivity|]. split; [reflexivity|].
    exact (proj1 (proj2 (refine_gates_on_tracked_severity
                           (NullableValidator.isString nullable) only_a VNull
                           (Plain empty_context)) eq_refl eq_refl)).
Defined.

(** ** Path rendering *)

Lemma append_assoc (a b c : string) : ((a ++ b) ++ c = a ++ (b ++ c))%string.
Proof. induction a as [|x a IH]; cbn; [reflexivity|now rewrite IH]. Qed.

Lemma append_nil_r (a : string) : (a ++ "" = a)%string.
Proof. induction a as [|x a IH]; cbn; [reflexivity|now rewrite IH]. Qed.

Lemma append_nonempty (a b : string) : a <> "" -> (a ++ b =? "")%string = false.
Proof. destruct a; [congruence|reflexivity]. Qed.

(** C8, as stated, fails on a stack that starts with the empty name: the
    source joins with a dot only when some text was rendered before. *)
Lemma pathString_empty_first_name :
  pathString (at_path [SegName ""; SegName "a"]) = "a"
  /\ rendered [SegName ""; SegName "a"] = ".a"
  /\ ~ (forall p, pathString (at_path p) = rendered p).
Proof.
  repeat split.
  intros H. specialize (H [SegName ""; SegName "a"]). discriminate H.
Qed.

Lemma pathString_from_nonempty (p : list segment) :
  forall str, str <> "" -> pathString_from str p = (str ++ rendered_rest p)%string.
Proof.
  induction p as [|[s|n] p IH]; intros str Hne; cbn [pathString_from rendered_rest].
  - now rewrite append_nil_r.
  - destruct str as [|c str]; [congruence|]. cbn [String.eqb].
    rewrite IH by (cbn; discriminate). now rewrite !append_assoc.
  - rewrite IH by (destruct str; [congruence|cbn; discriminate]).
    now rewrite !append_assoc.
Qed.

Lemma pathString_from_app (p q : list segment) :
  forall str, pathString_from str (p ++ q) = pathString_from (pathString_from str p) q.
Proof.
  induction p as [|[s|n] p IH]; intros str; cbn; auto.
Qed.

(** C8, amended.  On every stack, an index is appended as [[n]] with no
    separator and a name is appended after a dot exactly when some text was
    rendered before it; whenever the stack does not start with the empty name
    this is the rule of joining names with dots except in first position;
    and the stack [items, 2, name] renders as [items[2].name]. *)
Theorem pathString_rule :
  forall (p : list segment),
    (forall n, pathString (at_path (p ++ [SegIndex n]))
               = (pathString (at_path p) ++ "[" ++ nat_to_string n ++ "]")%string)
    /\ (forall s, pathString (at_path (p ++ [SegName s]))
                  = if pathString (at_path p) =? "" then s
                    else (pathString (at_path p) ++ "." ++ s)%string)
    /\ (hd (SegIndex 0) p <> SegName "" -> pathString (at_path p) = rendered p)
    /\ pathString (at_path [SegName "items"; SegIndex 2; SegName "name"])
       = "items[2].name".
Proof.
  intros p. unfold pathString. cbn [_path at_path]. repeat split.
  - intros n. now rewrite pathString_from_app.
  - intros s. rewrite pathString_from_app. cbn [pathString_from].
    destruct (pathString_from "" p =? "") eqn:E; [|reflexivity].
    apply String.eqb_eq in E. now rewrite E.
  - intros Hhd.
    destruct p as [|[s|n] p]; cbn [pathString_from rendered]; [reflexivity| |].
    + cbn in Hhd. cbn [String.eqb append].
      apply pathString_from_nonempty. congruence.
    + change ("" ++ "[" ++ nat_to_string n ++ "]")%string
        with ("[" ++ nat_to_string n ++ "]")%string.
      rewrite pathString_from_nonempty by (cbn; discriminate).
      now rewrite !append_assoc.
Qed.

(** The append rules apply to the stack that starts with the empty name, and
    the joining rule to the stack [items, 2, name]. *)
Lemma pathString_rule_witness :
  pathString (at_path ([SegName ""] ++ [SegName "a"]))
  = (if pathString (at_path [SegName ""]) =? "" then "a"
     else pathString (at_path [SegName ""]) ++ "." ++ "a")%string
  /\ hd (SegIndex 0) [SegName "items"; SegIndex 2; SegName "name"] <> SegName ""
  /\ pathString (at_path [SegName "items"; SegIndex 2; SegName "name"])
     = rendered [SegName "items"; SegIndex 2; SegName "name"].
Proof.
  assert (H : hd (SegIndex 0) [SegName "items"; SegIndex 2; SegName "name"] <> SegName "")
    by (cbn; discriminate).
  split.
  - exact (proj1 (proj2 (pathString_rule [SegName ""])) "a").
  - split; [exact H|].
    exact (proj1 (proj2 (proj2 (pathString_rule
                                  [SegName "items"; SegIndex 2; SegName "name"]))) H).
Defined.

(** ** The monad *)

Lemma bind_Returned {A B} (m : M A) (k : A -> M B) ctx b ctx' :
  bind m k ctx = Returned (b, ctx') <->
  exists a ctx1, m ctx = Returned (a, ctx1) /\ k a ctx1 = Returned (b, ctx').
Proof.
  unfold bind. split.
  - destruct (m ctx) as [[a ctx1]|e]; [|discriminate]. eauto.
  - intros (a & ctx1 & -> & H). exact H.
Qed.

Lemma ret_Returned {A} (a b : A) ctx ctx' :
  ret a ctx = Returned (b, ctx') <-> a = b /\ ctx = ctx'.
Proof. unfold ret. split; [intros [= -> ->]; auto | intros [-> ->]; auto]. Qed.

Lemma modify_Returned f u ctx ctx' :
  modify f ctx = Returned (u, ctx') <-> ctx' = f ctx.
Proof.
  unfold modify. destruct u. split; [intros [= <-]; auto | intros ->; auto].
Qed.

(** Break an equation [m ctx = Returned _] along the binds of [m]. *)
Ltac run :=
  repeat match goal with
    | H : bind _ _ _ = Returned _ |- _ =>
        apply bind_Returned in H; destruct H as (? & ? & ? & ?)
    | H : ret _ _ = Returned _ |- _ =>
        apply ret_Returned in H; destruct H as [? ?]; subst
    | H : modify _ _ = Returned _ |- _ =>
        apply modify_Returned in H; subst
    end.

(** ** Path discipline *)

Lemma extends_refl base ctx : extends base ctx ctx.
Proof. split; [reflexivity|]. exists []. now rewrite app_nil_r. Qed.

Lemma extends_trans base c1 c2 c3 :
  extends base c1 c2 -> extends base c2 c3 -> extends base c1 c3.
Proof.
  intros [P1 (n1 & I1 & F1)] [P2 (n2 & I2 & F2)]. split; [congruence|].
  exists (n1 ++ n2). rewrite I2, I1, app_assoc. split; [reflexivity|].
  apply Forall_app; auto.
Qed.

Lemma under_weaken base s i : under (base ++ [s]) i -> under base i.
Proof. intros [ext H]. exists (s :: ext). now rewrite <- app_assoc in H. Qed.

Lemma extends_addIssue lvl msg ctx :
  extends (_path ctx) ctx (VC.addIssue lvl msg ctx).
Proof.
  split; [reflexivity|]. eexists. split; [reflexivity|].
  constructor; [|constructor]. exists []. cbn. now rewrite app_nil_r.
Qed.

Lemma extends_perform_all ks ctx :
  extends (_path ctx) ctx (plain_of (perform_all ks (Plain ctx))).
Proof.
  destruct (plain_of_perform_all ks (Plain ctx)) as [Hp Hi]. cbn in Hp, Hi.
  split; [exact Hp|]. eexists. split; [exact Hi|].
  apply Forall_map, Forall_forall. intros k _. exists []. cbn.
  now rewrite app_nil_r.
Qed.

(** A segment pushed before and popped after: the stack is restored and
    what was recorded in between carries the segment. *)
Lemma extends_scope base s ctx ctx2 :
  _path ctx = base ->
  extends (base ++ [s]) (VC.push s ctx) ctx2 ->
  _path (VC.pop ctx2) = base /\
  exists new, issues (VC.pop ctx2) = issues ctx ++ new /\ Forall (under (base ++ [s])) new.
Proof.
  intros Hb [Hp (new & Hi & Hf)]. cbn in *. subst base. split.
  - rewrite Hp. apply removelast_last.
  - exists new. auto.
Qed.

Lemma balanced_ret {A} (a : A) : balanced (ret a).
Proof. intros ctx b ctx' H. run. apply extends_refl. Qed.

Lemma balanced_bind {A B} (m : M A) (k : A -> M B) :
  balanced m -> (forall a, balanced (k a)) -> balanced (bind m k).
Proof.
  intros Hm Hk ctx b ctx' H. run.
  pose proof (Hm _ _ _ H) as E1. pose proof (Hk _ _ _ _ H0) as E2.
  destruct E1 as [P1 ?]. rewrite P1 in E2.
  eapply extends_trans; [split; eauto|exact E2].
Qed.

Lemma balanced_lift {A} (o : Outcome A) : balanced (lift o).
Proof.
  intros ctx a ctx' H. unfold lift in H. destruct o; [|discriminate].
  injection H as <- <-. apply extends_refl.
Qed.

Lemma balanced_error msg : balanced (modify (VC.error msg)).
Proof. intros ctx u ctx' H. run. apply extends_addIssue. Qed.

Section EngineFacts.

Variable Number_key : string -> option string.

Lemma scoped_balanced {A} s (m : M A) : scoped s m -> balanced m.
Proof.
  intros Hs ctx a ctx' H. destruct (Hs _ _ _ H) as [Hp (new & Hi & Hf)].
  split; [exact Hp|]. exists new. split; [exact Hi|].
  eapply Forall_impl; [|exact Hf]. intros i. apply under_weaken.
Qed.

Lemma mapElement_scoped (create : value -> M value) v ix :
  (forall v, balanced (create v)) -> scoped (SegIndex ix) (mapElement create v ix).
Proof.
  intros Hc ctx r ctx' H. unfold mapElement in H. run.
  apply Hc in H0. cbn [VC.push _path] in H0.
  destruct (extends_scope (_path ctx) (SegIndex ix) ctx _ eq_refl H0); auto.
Qed.

Lemma mapElements_balanced (create : value -> M value) :
  (forall v, balanced (create v)) ->
  forall elems ix, balanced (mapElements create ix elems).
Proof.
  intros Hc. induction elems as [|v rest IH]; intros ix; cbn [mapElements].
  - apply balanced_ret.
  - apply balanced_bind.
    + eapply scoped_balanced, mapElement_scoped, Hc.
    + intros r. apply balanced_bind; [apply IH|]. intros rs. apply balanced_ret.
Qed.

Lemma handleRecursiveMappingWith_balanced (create : value -> M value) isArr data :
  (forall v, balanced (create v)) ->
  balanced (handleRecursiveMappingWith create isArr data).
Proof.
  intros Hc. unfold handleRecursiveMappingWith.
  destruct isArr; [|apply Hc].
  destruct (is_nullish data); cbn [negb]; [apply balanced_ret|].
  assert (Herr : balanced (fun ctx : ValidationContext =>
            Returned (VUndefined,
              VC.error ("Expected an array but found a non array type for property "
                          ++ join "." (_path ctx)) ctx))).
  { intros ctx a ctx' [= <- <-]. apply extends_addIssue. }
  destruct data; try exact Herr.
  apply balanced_bind; [now apply mapElements_balanced|].
  intros rs. apply balanced_ret.
Qed.

Lemma validateValue_extends fs v ctx :
  extends (_path ctx) ctx (snd (validateValue fs v ctx)).
Proof. rewrite validateValue_reports. apply extends_perform_all. Qed.

Lemma mapFound_scoped recurse mapping name val :
  (forall m h, mapping = Some m -> recurse m = Some h -> forall v, balanced (h v)) ->
  scoped name (mapFound recurse mapping name val).
Proof.
  intros Hrec ctx r ctx' H. unfold mapFound in H.
  apply bind_Returned in H as (u & c1 & Hpush & H).
  apply modify_Returned in Hpush. subst c1.
  destruct mapping as [m|]; [|discriminate].
  apply bind_Returned in H as (vr & c2 & Hval & H).
  apply bind_Returned in H as (r' & c3 & Hmap & H).
  apply bind_Returned in H as (u' & c4 & Hpop & H).
  apply modify_Returned in Hpop. subst c4. apply ret_Returned in H as [-> <-].
  apply (extends_scope (_path ctx) name ctx _ eq_refl).
  assert (E2 : extends (_path ctx ++ [name]) (VC.push name ctx) c2).
  { destruct (validations m) as [|f fs] eqn:Ev.
    - apply ret_Returned in Hval as [_ <-]. apply extends_refl.
    - cbv beta in Hval.
      match type of Hval with
      | Returned (validateValue ?fs ?v ?c) = _ =>
          pose proof (validateValue_extends fs v c) as E;
          assert (Hv : validateValue fs v c = (vr, c2)) by congruence;
          rewrite Hv in E; exact E
      end. }
  eapply extends_trans; [exact E2|].
  destruct E2 as [Hp _]. cbn [VC.push _path] in Hp. rewrite <- Hp.
  destruct (negb (is_error vr)).
  - apply bind_Returned in Hmap as (val' & c5 & Hh & Hret).
    apply ret_Returned in Hret as [_ ->].
    destruct (recurse m) as [h|] eqn:Eh.
    + eapply Hrec; eauto.
    + apply ret_Returned in Hh as [_ ->]. apply extends_refl.
  - apply ret_Returned in Hmap as [_ ->]. apply extends_refl.
Qed.

Lemma tryAliases_balanced recurse mapping data :
  (forall m h, mapping = Some m -> recurse m = Some h -> forall v, balanced (h v)) ->
  forall names, balanced (tryAliases Number_key recurse mapping names data).
Proof.
  intros Hrec. induction names as [|n names IH]; cbn [tryAliases].
  - apply balanced_ret.
  - apply balanced_bind; [apply balanced_lift|].
    intros [val|]; [|exact IH].
    eapply scoped_balanced, mapFound_scoped, Hrec.
Qed.

Lemma unmappedParam_balanced mapping index params :
  balanced (unmappedParam mapping index params).
Proof.
  unfold unmappedParam. destruct (opt_isRequired mapping).
  - apply balanced_bind; [apply balanced_error|]. intros _. apply balanced_ret.
  - destruct (opt_defaultValue mapping); apply balanced_ret.
Qed.

Lemma unmappedProp_balanced mapping key result :
  balanced (unmappedProp mapping key result).
Proof.
  unfold unmappedProp. destruct (isRequired mapping).
  - apply balanced_bind; [apply balanced_error|]. intros _. apply balanced_ret.
  - destruct (opt_defaultValue (Some mapping)); apply balanced_ret.
Qed.

Lemma paramPass_balanced recurse data :
  forall paramMappings,
    (forall m h, In (Some m) paramMappings -> recurse m = Some h ->
                 forall v, balanced (h v)) ->
    forall index params,
      balanced (paramPass Number_key recurse paramMappings index data params).
Proof.
  induction paramMappings as [|mapping rest IH]; intros Hrec index params;
    cbn [paramPass].
  - apply balanced_ret.
  - apply balanced_bind.
    + apply tryAliases_balanced. intros m h -> Hh. eapply Hrec; [now left|exact Hh].
    + intros r. apply balanced_bind.
      * destruct r; [apply balanced_ret|apply unmappedParam_balanced].
      * intros ps. apply IH. intros m h Hin. apply Hrec. now right.
Qed.

Lemma propPass_balanced recurse data :
  forall propMappings,
    (forall key m h, In (key, m) propMappings -> recurse m = Some h ->
                     forall v, balanced (h v)) ->
    forall result,
      balanced (propPass Number_key recurse propMappings data result).
Proof.
  induction propMappings as [|[key mapping] rest IH]; intros Hrec result;
    cbn [propPass].
  - apply balanced_ret.
  - apply balanced_bind.
    + apply tryAliases_balanced. intros m h [= <-] Hh.
      eapply Hrec; [now left|exact Hh].
    + intros r. apply balanced_bind.
      * destruct r; [apply balanced_ret|apply unmappedProp_balanced].
      * intros res. apply IH. intros k m h Hin. eapply Hrec. right. exact Hin.
Qed.

Lemma runHook_balanced {A} (hook : option (Hook A)) arg result :
  balanced (runHook hook arg result).
Proof.
  unfold runHook. destruct hook as [h|]; [|apply balanced_ret].
  destruct (h arg result) as [result' calls].
  intros ctx a ctx' [= <- <-]. apply extends_perform_all.
Qed.

End EngineFacts.

(** ** Nesting depth of the metadata *)

Lemma list_max_In {A} (f : A -> nat) (l : list A) (x : A) :
  In x l -> f x <= list_max (map f l).
Proof.
  intros Hin.
  assert (H : Forall (fun k => k <= list_max (map f l)) (map f l))
    by (apply list_max_le; lia).
  rewrite Forall_forall in H. apply H. now apply in_map.
Qed.

Lemma depth_parameter ctor l m nested :
  _parameters ctor = Specified l -> In (Some m) l -> mappedAs m = Some nested ->
  depth nested < depth ctor.
Proof.
  intros Hl Hin Hm. destruct ctor as [c props params pm md vh]. cbn in Hl. subst params.
  cbn [depth _parameters _properties].
  pose proof (list_max_In (fun o => match o with
                                    | Some m => nested_depth depth m
                                    | None => 0
                                    end) l (Some m) Hin) as H.
  cbn beta iota in H. unfold nested_depth at 1 in H. rewrite Hm in H. lia.
Qed.

Lemma depth_property ctor l key m nested :
  _properties ctor = Specified l -> In (key, m) l -> mappedAs m = Some nested ->
  depth nested < depth ctor.
Proof.
  intros Hl Hin Hm. destruct ctor as [c props params pm md vh]. cbn in Hl. subst props.
  cbn [depth _parameters _properties].
  pose proof (list_max_In (fun km => nested_depth depth (snd km)) l (key, m) Hin) as H.
  cbn beta iota in H. cbn [snd] in H. unfold nested_depth at 1 in H.
  rewrite Hm in H. lia.
Qed.

Section PathBalance.

Variable Number_key : string -> option string.

(** The body of [internalCreateInstance], in terms of [recurseInto]. *)
Lemma internalCreateInstance_eq ctor data :
  internalCreateInstance Number_key ctor data
  = if is_nullish data then ret data
    else
      params <- match _parameters ctor with
                | Specified paramMappings =>
                    paramPass Number_key (recurseInto Number_key) paramMappings 0 data []
                | Unspecified | Malformed _ => ret []
                end ;;
      result <- match _properties ctor with
                | Specified propMappings =>
                    propPass Number_key (recurseInto Number_key) propMappings data
                             (construct ctor params)
                | Unspecified | Malformed _ => ret (construct ctor params)
                end ;;
      result <- runHook (mapData ctor) data result ;;
      result <- runHook (validateHook ctor) tt result ;;
      ret (VObject result).
Proof. destruct ctor. reflexivity. Qed.

Lemma recurseInto_balanced m h :
  (forall nested, mappedAs m = Some nested ->
                  forall data, balanced (internalCreateInstance Number_key nested data)) ->
  recurseInto Number_key m = Some h -> forall v, balanced (h v).
Proof.
  unfold recurseInto. intros Hn Hh v. destruct (mappedAs m) as [nested|]; [|discriminate].
  injection Hh as <-. apply handleRecursiveMappingWith_balanced.
  intros data. now apply Hn.
Qed.

Lemma internalCreateInstance_balanced_upto n :
  forall ctor, depth ctor <= n ->
               forall data, balanced (internalCreateInstance Number_key ctor data).
Proof.
  induction n as [|n IH]; intros ctor Hd data.
  - destruct ctor; cbn in Hd; lia.
  - rewrite internalCreateInstance_eq.
    destruct (is_nullish data); [apply balanced_ret|].
    apply balanced_bind.
    { destruct (_parameters ctor) as [|l|z] eqn:El; try apply balanced_ret.
      apply paramPass_balanced. intros m h Hin. apply recurseInto_balanced.
      intros nested Hm. apply IH.
      pose proof (depth_parameter ctor l m nested El Hin Hm). lia. }
    intros params. apply balanced_bind.
    { destruct (_properties ctor) as [|l|z] eqn:El; try apply balanced_ret.
      apply propPass_balanced. intros key m h Hin. apply recurseInto_balanced.
      intros nested Hm. apply IH.
      pose proof (depth_property ctor l key m nested El Hin Hm). lia. }
    intros result. apply balanced_bind; [apply runHook_balanced|].
    intros result1. apply balanced_bind; [apply runHook_balanced|].
    intros result2. apply balanced_ret.
Qed.

Lemma internalCreateInstance_balanced ctor data :
  balanced (internalCreateInstance Number_key ctor data).
Proof. apply (internalCreateInstance_balanced_upto (depth ctor)). lia. Qed.

Lemma handleRecursiveMapping_balanced ctor isArr data :
  balanced (handleRecursiveMapping Number_key ctor isArr data).
Proof.
  apply handleRecursiveMappingWith_balanced. intros v.
  apply internalCreateInstance_balanced.
Qed.

End PathBalance.

(** ** The stack at a throw *)

Lemma under_app base pre i : under (base ++ pre) i -> under base i.
Proof. intros [ext H]. exists (pre ++ ext). now rewrite <- app_assoc in H. Qed.

Lemma left_open_nothing {A} (pre : list segment) (m : M A) :
  (forall ctx, exists r, m ctx = Returned r) -> left_open pre m.
Proof. intros H ctx e ctx' Ht. destruct (H ctx) as [r Hr]. congruence. Qed.

Lemma left_open_ret {A} pre (a : A) : left_open pre (ret a).
Proof. apply left_open_nothing. intros ctx. eexists. reflexivity. Qed.

Lemma left_open_weaken {A} pre (m : M A) : left_open pre m -> left_open [] m.
Proof.
  intros H ctx e ctx' Ht. destruct (H _ _ _ Ht) as (ext & new & Hp & Hi & Hf).
  exists (pre ++ ext), new. cbn [app]. repeat split; auto.
  rewrite app_nil_r. eapply Forall_impl; [|exact Hf]. intros i. apply under_app.
Qed.

Lemma left_open_bind {A B} (m : M A) (k : A -> M B) :
  balanced m -> left_open [] m -> (forall a, left_open [] (k a)) ->
  left_open [] (bind m k).
Proof.
  intros Hb Hm Hk ctx e ctx' Ht. unfold bind in Ht.
  destruct (m ctx) as [[a c1]|[e1 c1]] eqn:E.
  - destruct (Hb _ _ _ E) as [Hp (n1 & Hi & Hf)].
    destruct (Hk _ _ _ _ Ht) as (ext & n2 & Hp2 & Hi2 & Hf2).
    rewrite Hp in Hp2, Hf2. rewrite Hi in Hi2.
    exists ext, (n1 ++ n2). split; [exact Hp2|].
    split; [now rewrite app_assoc|].
    apply Forall_app. split; [now rewrite app_nil_r|exact Hf2].
  - injection Ht as -> ->. exact (Hm _ _ _ E).
Qed.

Lemma left_open_lift {A} (o : Outcome A) : left_open [] (lift o).
Proof.
  intros ctx e ctx' H. unfold lift in H. destruct o; [discriminate|].
  injection H as <- <-. exists [], []. cbn [app]. now rewrite !app_nil_r.
Qed.

Section Unwinding.

Variable Number_key : string -> option string.

(** An element that throws leaves its index on the stack. *)
Lemma mapElement_left_open (create : value -> M value) v ix :
  (forall v, left_open [] (create v)) ->
  left_open [SegIndex ix] (mapElement create v ix).
Proof.
  intros Hc ctx e ctx' H. unfold mapElement, bind in H. cbn [modify] in H.
  destruct (create v (VC.push (SegIndex ix) ctx)) as [[r c1]|[e1 c1]] eqn:E;
    [discriminate|].
  injection H as -> ->.
  destruct (Hc _ _ _ _ E) as (ext & new & Hp & Hi & Hf).
  cbn [VC.push _path issues app] in Hp, Hi, Hf. rewrite app_nil_r in Hf.
  exists ext, new. rewrite <- app_assoc in Hp. auto.
Qed.

Lemma mapElements_left_open (create : value -> M value) :
  (forall v, balanced (create v)) -> (forall v, left_open [] (create v)) ->
  forall elems ix, left_open [] (mapElements create ix elems).
Proof.
  intros Hb Hc. induction elems as [|v rest IH]; intros ix; cbn [mapElements].
  - apply left_open_ret.
  - apply left_open_bind.
    + eapply scoped_balanced, mapElement_scoped, Hb.
    + eapply left_open_weaken, mapElement_left_open, Hc.
    + intros r. apply left_open_bind.
      * now apply mapElements_balanced.
      * apply IH.
      * intros rs. apply left_open_ret.
Qed.

Lemma handleRecursiveMappingWith_left_open (create : value -> M value) isArr data :
  (forall v, balanced (create v)) -> (forall v, left_open [] (create v)) ->
  left_open [] (handleRecursiveMappingWith create isArr data).
Proof.
  intros Hb Hc. unfold handleRecursiveMappingWith.
  destruct isArr; [|apply Hc].
  destruct (is_nullish data); cbn [negb]; [apply left_open_ret|].
  destruct data;
    try (apply left_open_nothing; intros ctx; eexists; reflexivity).
  apply left_open_bind.
  - now apply mapElements_balanced.
  - now apply mapElements_left_open.
  - intros rs. apply left_open_ret.
Qed.

(** A field that throws leaves its alias on the stack. *)
Lemma mapFound_left_open recurse mapping name val :
  (forall m h, mapping = Some m -> recurse m = Some h ->
               forall v, left_open [] (h v)) ->
  left_open [name] (mapFound recurse mapping name val).
Proof.
  intros Hrec ctx e ctx' H. unfold mapFound in H.
  unfold bind at 1 in H. cbn [modify] in H.
  destruct mapping as [m|].
  - unfold bind at 1 in H.
    set (val1 := match preValidationTransform m with
                 | Some f => f val
                 | None => val
                 end) in H.
    assert (Hv : exists vr c2,
               match validations m with
               | [] => ret None
               | _ :: _ => fun ctx0 => Returned (validateValue (validations m) val1 ctx0)
               end (VC.push name ctx) = Returned (vr, c2)
               /\ extends (_path ctx ++ [name]) (VC.push name ctx) c2).
    { destruct (validations m) as [|f fs].
      - exists None, (VC.push name ctx). split; [reflexivity|apply extends_refl].
      - destruct (validateValue (f :: fs) val1 (VC.push name ctx)) as [vr c2] eqn:Ev.
        exists vr, c2. split; [reflexivity|].
        pose proof (validateValue_extends (f :: fs) val1 (VC.push name ctx)) as X.
        rewrite Ev in X. exact X. }
    destruct Hv as (vr & c2 & Hval & [Hp2 (n2 & Hi2 & Hf2)]).
    rewrite Hval in H. cbn [VC.push _path issues] in Hp2, Hi2.
    unfold bind at 1 in H.
    destruct (negb (is_error vr)).
    + unfold bind at 1 in H.
      destruct (recurse m) as [h|] eqn:Eh.
      * destruct (h _ c2) as [[v c3]|[e3 c3]] eqn:E3; [discriminate|].
        injection H as -> ->.
        destruct (Hrec m h eq_refl Eh _ _ _ _ E3) as (ext & n3 & Hp3 & Hi3 & Hf3).
        cbn [app] in Hp3. rewrite app_nil_r in Hf3.
        exists ext, (n2 ++ n3). rewrite Hp3, Hi3, Hp2, Hi2.
        rewrite <- !app_assoc. repeat split; auto.
        apply Forall_app. split; [exact Hf2|]. now rewrite Hp2 in Hf3.
      * discriminate.
    + discriminate.
  - injection H as <- <-. exists [], []. cbn [VC.push _path issues].
    rewrite !app_nil_r. auto.
Qed.

Lemma tryAliases_left_open recurse mapping data :
  (forall m h, mapping = Some m -> recurse m = Some h ->
               forall v, left_open [] (h v)) ->
  forall names, left_open [] (tryAliases Number_key recurse mapping names data).
Proof.
  intros Hrec. induction names as [|n names IH]; cbn [tryAliases].
  - apply left_open_ret.
  - apply left_open_bind; [apply balanced_lift|apply left_open_lift|].
    intros [val|]; [|exact IH].
    eapply left_open_weaken, mapFound_left_open, Hrec.
Qed.

Lemma unmappedParam_left_open mapping index params :
  left_open [] (unmappedParam mapping index params).
Proof.
  apply left_open_nothing. intros ctx. unfold unmappedParam.
  destruct (opt_isRequired mapping); [eexists; reflexivity|].
  destruct (opt_defaultValue mapping); eexists; reflexivity.
Qed.

Lemma unmappedProp_left_open mapping key result :
  left_open [] (unmappedProp mapping key result).
Proof.
  apply left_open_nothing. intros ctx. unfold unmappedProp.
  destruct (isRequired mapping); [eexists; reflexivity|].
  destruct (opt_defaultValue (Some mapping)); eexists; reflexivity.
Qed.

Lemma paramPass_left_open recurse data :
  forall paramMappings,
    (forall m h, In (Some m) paramMappings -> recurse m = Some h ->
                 forall v, balanced (h v) /\ left_open [] (h v)) ->
    forall index params,
      left_open [] (paramPass Number_key recurse paramMappings index data params).
Proof.
  induction paramMappings as [|mapping rest IH]; intros Hrec index params;
    cbn [paramPass].
  - apply left_open_ret.
  - apply left_open_bind.
    + apply tryAliases_balanced. intros m h -> Hh v.
      apply (Hrec m h); [now left|exact Hh].
    + apply tryAliases_left_open. intros m h -> Hh v.
      apply (Hrec m h); [now left|exact Hh].
    + intros r. apply left_open_bind.
      * destruct r; [apply balanced_ret|apply unmappedParam_balanced].
      * destruct r; [apply left_open_ret|apply unmappedParam_left_open].
      * intros ps. apply IH. intros m h Hin. apply Hrec. now right.
Qed.

Lemma propPass_left_open recurse data :
  forall propMappings,
    (forall key m h, In (key, m) propMappings -> recurse m = Some h ->
                     forall v, balanced (h v) /\ left_open [] (h v)) ->
    forall result,
      left_open [] (propPass Number_key recurse propMappings data result).
Proof.
  induction propMappings as [|[key mapping] rest IH]; intros Hrec result;
    cbn [propPass].
  - apply left_open_ret.
  - apply left_open_bind.
    + apply tryAliases_balanced. intros m h [= <-] Hh v.
      apply (Hrec key mapping h); [now left|exact Hh].
    + apply tryAliases_left_open. intros m h [= <-] Hh v.
      apply (Hrec key mapping h); [now left|exact Hh].
    + intros r. apply left_open_bind.
      * destruct r; [apply balanced_ret|apply unmappedProp_balanced].
      * destruct r; [apply left_open_ret|apply unmappedProp_left_open].
      * intros res. apply IH. intros k m h Hin. eapply Hrec. right. exact Hin.
Qed.

Lemma runHook_left_open {A} (hook : option (Hook A)) arg result :
  left_open [] (runHook hook arg result).
Proof.
  apply left_open_nothing. intros ctx. unfold runHook.
  destruct hook as [h|]; [|eexists; reflexivity].
  destruct (h arg result). eexists. reflexivity.
Qed.

Lemma internalCreateInstance_left_open_upto n :
  forall ctor, depth ctor <= n ->
               forall data, left_open [] (internalCreateInstance Number_key ctor data).
Proof.
  induction n as [|n IH]; intros ctor Hd data.
  - destruct ctor; cbn in Hd; lia.
  - rewrite internalCreateInstance_eq.
    destruct (is_nullish data); [apply left_open_ret|].
    assert (Hrec : forall m h,
               (forall nested, mappedAs m = Some nested -> depth nested <= n) ->
               recurseInto Number_key m = Some h ->
               forall v, balanced (h v) /\ left_open [] (h v)).
    { intros m h Hn Hh v. split.
      - apply (recurseInto_balanced Number_key m h); [|exact Hh].
        intros nested _ d. apply internalCreateInstance_balanced.
      - unfold recurseInto in Hh.
        destruct (mappedAs m) as [nested|]; [|discriminate]. injection Hh as <-.
        apply handleRecursiveMappingWith_left_open.
        + intros d. apply internalCreateInstance_balanced.
        + intros d. apply IH. now apply Hn. }
    assert (Hparams : forall l, _parameters ctor = Specified l ->
               forall m h, In (Some m) l -> recurseInto Number_key m = Some h ->
                           forall v, balanced (h v) /\ left_open [] (h v)).
    { intros l El m h Hin. apply Hrec. intros nested Hm.
      pose proof (depth_parameter ctor l m nested El Hin Hm). lia. }
    assert (Hprops : forall l, _properties ctor = Specified l ->
               forall key m h, In (key, m) l -> recurseInto Number_key m = Some h ->
                               forall v, balanced (h v) /\ left_open [] (h v)).
    { intros l El key m h Hin. apply Hrec. intros nested Hm.
      pose proof (depth_property ctor l key m nested El Hin Hm). lia. }
    apply left_open_bind.
    { destruct (_parameters ctor) as [|l|z] eqn:El; try apply balanced_ret.
      apply paramPass_balanced. intros m h Hin Hh v.
      apply (Hparams l eq_refl m h Hin Hh). }
    { destruct (_parameters ctor) as [|l|z] eqn:El; try apply left_open_ret.
      apply paramPass_left_open. exact (Hparams l eq_refl). }
    intros params. apply left_open_bind.
    { destruct (_properties ctor) as [|l|z] eqn:El; try apply balanced_ret.
      apply propPass_balanced. intros key m h Hin Hh v.
      apply (Hprops l eq_refl key m h Hin Hh). }
    { destruct (_properties ctor) as [|l|z] eqn:El; try apply left_open_ret.
      apply propPass_left_open. exact (Hprops l eq_refl). }
    intros result. apply left_open_bind;
      [apply runHook_balanced|apply runHook_left_open|].
    intros result1. apply left_open_bind;
      [apply runHook_balanced|apply runHook_left_open|].
    intros result2. apply left_open_ret.
Qed.

Lemma internalCreateInstance_left_open ctor data :
  left_open [] (internalCreateInstance Number_key ctor data).
Proof. apply (internalCreateInstance_left_open_upto (depth ctor)). lia. Qed.

Lemma handleRecursiveMapping_left_open ctor isArr data :
  left_open [] (handleRecursiveMapping Number_key ctor isArr data).
Proof.
  apply handleRecursiveMappingWith_left_open; intros v.
  - apply internalCreateInstance_balanced.
  - apply internalCreateInstance_left_open.
Qed.

Lemma recurseInto_left_open m h :
  recurseInto Number_key m = Some h -> forall v, left_open [] (h v).
Proof.
  unfold recurseInto. intros Hh v. destruct (mappedAs m) as [nested|]; [|discriminate].
  injection Hh as <-. apply handleRecursiveMapping_left_open.
Qed.

End Unwinding.

(** ** Alias resolution *)

Section Resolution.

Variable Number_key : string -> option string.

Lemma tryAliases_firstFound recurse mapping data ctx :
  forall names,
    tryAliases Number_key recurse mapping names data ctx
    = match firstFound Number_key names data with
      | Thrown e => Thrown (e, ctx)
      | Returned None => Returned (None, ctx)
      | Returned (Some (name, val)) => mapFound recurse mapping name val ctx
      end.
Proof.
  induction names as [|name rest IH]; [reflexivity|].
  cbn [tryAliases firstFound]. unfold bind at 1, lift.
  destruct (getProperty Number_key name data) as [[val|]|e]; auto.
Qed.

(** [firstFound] finds nothing exactly when no alias resolves, and what it
    finds is the earliest alias that resolves. *)
Lemma firstFound_None names data :
  firstFound Number_key names data = Returned None <->
  forall name, In name names -> getProperty Number_key name data = Returned None.
Proof.
  induction names as [|n rest IH]; cbn [firstFound].
  - split; [intros _ ? []|reflexivity].
  - destruct (getProperty Number_key n data) as [[val|]|e] eqn:E.
    + split; [discriminate|]. intros H. specialize (H n (or_introl eq_refl)).
      congruence.
    + rewrite IH. split.
      * intros H name [<-|Hin]; auto.
      * intros H name Hin. apply H. now right.
    + split; [discriminate|]. intros H. specialize (H n (or_introl eq_refl)).
      congruence.
Qed.

Lemma firstFound_Some names data name val :
  firstFound Number_key names data = Returned (Some (name, val)) <->
  exists before after,
    names = before ++ name :: after
    /\ (forall n, In n before -> getProperty Number_key n data = Returned None)
    /\ getProperty Number_key name data = Returned (Some val).
Proof.
  revert name val. induction names as [|n rest IH]; intros name val; cbn [firstFound].
  - split; [discriminate|]. intros ([|? ?] & after & H & _); discriminate.
  - destruct (getProperty Number_key n data) as [[v|]|e] eqn:E.
    + split.
      * intros [= <- <-]. exists [], rest. repeat split; auto. intros ? [].
      * intros ([|b before] & after & Hn & Hb & Hf).
        -- injection Hn as <- <-. congruence.
        -- injection Hn as <- ->. specialize (Hb n (or_introl eq_refl)). congruence.
    + rewrite IH. split.
      * intros (before & after & -> & Hb & Hf). exists (n :: before), after.
        repeat split; auto. intros x [<-|Hin]; auto.
      * intros ([|b before] & after & Hn & Hb & Hf).
        -- injection Hn as <- <-. congruence.
        -- injection Hn as <- ->. exists before, after. repeat split; auto.
           intros x Hin. apply Hb. now right.
    + split; [discriminate|].
      intros ([|b before] & after & Hn & Hb & Hf).
      * injection Hn as <- <-. congruence.
      * injection Hn as <- ->. specialize (Hb n (or_introl eq_refl)). congruence.
Qed.

Lemma rejects_reports m val :
  rejects m val = is_error (max_level (map call_level (fieldReports m val))).
Proof. unfold rejects. now rewrite validateValue_reports. Qed.

Lemma rejects_any_context m val ctx :
  is_error (fst (validateValue (validations m) (preValidated m val) ctx)) = rejects m val.
Proof. unfold rejects. now rewrite !validateValue_reports. Qed.

Lemma afterValidation_reports m name val ctx :
  afterValidation m name val ctx
  = VC.pop (plain_of (perform_all (fieldReports m val) (Plain (VC.push name ctx)))).
Proof. unfold afterValidation. now rewrite validateValue_reports. Qed.

Lemma afterValidation_issues m name val ctx :
  _path (afterValidation m name val ctx) = _path ctx /\
  issues (afterValidation m name val ctx)
  = issues ctx ++ map (issue_at (pathString (VC.push name ctx))) (fieldReports m val).
Proof.
  rewrite afterValidation_reports.
  destruct (plain_of_perform_all (fieldReports m val) (Plain (VC.push name ctx)))
    as [Hp Hi]. cbn [plain_of] in Hp, Hi. cbn [VC.pop _path issues].
  rewrite Hp, Hi. split; [|reflexivity]. cbn. apply removelast_last.
Qed.

(** What [mapFound] does, by the outcome of the validations. *)
Lemma mapFound_eq recurse m name val ctx :
  mapFound recurse (Some m) name val ctx
  = if rejects m val then Returned (None, afterValidation m name val ctx)
    else
      match match recurse m with
            | Some handle => handle (transformed m (preValidated m val))
            | None => ret (transformed m (preValidated m val))
            end (plain_of (perform_all (fieldReports m val) (Plain (VC.push name ctx))))
      with
      | Returned (v, ctx1) => Returned (Some v, VC.pop ctx1)
      | Thrown e => Thrown e
      end.
Proof.
  rewrite rejects_reports, afterValidation_reports.
  unfold mapFound, fieldReports.
  fold (preValidated m val). fold (transformed m (preValidated m val)).
  unfold bind at 1. cbn [modify].
  assert (Hv : match validations m with
               | [] => ret None
               | _ :: _ => fun ctx0 =>
                   Returned (validateValue (validations m) (preValidated m val) ctx0)
               end (VC.push name ctx)
               = Returned (validateValue (validations m) (preValidated m val)
                                         (VC.push name ctx))).
  { destruct (validations m); reflexivity. }
  unfold bind at 1. rewrite Hv, validateValue_reports.
  destruct (is_error _); cbn [negb].
  - reflexivity.
  - unfold bind, ret, modify.
    destruct (recurse m) as [h|].
    + destruct (h _ _) as [[v c]|e]; reflexivity.
    + reflexivity.
Qed.

End Resolution.

(** ** Unmapped fields: required errors and defaults *)

Section Unmapped.

Variable Number_key : string -> option string.
Variable recurse : MappingMetadata -> option (value -> M value).

Lemma unmappedProp_eq m key result ctx :
  unmappedProp m key result ctx
  = Returned (if isRequired m then result else propDefaulted m key result,
              if isRequired m
              then {| issues := issues ctx ++ [requiredProp key ctx];
                      _path := _path ctx |}
              else ctx).
Proof.
  unfold unmappedProp, propDefaulted. destruct (isRequired m).
  - reflexivity.
  - destruct (opt_defaultValue (Some m)); reflexivity.
Qed.

Lemma unmappedParam_eq m index params ctx :
  unmappedParam (Some m) index params ctx
  = Returned (if isRequired m then params else paramDefaulted m index params,
              if isRequired m
              then {| issues := issues ctx ++ [requiredParam (paramNames index m) ctx];
                      _path := _path ctx |}
              else ctx).
Proof.
  unfold unmappedParam, paramDefaulted. cbn [opt_isRequired]. destruct (isRequired m).
  - reflexivity.
  - destruct (opt_defaultValue (Some m)); reflexivity.
Qed.

(** The pass over a single property mapping. *)
Lemma propPass_single key m data result ctx :
  propPass Number_key recurse [(key, m)] data result ctx
  = match firstFound Number_key (propNames key m) data with
    | Thrown e => Thrown (e, ctx)
    | Returned None => unmappedProp m key result ctx
    | Returned (Some (name, val)) =>
        match mapFound recurse (Some m) name val ctx with
        | Thrown e => Thrown e
        | Returned (None, ctx1) => unmappedProp m key result ctx1
        | Returned (Some v, ctx1) => Returned (set_field key v result, ctx1)
        end
    end.
Proof.
  cbn [propPass]. unfold bind at 1. rewrite tryAliases_firstFound.
  fold (propNames key m).
  assert (Hu : forall c,
             bind (unmappedProp m key result) (fun r => propPass Number_key recurse [] data r) c
             = unmappedProp m key result c).
  { intros c. unfold bind. rewrite unmappedProp_eq. reflexivity. }
  destruct (firstFound Number_key (propNames key m) data) as [[[name val]|]|e];
    [|apply Hu|reflexivity].
  destruct (mapFound recurse (Some m) name val ctx) as [[[v|] c]|e];
    [reflexivity|apply Hu|reflexivity].
Qed.

(** The pass over a single parameter mapping, at position [index]. *)
Lemma paramPass_single m index data params ctx :
  paramPass Number_key recurse [Some m] index data params ctx
  = match firstFound Number_key (paramNames index m) data with
    | Thrown e => Thrown (e, ctx)
    | Returned None => unmappedParam (Some m) index params ctx
    | Returned (Some (name, val)) =>
        match mapFound recurse (Some m) name val ctx with
        | Thrown e => Thrown e
        | Returned (None, ctx1) => unmappedParam (Some m) index params ctx1
        | Returned (Some v, ctx1) => Returned (array_set params index v, ctx1)
        end
    end.
Proof.
  cbn [paramPass]. unfold bind at 1. rewrite tryAliases_firstFound.
  cbn [option_map]. fold (paramNames index m).
  assert (Hu : forall c,
             bind (unmappedParam (Some m) index params)
                  (fun ps => paramPass Number_key recurse [] (S index) data ps) c
             = unmappedParam (Some m) index params c).
  { intros c. unfold bind. rewrite unmappedParam_eq. reflexivity. }
  destruct (firstFound Number_key (paramNames index m) data) as [[[name val]|]|e];
    [|apply Hu|reflexivity].
  destruct (mapFound recurse (Some m) name val ctx) as [[[v|] c]|e];
    [reflexivity|apply Hu|reflexivity].
Qed.

(** [mapFound] leaves a field unmapped exactly when its validations
    reject the value. *)
Lemma mapFound_unmapped m name val ctx ctx1 :
  mapFound recurse (Some m) name val ctx = Returned (None, ctx1) <->
  rejects m val = true /\ ctx1 = afterValidation m name val ctx.
Proof.
  rewrite mapFound_eq. destruct (rejects m val).
  - split; [intros [= <-]; auto|intros [_ ->]; reflexivity].
  - split; [|intros [? _]; discriminate].
    match goal with
    | |- match ?x with _ => _ end = _ -> _ => destruct x as [[v c]|e]
    end; discriminate.
Qed.

Lemma mapFound_mapped m name val ctx v ctx1 :
  mapFound recurse (Some m) name val ctx = Returned (Some v, ctx1) ->
  rejects m val = false
  /\ (recurse m = None -> v = transformed m (preValidated m val)).
Proof.
  rewrite mapFound_eq. destruct (rejects m val); [discriminate|].
  intros H. split; [reflexivity|]. intros Hr. rewrite Hr in H.
  unfold ret in H. now injection H as <- _.
Qed.

End Unmapped.

(** ** Defaults (C3) *)

(** C3, as stated, fails: a property whose alias resolved to a value that
    its validation rejected does receive the default. *)
Lemma default_applied_after_validation_error :
  let data := VObject [("foo", VNumber 42)] in
  getProperty names_only (SegName "foo") data = Returned (Some (VNumber 42))
  /\ rejects Examples.defaultedFoo (VNumber 42) = true
  /\ outcome (convert names_only Examples.DefaultedExample data (Some Examples.accept))
     = Returned (VObject [("foo", VString "dflt")])
  /\ ~ (forall key m data result ctx result' ctx' name val,
          firstFound names_only (propNames key m) data = Returned (Some (name, val)) ->
          rejects m val = true ->
          propPass names_only (recurseInto names_only) [(key, m)] data result ctx
          = Returned (result', ctx') ->
          result' = result).
Proof.
  repeat split.
  intros H.
  specialize (H "foo" Examples.defaultedFoo (VObject [("foo", VNumber 42)])
                [("foo", VString "init")] empty_context _ _ _ _
                eq_refl eq_refl eq_refl).
  discriminate H.
Qed.

(** C3, amended.  A mapping that is not required receives its default
    exactly when it was left unmapped and the default is truthy: when no
    alias resolved, or when the first alias that resolved carried a value
    its validations rejected with an error (transform and recursion are
    then skipped).  A resolved value that passes validation, null included,
    is stored and the default is not consulted. *)
Theorem default_applies_when_unmapped :
  forall (Number_key : string -> option string)
         (recurse : MappingMetadata -> option (value -> M value))
         (m : MappingMetadata) (data : value) (ctx : ValidationContext),
    isRequired m = false ->
    (forall key result result' ctx',
        propPass Number_key recurse [(key, m)] data result ctx = Returned (result', ctx') ->
        match firstFound Number_key (propNames key m) data with
        | Returned (Some (name, val)) =>
            if rejects m val then result' = propDefaulted m key result
            else exists v, result' = set_field key v result
                           /\ (recurse m = None -> v = transformed m (preValidated m val))
        | _ => result' = propDefaulted m key result
        end)
    /\ (forall index params params' ctx',
          paramPass Number_key recurse [Some m] index data params ctx
          = Returned (params', ctx') ->
          match firstFound Number_key (paramNames index m) data with
          | Returned (Some (name, val)) =>
              if rejects m val then params' = paramDefaulted m index params
              else exists v, params' = array_set params index v
                             /\ (recurse m = None -> v = transformed m (preValidated m val))
          | _ => params' = paramDefaulted m index params
          end).
Proof.
  intros Number_key recurse m data ctx Hreq. split.
  - intros key result result' ctx'. rewrite propPass_single.
    destruct (firstFound Number_key (propNames key m) data) as [[[name val]|]|e].
    + destruct (mapFound recurse (Some m) name val ctx) as [[[v|] c]|e] eqn:E;
        [| |discriminate].
      * apply mapFound_mapped in E as [-> Hv]. intros [= <- <-]. eauto.
      * apply mapFound_unmapped in E as [-> ->].
        rewrite unmappedProp_eq, Hreq. now intros [= <- _].
    + rewrite unmappedProp_eq, Hreq. now intros [= <- _].
    + discriminate.
  - intros index params params' ctx'. rewrite paramPass_single.
    destruct (firstFound Number_key (paramNames index m) data) as [[[name val]|]|e].
    + destruct (mapFound recurse (Some m) name val ctx) as [[[v|] c]|e] eqn:E;
        [| |discriminate].
      * apply mapFound_mapped in E as [-> Hv]. intros [= <- <-]. eauto.
      * apply mapFound_unmapped in E as [-> ->].
        rewrite unmappedParam_eq, Hreq. now intros [= <- _].
    + rewrite unmappedParam_eq, Hreq. now intros [= <- _].
    + discriminate.
Qed.

Lemma default_applies_when_unmapped_witness :
  isRequired Examples.defaultedFoo = false
  /\ propPass names_only (recurseInto names_only) [("foo", Examples.defaultedFoo)]
              (VObject [("foo", VNumber 42)]) [("foo", VString "init")] empty_context
     = Returned ([("foo", VString "dflt")],
                 {| issues := [{| path := "foo"; level := IssueLevel.error;
                                  message := "Expected type string, but found: number" |}];
                    _path := [] |})
  /\ [("foo", VString "dflt")]
     = propDefaulted Examples.defaultedFoo "foo" [("foo", VString "init")].
Proof.
  split; [reflexivity|]. split; [reflexivity|].
  exact (proj1 (default_applies_when_unmapped names_only (recurseInto names_only)
                  Examples.defaultedFoo (VObject [("foo", VNumber 42)])
                  empty_context eq_refl)
               "foo" [("foo", VString "init")] _ _ eq_refl).
Defined.

(** ** Required errors (C4) *)

(** C4, as stated, fails: a required property whose alias resolved to a
    value that its validation rejected gets the "not found" error as well. *)
Lemma required_error_after_validation_error :
  let data := VObject [("foo", VNumber 42)] in
  getProperty names_only (SegName "foo") data = Returned (Some (VNumber 42))
  /\ invocations (convert names_only Examples.RequiredExample data (Some Examples.accept))
     = [(VObject [("foo", VString "init")],
         {| issues :=
              [{| path := "foo"; level := IssueLevel.error;
                  message := "Expected type string, but found: number" |};
               {| path := ""; level := IssueLevel.error;
                  message := "Required property or field not found: foo" |}];
            _path := [] |})]
  /\ ~ (forall key m data result ctx result' ctx' name val,
          firstFound names_only (propNames key m) data = Returned (Some (name, val)) ->
          propPass names_only (recurseInto names_only) [(key, m)] data result ctx
          = Returned (result', ctx') ->
          ~ In (requiredProp key ctx) (issues ctx')).
Proof.
  repeat split.
  intros H.
  apply (H "foo" Examples.requiredFoo (VObject [("foo", VNumber 42)])
           [("foo", VString "init")] empty_context _ _ _ _ eq_refl eq_refl).
  right. left. reflexivity.
Qed.

Lemma requiredProp_path key c1 c2 :
  _path c1 = _path c2 -> requiredProp key c1 = requiredProp key c2.
Proof. unfold requiredProp, pathString. now intros ->. Qed.

Lemma requiredParam_path names c1 c2 :
  _path c1 = _path c2 -> requiredParam names c1 = requiredParam names c2.
Proof. unfold requiredParam, pathString. now intros ->. Qed.

(** C4, amended.  The pass over one mapping records the error
    [Required property or field not found: <name>] (for a parameter,
    [Required parameter not found: <aliases-or-index>]) exactly once when the
    mapping is required and was left unmapped, and not otherwise; it is left
    unmapped when no alias resolved, or when the first alias that resolved
    carried a value its validations rejected with an error.  When the field
    is mapped, the context is the one the mapping of the value left. *)
Theorem required_error_when_unmapped :
  forall (Number_key : string -> option string)
         (recurse : MappingMetadata -> option (value -> M value))
         (m : MappingMetadata) (data : value) (ctx : ValidationContext),
    (forall key result result' ctx',
        propPass Number_key recurse [(key, m)] data result ctx = Returned (result', ctx') ->
        match firstFound Number_key (propNames key m) data with
        | Returned (Some (name, val)) =>
            if rejects m val then
              issues ctx'
              = issues (afterValidation m name val ctx)
                  ++ (if isRequired m then [requiredProp key ctx] else [])
            else exists v, mapFound recurse (Some m) name val ctx = Returned (Some v, ctx')
        | _ => issues ctx'
               = issues ctx ++ (if isRequired m then [requiredProp key ctx] else [])
        end)
    /\ (forall index params params' ctx',
          paramPass Number_key recurse [Some m] index data params ctx
          = Returned (params', ctx') ->
          match firstFound Number_key (paramNames index m) data with
          | Returned (Some (name, val)) =>
              if rejects m val then
                issues ctx'
                = issues (afterValidation m name val ctx)
                    ++ (if isRequired m
                        then [requiredParam (paramNames index m) ctx] else [])
              else exists v, mapFound recurse (Some m) name val ctx = Returned (Some v, ctx')
          | _ => issues ctx'
                 = issues ctx
                     ++ (if isRequired m
                         then [requiredParam (paramNames index m) ctx] else [])
          end).
Proof.
  intros Number_key recurse m data ctx. split.
  - intros key result result' ctx'. rewrite propPass_single.
    destruct (firstFound Number_key (propNames key m) data) as [[[name val]|]|e].
    + destruct (mapFound recurse (Some m) name val ctx) as [[[v|] c]|e] eqn:E;
        [| |discriminate].
      * pose proof (mapFound_mapped _ _ _ _ _ _ _ E) as [-> _].
        intros [= <- <-]. eauto.
      * apply mapFound_unmapped in E as [-> ->].
        destruct (afterValidation_issues m name val ctx) as [Hp Hi].
        rewrite unmappedProp_eq. intros [= _ <-].
        rewrite <- (requiredProp_path key _ _ Hp).
        destruct (isRequired m); [reflexivity|now rewrite app_nil_r].
    + rewrite unmappedProp_eq. intros [= _ <-].
      destruct (isRequired m); [reflexivity|now rewrite app_nil_r].
    + discriminate.
  - intros index params params' ctx'. rewrite paramPass_single.
    destruct (firstFound Number_key (paramNames index m) data) as [[[name val]|]|e].
    + destruct (mapFound recurse (Some m) name val ctx) as [[[v|] c]|e] eqn:E;
        [| |discriminate].
      * pose proof (mapFound_mapped _ _ _ _ _ _ _ E) as [-> _].
        intros [= <- <-]. eauto.
      * apply mapFound_unmapped in E as [-> ->].
        destruct (afterValidation_issues m name val ctx) as [Hp Hi].
        rewrite unmappedParam_eq. intros [= _ <-].
        rewrite <- (requiredParam_path (paramNames index m) _ _ Hp).
        destruct (isRequired m); [reflexivity|now rewrite app_nil_r].
    + rewrite unmappedParam_eq. intros [= _ <-].
      destruct (isRequired m); [reflexivity|now rewrite app_nil_r].
    + discriminate.
Qed.

Lemma required_error_when_unmapped_witness :
  propPass names_only (recurseInto names_only) [("foo", Examples.requiredFoo)]
           (VObject []) [("foo", VString "init")] empty_context
  = Returned ([("foo", VString "init")],
              {| issues := [{| path := ""; level := IssueLevel.error;
                               message := "Required property or field not found: foo" |}];
                 _path := [] |})
  /\ [{| path := ""; level := IssueLevel.error;
         message := "Required property or field not found: foo" |}]
     = [] ++ [requiredProp "foo" empty_context].
Proof.
  split; [reflexivity|].
  exact (proj1 (required_error_when_unmapped names_only (recurseInto names_only)
                  Examples.requiredFoo (VObject []) empty_context)
               "foo" [("foo", VString "init")] _ _ eq_refl).
Defined.

(** ** Nullable chains (C6) *)

(** C6, as stated, fails: a null found for a field validated with
    [nullable().isString()] is assigned to the field; the declared default
    ["def"] does not survive. *)
Lemma nullable_null_is_assigned :
  construct Examples.NullableExample [] = [("foo", VString "def")]
  /\ convert names_only Examples.NullableExample (VObject [("foo", VNull)])
             (Some Examples.accept)
     = {| invocations := [(VObject [("foo", VNull)], empty_context)];
          outcome := Returned (VObject [("foo", VNull)]) |}
  /\ outcome (convert names_only Examples.NullableExample (VObject [("foo", VNull)])
                      (Some Examples.accept))
     <> Returned (VObject (construct Examples.NullableExample [])).
Proof. repeat split. discriminate. Qed.

Lemma pop_push name ctx : VC.pop (VC.push name ctx) = ctx.
Proof.
  destruct ctx as [iss p]. unfold VC.pop, VC.push. cbn. now rewrite removelast_last.
Qed.

Lemma typeof_string v : (typeof v =? "string") = true -> exists s, v = VString s.
Proof. destruct v; try discriminate. eauto. Qed.

(** C6, amended.  A chain built with [ignoreNull], and every refinement of
    it, leaves the context untouched on null and undefined.  For a property
    validated with [nullable().isString()] and nothing else: a null or
    undefined value that was found produces no issue and is assigned to the
    property; a string is assigned; any other value produces exactly one
    error [Expected type string, but found: <actual type>] at the field's
    path and leaves the field unmapped. *)
Theorem ignoreNull_skips_and_null_is_assigned :
  forall (Number_key : string -> option string)
         (recurse : MappingMetadata -> option (value -> M value))
         (m : MappingMetadata) (key : string) (data : value) (result : object)
         (ctx : ValidationContext) (name : segment) (v : value),
    validations m = [validate (NullableValidator.isString nullable)] ->
    preValidationTransform m = None ->
    transform m = None ->
    recurse m = None ->
    firstFound Number_key (propNames key m) data = Returned (Some (name, v)) ->
    (forall fn C N w c,
        is_nullish w = true ->
        call (validate (makeValidatorChain fn true)) w c = c
        /\ (chain_ignoreNull C = true ->
            call (validate (refine C N)) w c = c
            /\ chain_ignoreNull (refine C N) = true))
    /\ propPass Number_key recurse [(key, m)] data result ctx
       = if is_nullish v || (typeof v =? "string")
         then Returned (set_field key v result, ctx)
         else unmappedProp m key result
                {| issues := issues ctx ++
                     [{| path := pathString (VC.push name ctx);
                         level := IssueLevel.error;
                         message := "Expected type string, but found: " ++ typeof v |}];
                   _path := _path ctx |}.
Proof.
  intros Number_key recurse m key data result ctx name v Hval Hpre Htr Hrec Hfound.
  split.
  - intros fn C N w c Hw. cbn. rewrite Hw. split; [reflexivity|].
    intros ->. split; reflexivity.
  - rewrite propPass_single, Hfound, mapFound_eq.
    rewrite rejects_reports, afterValidation_reports.
    unfold fieldReports, transformed, preValidated.
    rewrite Hval, Hpre, Htr, Hrec. cbn [flat_map validate NullableValidator.isString
      makeValidatorChain reports string_check negb orb app].
    destruct (is_nullish v) eqn:En; cbn [negb orb].
    + cbn. unfold ret. now rewrite pop_push.
    + destruct (typeof v =? "string") eqn:Et; cbn [negb].
      * cbn. unfold ret. now rewrite pop_push.
      * change (is_error (max_level (map call_level
                  ([CallError ("Expected type string, but found: " ++ typeof v)] ++ []))))
          with true.
        cbv iota. f_equal.
        unfold perform_all, VC.pop, VC.push, VC.error, VC.addIssue.
        cbn [app fold_left perform error plain_of VC.error VC.addIssue issues _path].
        now rewrite removelast_last.
Qed.

Lemma ignoreNull_skips_and_null_is_assigned_witness :
  validations Examples.nullableFoo = [validate (NullableValidator.isString nullable)]
  /\ firstFound names_only (propNames "foo" Examples.nullableFoo)
                (VObject [("foo", VNumber 42)])
     = Returned (Some (SegName "foo", VNumber 42))
  /\ propPass names_only (recurseInto names_only) [("foo", Examples.nullableFoo)]
       (VObject [("foo", VNumber 42)]) [("foo", VString "def")] empty_context
     = Returned ([("foo", VString "def")],
                 {| issues := [{| path := "foo"; level := IssueLevel.error;
                                  message := "Expected type string, but found: number" |}];
                    _path := [] |}).
Proof.
  split; [reflexivity|]. split; [reflexivity|].
  exact (proj2 (ignoreNull_skips_and_null_is_assigned names_only (recurseInto names_only)
                  Examples.nullableFoo
                  "foo" (VObject [("foo", VNumber 42)]) [("foo", VString "def")]
                  empty_context (SegName "foo") (VNumber 42)
                  eq_refl eq_refl eq_refl eq_refl eq_refl)).
Defined.

(** ** Array mode (C7) *)

(** C7, as stated, fails: null is not an array, yet array mode reports
    nothing for it. *)
Lemma array_mode_null_reports_nothing :
  handleRecursiveMapping names_only Examples.ItemExample true VNull empty_context
  = Returned (VUndefined, empty_context)
  /\ ~ (forall ctor data ctx,
          (forall elems, data <> VArray elems) ->
          exists ctx',
            handleRecursiveMapping names_only ctor true data ctx
            = Returned (VUndefined, ctx')
            /\ issues ctx' = issues ctx ++ [not_an_array ctx]).
Proof.
  split; [reflexivity|]. intros H.
  destruct (H Examples.ItemExample VNull empty_context) as (ctx' & Hr & Hi).
  - discriminate.
  - injection Hr as <-. discriminate Hi.
Qed.

Section ArrayMode.

Variable Number_key : string -> option string.

Lemma mapElement_Returned (create : value -> M value) v ix ctx r ctx' :
  mapElement create v ix ctx = Returned (r, ctx') <->
  exists c, create v (VC.push (SegIndex ix) ctx) = Returned (r, c) /\ ctx' = VC.pop c.
Proof.
  unfold mapElement, bind, modify, ret.
  destruct (create v (VC.push (SegIndex ix) ctx)) as [[r0 c]|e].
  - split.
    + intros [= <- <-]. eauto.
    + intros (c0 & [= <- <-] & ->). reflexivity.
  - split; [discriminate|]. intros (c0 & H & _). discriminate.
Qed.

(** Each element is built with its own index on top of the stack, and the
    results keep the order of the elements. *)
Lemma mapElements_elementwise (create : value -> M value) :
  (forall v, balanced (create v)) ->
  forall elems ix ctx rs ctx',
    mapElements create ix elems ctx = Returned (rs, ctx') ->
    List.length rs = List.length elems /\
    forall i v, nth_error elems i = Some v ->
      exists r c c',
        nth_error rs i = Some r
        /\ _path c = _path ctx ++ [SegIndex (ix + i)]
        /\ create v c = Returned (r, c').
Proof.
  intros Hc. induction elems as [|v0 rest IH]; intros ix ctx rs ctx' H.
  - cbn in H. apply ret_Returned in H as [<- _]. split; [reflexivity|].
    intros [|i] v; discriminate.
  - cbn [mapElements] in H.
    apply bind_Returned in H as (r0 & c1 & Hel & H).
    apply bind_Returned in H as (rs0 & c2 & Hrest & H).
    apply ret_Returned in H as [<- <-].
    pose proof (mapElement_scoped create v0 ix Hc _ _ _ Hel) as [Hp1 _].
    apply mapElement_Returned in Hel as (c & Hcr & ->).
    destruct (IH _ _ _ _ Hrest) as [Hlen Hnth]. split; [cbn; now rewrite Hlen|].
    intros [|i] v Hv.
    + injection Hv as <-. exists r0, (VC.push (SegIndex ix) ctx), c.
      repeat split; auto. cbn. now rewrite Nat.add_0_r.
    + destruct (Hnth i v Hv) as (r & d & d' & Hr & Hd & Hcd).
      exists r, d, d'. repeat split; auto.
      rewrite Hd, Hp1. now rewrite Nat.add_succ_r.
Qed.

End ArrayMode.

(** C7, amended.  In array mode a null or undefined value yields
    [undefined] without any diagnostic; every other value that is not an
    array yields [undefined] and exactly one error [Expected an array but
    found a non array type for property <path stack joined with dots>]; an
    array is mapped element by element through [internalCreateInstance],
    element [i] being built while the stack holds the index [i] on top of
    the caller's segments, and when all elements are built the result is the
    array of their results, in order, with the stack as it was. *)
Theorem array_mode_requires_array :
  forall (Number_key : string -> option string) (ctor : DecoratedType)
         (data : value) (ctx : ValidationContext),
    handleRecursiveMapping Number_key ctor true data ctx
    = match data with
      | VUndefined | VNull => Returned (VUndefined, ctx)
      | VArray elems =>
          match mapElements (internalCreateInstance Number_key ctor) 0 elems ctx with
          | Returned (rs, ctx') => Returned (VArray rs, ctx')
          | Thrown e => Thrown e
          end
      | _ => Returned (VUndefined,
                       {| issues := issues ctx ++ [not_an_array ctx];
                          _path := _path ctx |})
      end
    /\ forall elems rs ctx',
         mapElements (internalCreateInstance Number_key ctor) 0 elems ctx
         = Returned (rs, ctx') ->
         List.length rs = List.length elems
         /\ _path ctx' = _path ctx
         /\ forall i v, nth_error elems i = Some v ->
              exists r c c',
                nth_error rs i = Some r
                /\ _path c = _path ctx ++ [SegIndex i]
                /\ internalCreateInstance Number_key ctor v c = Returned (r, c').
Proof.
  intros Number_key ctor data ctx. split.
  - unfold handleRecursiveMapping, handleRecursiveMappingWith.
    destruct data; reflexivity.
  - intros elems rs ctx' H.
    pose proof (mapElements_elementwise (internalCreateInstance Number_key ctor)
                  (internalCreateInstance_balanced Number_key ctor) _ _ _ _ _ H)
      as [Hlen Hnth].
    pose proof (mapElements_balanced (internalCreateInstance Number_key ctor)
                  (internalCreateInstance_balanced Number_key ctor) _ _ _ _ _ H)
      as [Hp _].
    repeat split; auto.
Qed.

Lemma array_mode_requires_array_witness :
  handleRecursiveMapping names_only Examples.ItemExample true (VNumber 3)
                         (at_path [SegName "items"])
  = Returned (VUndefined,
              {| issues := [{| path := "items"; level := IssueLevel.error;
                               message := "Expected an array but found a non array type for property items" |}];
                 _path := [SegName "items"] |}).
Proof.
  exact (proj1 (array_mode_requires_array names_only Examples.ItemExample (VNumber 3)
                  (at_path [SegName "items"]))).
Defined.

(** ** Path stack balance (C9) *)

(** C9, as stated, fails: the segments are popped only on the paths that
    reach [path.pop()], and a throw does not.  With a number as an element
    of a nested array, probing the element throws a [TypeError] while the
    stack holds [items] and [0]; the building of the instance and the
    processing of the field [items] and of the element [0] all end on a
    stack that is not the one they started with. *)
Lemma path_stack_not_restored_on_throw :
  let data := VObject [("items", VArray [VNumber 1])] in
  let e := TypeError "Cannot use 'in' operator to search for a key in a primitive" in
  internalCreateInstance names_only Examples.ListExample data empty_context
  = Thrown (e, at_path [SegName "items"; SegIndex 0])
  /\ mapElement (internalCreateInstance names_only Examples.ItemExample) (VNumber 1) 0
       (at_path [SegName "items"])
     = Thrown (e, at_path [SegName "items"; SegIndex 0])
  /\ ~ (forall Number_key ctor data ctx,
          _path (final_context (internalCreateInstance Number_key ctor data ctx))
          = _path ctx)
  /\ ~ (forall Number_key ctor data ix ctx,
          _path (final_context
                   (mapElement (internalCreateInstance Number_key ctor) data ix ctx))
          = _path ctx).
Proof.
  cbn zeta. repeat split.
  - intros H.
    specialize (H names_only Examples.ListExample
                  (VObject [("items", VArray [VNumber 1])]) empty_context).
    vm_compute in H. discriminate.
  - intros H.
    specialize (H names_only Examples.ItemExample (VNumber 1) 0
                  (at_path [SegName "items"])).
    vm_compute in H. discriminate.
Qed.

(** C9, amended.  Whenever building an instance, mapping a nested value,
    processing a found field or processing an array element returns, also
    by one of the early exits, the path stack holds the segments it held
    before.  When one of them throws, the stack is not restored: it holds
    the segments it held before followed by further segments, which for a
    field start with the field's own alias and for an array element with
    the element's own index.  Either way, every issue recorded on the way
    has a path rendered from the stack at entry followed by further
    segments; for a field these start with the field's own alias, for an
    array element with the element's own index, so no issue carries a
    segment pushed for a sibling. *)
Theorem path_stack_balanced_unless_thrown :
  forall (Number_key : string -> option string) (ctor : DecoratedType)
         (data : value) (ctx : ValidationContext),
    ((forall r ctx',
         internalCreateInstance Number_key ctor data ctx = Returned (r, ctx') ->
         extends (_path ctx) ctx ctx')
     /\ (forall isArr r ctx',
           handleRecursiveMapping Number_key ctor isArr data ctx = Returned (r, ctx') ->
           extends (_path ctx) ctx ctx')
     /\ (forall mapping name r ctx',
           mapFound (recurseInto Number_key) mapping name data ctx = Returned (r, ctx') ->
           _path ctx' = _path ctx
           /\ exists new, issues ctx' = issues ctx ++ new
                          /\ Forall (under (_path ctx ++ [name])) new)
     /\ (forall ix r ctx',
           mapElement (internalCreateInstance Number_key ctor) data ix ctx
           = Returned (r, ctx') ->
           _path ctx' = _path ctx
           /\ exists new, issues ctx' = issues ctx ++ new
                          /\ Forall (under (_path ctx ++ [SegIndex ix])) new))
    /\ ((forall e ctx',
           internalCreateInstance Number_key ctor data ctx = Thrown (e, ctx') ->
           exists ext new,
             _path ctx' = _path ctx ++ ext
             /\ issues ctx' = issues ctx ++ new
             /\ Forall (under (_path ctx)) new)
        /\ (forall isArr e ctx',
              handleRecursiveMapping Number_key ctor isArr data ctx = Thrown (e, ctx') ->
              exists ext new,
                _path ctx' = _path ctx ++ ext
                /\ issues ctx' = issues ctx ++ new
                /\ Forall (under (_path ctx)) new)
        /\ (forall mapping name e ctx',
              mapFound (recurseInto Number_key) mapping name data ctx = Thrown (e, ctx') ->
              exists ext new,
                _path ctx' = _path ctx ++ name :: ext
                /\ issues ctx' = issues ctx ++ new
                /\ Forall (under (_path ctx ++ [name])) new)
        /\ (forall ix e ctx',
              mapElement (internalCreateInstance Number_key ctor) data ix ctx
              = Thrown (e, ctx') ->
              exists ext new,
                _path ctx' = _path ctx ++ SegIndex ix :: ext
                /\ issues ctx' = issues ctx ++ new
                /\ Forall (under (_path ctx ++ [SegIndex ix])) new)).
Proof.
  intros Number_key ctor data ctx. split; repeat apply conj.
  - intros r ctx'. apply internalCreateInstance_balanced.
  - intros isArr r ctx'. apply handleRecursiveMapping_balanced.
  - intros mapping name r ctx'. apply mapFound_scoped.
    intros m h _ Hh. apply (recurseInto_balanced Number_key m h); [|exact Hh].
    intros nested _ d. apply internalCreateInstance_balanced.
  - intros ix r ctx'. apply mapElement_scoped.
    apply internalCreateInstance_balanced.
  - intros e ctx' H.
    destruct (internalCreateInstance_left_open Number_key ctor data _ _ _ H)
      as (ext & new & Hp & Hi & Hf).
    exists ext, new. rewrite app_nil_r in Hf. auto.
  - intros isArr e ctx' H.
    destruct (handleRecursiveMapping_left_open Number_key ctor isArr data _ _ _ H)
      as (ext & new & Hp & Hi & Hf).
    exists ext, new. rewrite app_nil_r in Hf. auto.
  - intros mapping name e ctx' H.
    assert (L : left_open [name] (mapFound (recurseInto Number_key) mapping name data)).
    { apply mapFound_left_open. intros m h _ Hh.
      now apply (recurseInto_left_open Number_key m h). }
    exact (L _ _ _ H).
  - intros ix e ctx' H.
    assert (L : left_open [SegIndex ix]
                  (mapElement (internalCreateInstance Number_key ctor) data ix)).
    { apply mapElement_left_open. apply internalCreateInstance_left_open. }
    exact (L _ _ _ H).
Qed.

(** An element that fails its required check: the issue is recorded under
    [items[0]] and the stack is back to [items] afterwards.  An element that
    is a number: the element throws and the stack is left at [items, 0]. *)
Lemma path_stack_balanced_unless_thrown_witness :
  mapElement (internalCreateInstance names_only Examples.RequiredExample)
             (VObject []) 0 (at_path [SegName "items"])
  = Returned (VObject [("foo", VString "init")],
              {| issues := [{| path := "items[0]"; level := IssueLevel.error;
                               message := "Required property or field not found: foo" |}];
                 _path := [SegName "items"] |})
  /\ [SegName "items"] = _path (at_path [SegName "items"])
  /\ mapElement (internalCreateInstance names_only Examples.ItemExample)
                (VNumber 1) 0 (at_path [SegName "items"])
     = Thrown (TypeError "Cannot use 'in' operator to search for a key in a primitive",
               at_path [SegName "items"; SegIndex 0])
  /\ exists ext new,
       [SegName "items"; SegIndex 0]
       = _path (at_path [SegName "items"]) ++ SegIndex 0 :: ext
       /\ @nil ValidationIssue = issues (at_path [SegName "items"]) ++ new
       /\ Forall (under (_path (at_path [SegName "items"]) ++ [SegIndex 0])) new.
Proof.
  split; [reflexivity|]. split.
  - exact (proj1 (proj2 (proj2 (proj2 (proj1
             (path_stack_balanced_unless_thrown names_only Examples.RequiredExample
                (VObject []) (at_path [SegName "items"])))))
             0 _ _ eq_refl)).
  - split; [reflexivity|].
    exact (proj2 (proj2 (proj2 (proj2
             (path_stack_balanced_unless_thrown names_only Examples.ItemExample
                (VNumber 1) (at_path [SegName "items"])))))
             0 _ _ eq_refl).
Defined.

(** ** The metadata check (C10) *)

(** C10.  A constructor whose [_parameters] member is a number passes the
    metadata check: the check reads the member [_parmeters], which the
    constructor does not have.  The conversion goes on to construct the
    instance and no structural error is raised.  The same number stored in
    [_properties] is rejected. *)
Theorem malformed_parameters_accepted :
  isDecoratedType Examples.MalformedExample = true
  /\ convert names_only Examples.MalformedExample (VObject []) None
     = {| invocations := [];
          outcome := Returned (VObject [("foo", VString "init")]) |}
  /\ outcome (convert names_only
                (Examples.classOf (fun _ => []) Unspecified (Malformed 5))
                (VObject []) None)
     = Thrown (StructuralError
         "The specified type contains invalid metadata for a type-mapper decorated type.").
Proof. repeat split. Qed.

(** ** Completion of [convert] (C1) *)

(** C1, as stated, fails: when an element of a nested array is a number,
    probing it for a property throws a [TypeError]; the callback is never
    invoked and no instance is returned. *)
Lemma convert_throws_on_primitive_element :
  isDecoratedType Examples.ListExample = true
  /\ convert names_only Examples.ListExample (VObject [("items", VArray [VNumber 1])])
             (Some Examples.accept)
     = {| invocations := [];
          outcome := Thrown (TypeError
            "Cannot use 'in' operator to search for a key in a primitive") |}.
Proof. split; reflexivity. Qed.

Lemma filter_nonempty {A} (f : A -> bool) (l : list A) :
  existsb f l = negb (match filter f l with [] => true | _ :: _ => false end).
Proof.
  induction l as [|a l IH]; [reflexivity|]. cbn. destruct (f a); [reflexivity|exact IH].
Qed.

(** C1, amended.  For a type that passes the metadata check, [convert]
    ends as the construction of the instance ends when that throws, without
    invoking the callback.  When the construction completes with an instance
    and a context: with a callback, the callback is invoked exactly once,
    with that instance and that context, and the instance is returned
    whatever the issues are (unless the callback itself throws); without a
    callback, a [ValidationError] is thrown if and only if some issue has
    error severity, carrying the message with the number of errors and their
    messages and the whole context, and otherwise the instance is returned. *)
Theorem convert_completion :
  forall (Number_key : string -> option string) (ctor : DecoratedType) (data : value),
    isDecoratedType ctor = true ->
    match internalCreateInstance Number_key ctor data empty_context with
    | Thrown (e, _) =>
        forall cb, convert Number_key ctor data cb
                   = {| invocations := []; outcome := Thrown e |}
    | Returned (instance, ctx) =>
        (forall cb : Callback,
            convert Number_key ctor data (Some cb)
            = {| invocations := [(instance, ctx)];
                 outcome := match cb instance ctx with
                            | Returned _ => Returned instance
                            | Thrown e => Thrown e
                            end |})
        /\ convert Number_key ctor data None
           = {| invocations := [];
                outcome :=
                  if existsb is_error_issue (issues ctx)
                  then Thrown (ValidationError
                                 (failure_message (filter is_error_issue (issues ctx))) ctx)
                  else Returned instance |}
    end.
Proof.
  intros Number_key ctor data Hdec. unfold convert. rewrite Hdec. cbn [negb].
  destruct (internalCreateInstance Number_key ctor data empty_context)
    as [[instance ctx]|[e ctx]].
  - split; [reflexivity|]. rewrite filter_nonempty.
    destruct (filter is_error_issue (issues ctx)); reflexivity.
  - intros [cb|]; reflexivity.
Qed.

Lemma convert_completion_witness :
  isDecoratedType Examples.RequiredExample = true
  /\ convert names_only Examples.RequiredExample (VObject [("foo", VNumber 42)])
             (Some Examples.accept)
     = {| invocations :=
            [(VObject [("foo", VString "init")],
              {| issues :=
                   [{| path := "foo"; level := IssueLevel.error;
                       message := "Expected type string, but found: number" |};
                    {| path := ""; level := IssueLevel.error;
                       message := "Required property or field not found: foo" |}];
                 _path := [] |})];
          outcome := Returned (VObject [("foo", VString "init")]) |}
  /\ outcome (convert names_only Examples.RequiredExample
                      (VObject [("foo", VNumber 42)]) None)
     = Thrown (ValidationError
         "Validation failed with 2 errors: Expected type string, but found: number,Required property or field not found: foo"
         {| issues :=
              [{| path := "foo"; level := IssueLevel.error;
                  message := "Expected type string, but found: number" |};
               {| path := ""; level := IssueLevel.error;
                  message := "Required property or field not found: foo" |}];
            _path := [] |}).
Proof.
  split; [reflexivity|].
  pose proof (convert_completion names_only Examples.RequiredExample
                (VObject [("foo", VNumber 42)]) eq_refl) as H.
  cbv beta iota in H. split.
  - exact (proj1 H Examples.accept).
  - exact (f_equal outcome (proj2 H)).
Defined.

(** * Further properties *)

(** ** The reporting methods *)

(** X1.  The methods [info], [warn] and [error] of every context, plain or
    tracking at any depth of wrapping, do what [addIssue] does at the
    corresponding level. *)
Theorem reporting_methods_are_addIssue :
  forall (msg : string) (ctx : IValidationContext),
    info msg ctx = addIssue IssueLevel.info msg ctx
    /\ warn msg ctx = addIssue IssueLevel.warn msg ctx
    /\ error msg ctx = addIssue IssueLevel.error msg ctx.
Proof.
  intros msg ctx. induction ctx as [c|m inner (Hi & Hw & He)].
  - repeat split.
  - cbn. now rewrite Hi, Hw, He.
Qed.

Lemma is_error_max_from (ls : list IssueLevel.t) :
  forall m,
    is_error (max_from m ls)
    = is_error m || existsb (fun l => IssueLevel.eqb l IssueLevel.error) ls.
Proof.
  induction ls as [|l ls IH]; intros m.
  - cbn. now rewrite orb_false_r.
  - unfold max_from in *. cbn [fold_left existsb]. rewrite IH.
    destruct m as [a|]; [destruct a, l|destruct l]; reflexivity.
Qed.

Lemma is_error_max_level (ks : list Call) :
  is_error (max_level (map call_level ks)) = has_error ks.
Proof.
  unfold max_level, has_error. rewrite is_error_max_from. cbn.
  induction ks as [|k ks IH]; [reflexivity|]. cbn. now rewrite IH.
Qed.

(** X2.  Once a tracking context has recorded [error], it keeps it, whatever is
    reported afterwards; in general the recorded maximum never goes down. *)
Theorem tracked_maximum_never_decreases :
  forall (ks : list Call) (m : IssueLevel.t) (inner : IValidationContext),
    exists m',
      maximumSeverity_of (perform_all ks (Tracking (Some m) inner)) = Some m'
      /\ (IssueLevel.num m <= IssueLevel.num m')%Z
      /\ (m = IssueLevel.error -> m' = IssueLevel.error).
Proof.
  intros ks m inner. rewrite perform_all_Tracking. cbn [maximumSeverity_of].
  destruct (max_from_Some (map call_level ks) m) as (m' & Hm & _ & Hle & _).
  exists m'. repeat split; auto.
  intros ->. destruct m'; cbn in Hle; try lia. reflexivity.
Qed.

(** ** Fluent chains *)

Lemma has_error_app (a b : list Call) :
  has_error (a ++ b) = has_error a || has_error b.
Proof. unfold has_error. apply existsb_app. Qed.

Lemma reports_refine (C : ValidatorChain) (N : ValidatorFn) (v : value) :
  negb (chain_ignoreNull C) || negb (is_nullish v) = true ->
  reports (validate (refine C N)) v
  = if has_error (reports (validate C) v) then reports (validate C) v
    else reports (validate C) v ++ reports N v.
Proof.
  intros Hrun. cbn. rewrite Hrun. now rewrite is_error_max_level.
Qed.

Lemma refineAll_ignoreNull (nexts : list ValidatorFn) :
  forall C, chain_ignoreNull (refineAll C nexts) = chain_ignoreNull C.
Proof.
  induction nexts as [|n ns IH]; intros C; [reflexivity|].
  unfold refineAll in *. cbn [fold_left]. now rewrite IH.
Qed.

Lemma refineAll_reports (nexts : list ValidatorFn) (v : value) :
  forall C,
    negb (chain_ignoreNull C) || negb (is_nullish v) = true ->
    reports (validate (refineAll C nexts)) v
    = untilError (reports (validate C) v :: map (fun n => reports n v) nexts).
Proof.
  induction nexts as [|n ns IH]; intros C Hrun.
  - cbn. destruct (has_error _); [reflexivity|now rewrite app_nil_r].
  - unfold refineAll in *. cbn [fold_left map]. rewrite IH by exact Hrun.
    rewrite reports_refine by exact Hrun. cbn [untilError].
    destruct (has_error (reports (validate C) v)) eqn:Ea.
    + now rewrite Ea.
    + rewrite has_error_app, Ea. cbn [orb].
      destruct (has_error (reports n v)); [reflexivity|now rewrite app_assoc].
Qed.

Lemma refineAll_skips (nexts : list ValidatorFn) (v : value) :
  forall C,
    chain_ignoreNull C = true -> is_nullish v = true -> nexts <> [] ->
    reports (validate (refineAll C nexts)) v = [].
Proof.
  induction nexts as [|n ns IH]; intros C Hign Hnull Hne; [congruence|].
  unfold refineAll in *. cbn [fold_left].
  destruct ns as [|n' ns'].
  - cbn. now rewrite Hign, Hnull.
  - apply IH; auto. discriminate.
Qed.

Lemma call_refineAll (C : ValidatorChain) (nexts : list ValidatorFn) (v : value)
      (ctx : IValidationContext) :
  chain_ignoreNull C = false \/ is_nullish v = false ->
  call (validate (refineAll C nexts)) v ctx
  = perform_all
      (untilError (reports (validate C) v :: map (fun n => reports n v) nexts))
      ctx.
Proof.
  intros Hrun. rewrite call_reports, refineAll_reports; [reflexivity|].
  destruct Hrun as [-> | ->]; [reflexivity|apply orb_true_r].
Qed.

(** X3.  A chain refined by any number of fluent calls runs its stages in the
    order of the calls, and stops after the first stage that reports an
    error: the context it leaves is the one the reports of the stages up to
    that stage leave.  Stages that report only [info] or [warn] stop
    nothing. *)
Theorem fluent_chain_runs_until_first_error :
  forall (C : ValidatorChain) (nexts : list ValidatorFn) (v : value)
         (ctx : IValidationContext),
    chain_ignoreNull C = false \/ is_nullish v = false ->
    call (validate (refineAll C nexts)) v ctx
    = perform_all
        (untilError (reports (validate C) v :: map (fun n => reports n v) nexts))
        ctx.
Proof.
  intros C nexts v ctx Hrun. rewrite call_reports, refineAll_reports; [reflexivity|].
  destruct Hrun as [-> | ->]; [reflexivity|apply orb_true_r].
Qed.

Lemma fluent_chain_runs_until_first_error_witness :
  (chain_ignoreNull isString = false \/ is_nullish (VString "toolong") = false)
  /\ issues_of (call (validate (refineAll isString
                 [stringStage (MaxLength 3 IssueLevel.warn None);
                  stringStage (Enum ["a"] IssueLevel.error None);
                  stringStage (MinLength 9 IssueLevel.error None)]))
               (VString "toolong") (Plain empty_context))
     = [{| path := ""; level := IssueLevel.warn;
           message := "Maximum length exceeded (max: 3, actual: 7)" |};
        {| path := ""; level := IssueLevel.error;
           message := "Value did not match one of the 1 expected options: toolong" |}].
Proof.
  split; [left; reflexivity|].
  rewrite (fluent_chain_runs_until_first_error isString _ (VString "toolong")
             (Plain empty_context) (or_introl eq_refl)).
  reflexivity.
Defined.

(** X4.  When a chain has reported an error for a value, no stage added to it by
    later fluent calls runs: the refined chain leaves the context the chain
    itself leaves. *)
Theorem first_error_gates_all_later_stages :
  forall (C : ValidatorChain) (nexts : list ValidatorFn) (v : value)
         (ctx : IValidationContext),
    chain_ignoreNull C = false \/ is_nullish v = false ->
    is_error (maximumSeverity_of (call (validate C) v (Tracking None ctx))) = true ->
    call (validate (refineAll C nexts)) v ctx = call (validate C) v ctx.
Proof.
  intros C nexts v ctx Hrun Herr.
  rewrite call_refineAll by exact Hrun.
  rewrite call_reports, perform_all_Tracking in Herr. cbn [maximumSeverity_of] in Herr.
  fold (max_level (map call_level (reports (validate C) v))) in Herr.
  rewrite is_error_max_level in Herr.
  cbn [untilError]. rewrite Herr. symmetry. apply call_reports.
Qed.

Lemma first_error_gates_all_later_stages_witness :
  (chain_ignoreNull isString = false \/ is_nullish (VNumber 7) = false)
  /\ is_error (maximumSeverity_of
                 (call (validate isString) (VNumber 7)
                       (Tracking None (Plain empty_context)))) = true
  /\ call (validate (refineAll isString [only_a; only_a])) (VNumber 7)
          (Plain empty_context)
     = call (validate isString) (VNumber 7) (Plain empty_context).
Proof.
  split; [left; reflexivity|]. split; [reflexivity|].
  exact (first_error_gates_all_later_stages isString [only_a; only_a] (VNumber 7)
           (Plain empty_context) (or_introl eq_refl) eq_refl).
Defined.

(** ** The validations of one field *)

Lemma perform_all_Plain (ks : list Call) (c : ValidationContext) :
  perform_all ks (Plain c) = Plain (plain_of (perform_all ks (Plain c))).
Proof.
  revert c. induction ks as [|k ks IH]; intros c; [reflexivity|].
  unfold perform_all in *. cbn [fold_left].
  assert (Hk : perform k (Plain c) = Plain (plain_of (perform k (Plain c))))
    by (destruct k; reflexivity).
  rewrite Hk. apply IH.
Qed.

(** X5.  The validations of a field do not gate one another: running a list of
    validations is running its first part and then its second part on the
    context the first left, whatever the first reported; the value is
    rejected exactly when one of the parts rejects it; and the path stack is
    left alone. *)
Theorem validations_do_not_gate_each_other :
  forall (first second : list ValidatorFn) (v : value) (ctx : ValidationContext),
    snd (validateValue (first ++ second) v ctx)
    = snd (validateValue second v (snd (validateValue first v ctx)))
    /\ is_error (fst (validateValue (first ++ second) v ctx))
       = is_error (fst (validateValue first v ctx))
         || is_error (fst (validateValue second v ctx))
    /\ _path (snd (validateValue (first ++ second) v ctx)) = _path ctx.
Proof.
  intros first second v ctx. rewrite !validateValue_reports. cbn [fst snd].
  rewrite flat_map_app. repeat split.
  - rewrite perform_all_app.
    now rewrite (perform_all_Plain (flat_map (fun f => reports f v) first) ctx) at 1.
  - rewrite !is_error_max_level. apply has_error_app.
  - apply (plain_of_perform_all _ (Plain ctx)).
Qed.

(** ** The string and number families *)

Lemma stringStep_refine (base : ValidatorChain) (step : StringStep) :
  stringStep base step = refine base (stringStage step).
Proof. destruct step; reflexivity. Qed.

Lemma numberStep_refine (base : ValidatorChain) (step : NumberStep) :
  numberStep base step = refine base (numberStage step).
Proof. destruct step; reflexivity. Qed.

Lemma stringSteps_refineAll (steps : list StringStep) :
  forall base,
    fold_left stringStep steps base = refineAll base (map stringStage steps).
Proof.
  induction steps as [|st steps IH]; intros base; [reflexivity|].
  cbn [fold_left map]. rewrite IH, stringStep_refine. reflexivity.
Qed.

Lemma numberSteps_refineAll (steps : list NumberStep) :
  forall base,
    fold_left numberStep steps base = refineAll base (map numberStage steps).
Proof.
  induction steps as [|st steps IH]; intros base; [reflexivity|].
  cbn [fold_left map]. rewrite IH, numberStep_refine. reflexivity.
Qed.

Lemma stringStage_reports (step : StringStep) (s : string) :
  reports (stringStage step) (VString s) = stringViolation step s.
Proof.
  destruct step; cbn; try reflexivity.
  now destruct (existsb (String.eqb s) values).
Qed.

Lemma numberStage_reports (step : NumberStep) (n : Z) :
  reports (numberStage step) (VNumber n) = numberViolation step n.
Proof. destruct step; reflexivity. Qed.

Lemma untilError_error (k : Call) (rest : list (list Call)) :
  call_level k = IssueLevel.error -> untilError ([k] :: rest) = [k].
Proof. intros H. cbn. now rewrite H. Qed.

Lemma numberStage_reports_NaN (step : NumberStep) :
  reports (numberStage step) VNaN = [].
Proof. destruct step; reflexivity. Qed.

Lemma untilError_nothing {A} (f : A -> list Call) (l : list A) :
  (forall a, f a = []) -> untilError (map f l) = [].
Proof.
  intros Hf. induction l as [|a l IH]; [reflexivity|].
  cbn [map untilError]. rewrite Hf. exact IH.
Qed.

(** X6.  The reports of a validator of the string family, for every sequence
    of fluent calls on [isString()], with limits that are safe integers: a
    value that is not a string gets the type error and nothing else; a string
    of ASCII characters gets what the constraints have to say, in the order of
    the calls, up to and including the first one that reports an error.  On
    [nullable().isString()] the same holds except that null and undefined get
    nothing at all. *)
Theorem string_validator_reports :
  forall (steps : list StringStep) (v : value) (ctx : IValidationContext),
    forallb exact_string_step steps = true ->
    exact_value v = true ->
    let expected :=
      match v with
      | VString s => untilError (map (fun st => stringViolation st s) steps)
      | _ => [CallError ("Expected type string, but found: " ++ typeof v)]
      end in
    call (validate (fold_left stringStep steps isString)) v ctx
    = perform_all expected ctx
    /\ call (validate (fold_left stringStep steps (NullableValidator.isString nullable)))
            v ctx
       = if is_nullish v then ctx else perform_all expected ctx.
Proof.
  intros steps v ctx _ _ expected.
  assert (Hexp : forall base,
             reports (validate base) v
             = (if negb (typeof v =? "string")
                then [CallError ("Expected type string, but found: " ++ typeof v)]
                else []) ->
             untilError (reports (validate base) v
                           :: map (fun n => reports n v) (map stringStage steps))
             = expected).
  { intros base ->. subst expected. destruct v; try reflexivity.
    change (negb (typeof (VString s) =? "string")) with false.
    cbn [untilError has_error existsb app].
    rewrite map_map. apply (f_equal untilError), map_ext.
    intros st. apply stringStage_reports. }
  rewrite !stringSteps_refineAll. split.
  - rewrite call_refineAll by (left; reflexivity).
    now rewrite (Hexp isString eq_refl).
  - destruct (is_nullish v) eqn:En.
    + rewrite call_reports. destruct steps as [|st steps].
      * cbn. now rewrite En.
      * now rewrite refineAll_skips.
    + rewrite call_refineAll by (right; exact En).
      rewrite (Hexp (NullableValidator.isString nullable)); [reflexivity|].
      cbn. now rewrite En.
Qed.

(** [isString().maxLength(3, warn).minLength(2)] on a string of five
    characters, and [nullable().isString()] with the same calls on null. *)
Lemma string_validator_reports_witness :
  forallb exact_string_step
    [MaxLength 3 IssueLevel.warn None; MinLength 2 IssueLevel.error None] = true
  /\ exact_value (VString "hello") = true
  /\ issues_of
       (call (validate (fold_left stringStep
                          [MaxLength 3 IssueLevel.warn None;
                           MinLength 2 IssueLevel.error None] isString))
             (VString "hello") (Plain empty_context))
     = [{| path := ""; level := IssueLevel.warn;
           message := "Maximum length exceeded (max: 3, actual: 5)" |}]
  /\ call (validate (fold_left stringStep
                       [MaxLength 3 IssueLevel.warn None;
                        MinLength 2 IssueLevel.error None]
                       (NullableValidator.isString nullable)))
          VNull (Plain empty_context)
     = Plain empty_context.
Proof.
  split; [reflexivity|]. split; [reflexivity|]. split.
  - rewrite (proj1 (string_validator_reports
               [MaxLength 3 IssueLevel.warn None; MinLength 2 IssueLevel.error None]
               (VString "hello") (Plain empty_context) eq_refl eq_refl)).
    reflexivity.
  - exact (proj2 (string_validator_reports
               [MaxLength 3 IssueLevel.warn None; MinLength 2 IssueLevel.error None]
               VNull (Plain empty_context) eq_refl eq_refl)).
Defined.

(** X7.  The reports of a validator of the number family, for every sequence of
    fluent calls on [isNumber(allowNaN)], with limits that are safe
    integers: a value that is not a number gets the type error and nothing
    else; [NaN] gets the error [Unexpected value: NaN] and nothing else,
    unless [allowNaN] is set, and then it gets nothing at all, since it is
    neither above nor below any limit; a safe integer gets what the limits
    have to say, in the order of the calls, up to and including the first one
    that reports an error.  On [nullable().isNumber()] null and undefined get
    nothing at all and [NaN] is never reported. *)
Theorem number_validator_reports :
  forall (allowNaN : bool) (steps : list NumberStep) (v : value)
         (ctx : IValidationContext),
    forallb exact_number_step steps = true ->
    exact_value v = true ->
    let expected (onNaN : list Call) :=
      match v with
      | VNumber n => untilError (map (fun st => numberViolation st n) steps)
      | VNaN => onNaN
      | _ => [CallError ("Expected type number, but found: " ++ typeof v)]
      end in
    call (validate (fold_left numberStep steps (isNumber allowNaN))) v ctx
    = perform_all
        (expected (if allowNaN then [] else [CallError "Unexpected value: NaN"])) ctx
    /\ call (validate (fold_left numberStep steps (NullableNumber.isNumber nullable)))
            v ctx
       = if is_nullish v then ctx else perform_all (expected []) ctx.
Proof.
  intros allowNaN steps v ctx _ _ expected.
  assert (Hexp : forall base onNaN,
             reports (validate base) v
             = (if negb (typeof v =? "number")
                then [CallError ("Expected type number, but found: " ++ typeof v)]
                else if is_NaN v then onNaN else []) ->
             has_error onNaN = true \/ onNaN = [] ->
             untilError (reports (validate base) v
                           :: map (fun n => reports n v) (map numberStage steps))
             = expected onNaN).
  { intros base onNaN -> HNaN. subst expected. destruct v; try reflexivity.
    - change (negb (typeof (VNumber n) =? "number")) with false.
      cbn [is_NaN untilError has_error existsb app].
      rewrite map_map. apply (f_equal untilError), map_ext.
      intros st. apply numberStage_reports.
    - change (negb (typeof VNaN =? "number")) with false.
      cbn [is_NaN untilError]. destruct HNaN as [-> | ->]; [reflexivity|].
      cbn [has_error existsb app]. rewrite map_map.
      apply untilError_nothing. intros st. apply numberStage_reports_NaN. }
  rewrite !numberSteps_refineAll. split.
  - rewrite call_refineAll by (left; reflexivity).
    rewrite (Hexp (isNumber allowNaN)
               (if allowNaN then [] else [CallError "Unexpected value: NaN"]));
      [reflexivity| |].
    + cbn. destruct (negb (typeof v =? "number")); [reflexivity|].
      destruct allowNaN; cbn [negb andb]; [now destruct (is_NaN v)|reflexivity].
    + destruct allowNaN; [now right|now left].
  - destruct (is_nullish v) eqn:En.
    + rewrite call_reports. destruct steps as [|st steps].
      * cbn. now rewrite En.
      * now rewrite refineAll_skips.
    + rewrite call_refineAll by (right; exact En).
      rewrite (Hexp (NullableNumber.isNumber nullable) []); [reflexivity| |now right].
      cbn. rewrite En. cbn [negb orb].
      destruct (negb (typeof v =? "number")); [reflexivity|].
      now destruct (is_NaN v).
Qed.

(** [isNumber().min(0).max(10, warn)] on [NaN] and on 12. *)
Lemma number_validator_reports_witness :
  forallb exact_number_step
    [Min 0 IssueLevel.error None; Max 10 IssueLevel.warn None] = true
  /\ exact_value VNaN = true
  /\ exact_value (VNumber 12) = true
  /\ issues_of
       (call (validate (fold_left numberStep
                          [Min 0 IssueLevel.error None; Max 10 IssueLevel.warn None]
                          (isNumber false)))
             VNaN (Plain empty_context))
     = [{| path := ""; level := IssueLevel.error; message := "Unexpected value: NaN" |}]
  /\ issues_of
       (call (validate (fold_left numberStep
                          [Min 0 IssueLevel.error None; Max 10 IssueLevel.warn None]
                          (isNumber true)))
             (VNumber 12) (Plain empty_context))
     = [{| path := ""; level := IssueLevel.warn;
           message := "Value (12) is greater than the maximum: 10" |}].
Proof.
  split; [reflexivity|]. split; [reflexivity|]. split; [reflexivity|]. split.
  - rewrite (proj1 (number_validator_reports false
               [Min 0 IssueLevel.error None; Max 10 IssueLevel.warn None]
               VNaN (Plain empty_context) eq_refl eq_refl)).
    reflexivity.
  - rewrite (proj1 (number_validator_reports true
               [Min 0 IssueLevel.error None; Max 10 IssueLevel.warn None]
               (VNumber 12) (Plain empty_context) eq_refl eq_refl)).
    reflexivity.
Defined.

(** ** Property lookup *)

Lemma split_dot_cons (s : string) : exists h t, split_dot s = h :: t.
Proof.
  induction s as [|c s (h & t & IH)]; cbn; [eauto|].
  destruct (Ascii.eqb c "."); [eauto|]. rewrite IH. eauto.
Qed.

Lemma split_dot_app (a b : string) :
  split_dot (a ++ "." ++ b) = split_dot a ++ split_dot b.
Proof.
  induction a as [|c a IH]; [reflexivity|].
  cbn [append split_dot]. change (a ++ String "." b)%string with (a ++ "." ++ b)%string.
  rewrite IH. destruct (Ascii.eqb c "."); [reflexivity|].
  destruct (split_dot_cons a) as (h & t & ->). reflexivity.
Qed.

Section Lookup.

Variable Number_key : string -> option string.

Lemma walk_app (p q : list string) :
  forall current,
    walk Number_key (p ++ q) current
    = match walk Number_key p current with
      | Returned (Some x) => walk Number_key q x
      | Returned None => Returned None
      | Thrown e => Thrown e
      end.
Proof.
  induction p as [|part p IH]; intros current; [reflexivity|].
  cbn [app walk]. destruct (is_nullish current); [reflexivity|].
  destruct (property _ current) as [[next|]|e]; auto.
Qed.

Lemma walk_nullish (parts : list string) (current : value) :
  parts <> [] -> is_nullish current = true ->
  walk Number_key parts current = Returned None.
Proof.
  intros Hne Hn. destruct parts as [|part rest]; [congruence|].
  cbn [walk]. now rewrite Hn.
Qed.

End Lookup.

(** X8.  A dotted reference is looked up half by half: [a.b] is found where [b]
    is found in what [a] is found to hold; when [a] is not found, or the
    lookup of [a] throws, so does the whole. *)
Theorem getProperty_dotted_path_composes :
  forall (Number_key : string -> option string) (a b : string) (data : value),
    getProperty Number_key (SegName (a ++ "." ++ b)) data
    = match getProperty Number_key (SegName a) data with
      | Returned (Some x) => getProperty Number_key (SegName b) x
      | Returned None => Returned None
      | Thrown e => Thrown e
      end.
Proof.
  intros Number_key a b data. cbn [getProperty].
  now rewrite split_dot_app, walk_app.
Qed.

(** X9.  Looking a name up in null or undefined finds nothing and does not
    throw; looking anything up in a number, a string or a boolean throws a
    [TypeError]; a name that is neither dotted nor numeric is found in an
    object that has it as a property of its own, whatever the property
    holds, [undefined] included, and is not found in an object that has no
    property of that name, provided it is not the name of a member every
    object inherits. *)
Theorem getProperty_by_kind_of_data :
  forall (Number_key : string -> option string) (name : string),
    Number_key name = None ->
    split_dot name = [name] ->
    (forall data, is_nullish data = true ->
                  getProperty Number_key (SegName name) data = Returned None)
    /\ (forall data ref,
          match data with
          | VBoolean _ | VNumber _ | VNaN | VString _ =>
              exists msg, getProperty Number_key ref data = Thrown (TypeError msg)
          | _ => True
          end)
    /\ (forall fields val,
          assoc name fields = Some val ->
          getProperty Number_key (SegName name) (VObject fields)
          = Returned (Some val))
    /\ (forall fields,
          inherited name = false ->
          assoc name fields = None ->
          getProperty Number_key (SegName name) (VObject fields) = Returned None).
Proof.
  intros Number_key name Hnan Hsplit.
  assert (Hobj : forall fields,
             getProperty Number_key (SegName name) (VObject fields)
             = Returned (assoc name fields)).
  { intros fields. cbn [getProperty]. rewrite Hsplit. cbn [walk is_nullish].
    rewrite Hnan. cbn [property]. now destruct (assoc name fields). }
  repeat split.
  - intros data Hn. cbn [getProperty]. apply walk_nullish; [|exact Hn].
    rewrite Hsplit. discriminate.
  - intros data ref.
    assert (Hw : forall s current,
               is_nullish current = false ->
               (forall k, exists msg, property k current = Thrown (TypeError msg)) ->
               exists msg, walk Number_key (split_dot s) current = Thrown (TypeError msg)).
    { intros s current Hn Hp. destruct (split_dot_cons s) as (h & t & ->).
      cbn [walk]. rewrite Hn.
      destruct (Hp (match Number_key h with Some ix => ix | None => h end)) as [msg ->].
      eauto. }
    destruct data; try exact I; destruct ref as [nm|ix]; cbn [getProperty];
      try (apply Hw; [reflexivity|intros k; cbn; eauto]); cbn; eauto.
  - intros fields val Hown. now rewrite Hobj, Hown.
  - intros fields _ Hnone. now rewrite Hobj, Hnone.
Qed.

Lemma getProperty_by_kind_of_data_witness :
  names_only "foo" = None
  /\ split_dot "foo" = ["foo"]
  /\ assoc "foo" [("foo", VUndefined)] = Some VUndefined
  /\ getProperty names_only (SegName "foo") (VObject [("foo", VUndefined)])
     = Returned (Some VUndefined)
  /\ inherited "foo" = false
  /\ assoc "foo" [("bar", VNull)] = None
  /\ getProperty names_only (SegName "foo") (VObject [("bar", VNull)]) = Returned None.
Proof.
  split; [reflexivity|]. split; [reflexivity|]. split; [reflexivity|]. split.
  - exact (proj1 (proj2 (proj2 (getProperty_by_kind_of_data names_only "foo"
                                  eq_refl eq_refl)))
                 [("foo", VUndefined)] VUndefined eq_refl).
  - split; [reflexivity|]. split; [reflexivity|].
    exact (proj2 (proj2 (proj2 (getProperty_by_kind_of_data names_only "foo"
                                  eq_refl eq_refl)))
                 [("bar", VNull)] eq_refl eq_refl).
Defined.

(** ** Alias precedence *)

(** X10.  The first alias, in declared order, that is found in the data decides:
    the value found under it is the one processed, under that alias as path
    segment, and the aliases after it are not looked up at all. *)
Theorem first_alias_found_wins :
  forall (Number_key : string -> option string)
         (recurse : MappingMetadata -> option (value -> M value))
         (mapping : option MappingMetadata)
         (before after : list segment) (name : segment)
         (data val : value) (ctx : ValidationContext),
    (forall n, In n before -> getProperty Number_key n data = Returned None) ->
    getProperty Number_key name data = Returned (Some val) ->
    tryAliases Number_key recurse mapping (before ++ name :: after) data ctx
    = mapFound recurse mapping name val ctx.
Proof.
  intros Number_key recurse mapping before after name data val ctx Hb Hf.
  rewrite tryAliases_firstFound.
  assert (H : firstFound Number_key (before ++ name :: after) data
              = Returned (Some (name, val))).
  { apply firstFound_Some. exists before, after. auto. }
  now rewrite H.
Qed.

Lemma first_alias_found_wins_witness :
  (forall n, In n [SegName "make"] ->
             getProperty names_only n (VObject [("manufacturer", VString "Ford")])
             = Returned None)
  /\ getProperty names_only (SegName "manufacturer")
                 (VObject [("manufacturer", VString "Ford")])
     = Returned (Some (VString "Ford"))
  /\ tryAliases names_only (recurseInto names_only) (Some Examples.plainMapping)
       ([SegName "make"] ++ [SegName "manufacturer"; SegName "brand"])
       (VObject [("manufacturer", VString "Ford")]) empty_context
     = Returned (Some (VString "Ford"), empty_context).
Proof.
  assert (Hb : forall n, In n [SegName "make"] ->
                 getProperty names_only n (VObject [("manufacturer", VString "Ford")])
                 = Returned None).
  { intros n [<-|[]]. reflexivity. }
  split; [exact Hb|]. split; [reflexivity|].
  rewrite (first_alias_found_wins names_only (recurseInto names_only)
             (Some Examples.plainMapping) [SegName "make"] [SegName "brand"]
             (SegName "manufacturer") (VObject [("manufacturer", VString "Ford")])
             (VString "Ford") empty_context Hb eq_refl).
  reflexivity.
Defined.

(** ** Construction without mappings and without data *)

(** X11.  A type that declares no mappings and no hooks is constructed with no
    arguments from any data that is not null or undefined, numbers, strings
    and booleans included: the data is never probed, nothing is reported and
    nothing is thrown. *)
Theorem type_without_mappings_is_constructed_plainly :
  forall (Number_key : string -> option string) (ctor : DecoratedType) (data : value),
    _parameters ctor = Unspecified ->
    _properties ctor = Unspecified ->
    _parmeters ctor = Unspecified ->
    mapData ctor = None ->
    validateHook ctor = None ->
    is_nullish data = false ->
    convert Number_key ctor data None
    = {| invocations := []; outcome := Returned (VObject (construct ctor [])) |}.
Proof.
  intros Number_key ctor data Hpa Hpr Hpm Hmd Hvh Hn.
  unfold convert, isDecoratedType. rewrite Hpr, Hpm. cbn [objectOrUnspecified
    arrayOrUnspecified andb negb].
  rewrite internalCreateInstance_eq, Hn, Hpa, Hpr, Hmd, Hvh. reflexivity.
Qed.

Lemma type_without_mappings_is_constructed_plainly_witness :
  is_nullish (VNumber 3) = false
  /\ convert names_only (Examples.classOf (fun _ => [("foo", VString "init")])
                           Unspecified Unspecified) (VNumber 3) None
     = {| invocations := [];
          outcome := Returned (VObject [("foo", VString "init")]) |}.
Proof.
  split; [reflexivity|].
  exact (type_without_mappings_is_constructed_plainly names_only
           (Examples.classOf (fun _ => [("foo", VString "init")]) Unspecified Unspecified)
           (VNumber 3) eq_refl eq_refl eq_refl eq_refl eq_refl eq_refl).
Defined.

(** X12.  Null and undefined data are handed back as they are: no instance is
    constructed, no hook runs, nothing is reported, required mappings
    included; a callback receives the null and an empty context. *)
Theorem null_data_is_returned_unchanged :
  forall (Number_key : string -> option string) (ctor : DecoratedType) (data : value),
    isDecoratedType ctor = true ->
    is_nullish data = true ->
    convert Number_key ctor data None
    = {| invocations := []; outcome := Returned data |}
    /\ forall cb : Callback,
         invocations (convert Number_key ctor data (Some cb)) = [(data, empty_context)].
Proof.
  intros Number_key ctor data Hdec Hn. unfold convert.
  rewrite Hdec, internalCreateInstance_eq, Hn. cbn. split; reflexivity.
Qed.

Lemma null_data_is_returned_unchanged_witness :
  isDecoratedType Examples.RequiredExample = true
  /\ is_nullish VNull = true
  /\ convert names_only Examples.RequiredExample VNull None
     = {| invocations := []; outcome := Returned VNull |}.
Proof.
  split; [reflexivity|]. split; [reflexivity|].
  exact (proj1 (null_data_is_returned_unchanged names_only Examples.RequiredExample
                  VNull eq_refl eq_refl)).
Defined.

Lemma mapElements_nullish (create : value -> M value) :
  (forall v ctx, is_nullish v = true -> create v ctx = Returned (v, ctx)) ->
  forall elems ix ctx,
    forallb is_nullish elems = true ->
    mapElements create ix elems ctx = Returned (elems, ctx).
Proof.
  intros Hc. induction elems as [|v rest IH]; intros ix ctx Hall; [reflexivity|].
  cbn [forallb] in Hall. apply andb_prop in Hall as [Hv Hrest].
  cbn [mapElements]. unfold bind at 1. unfold mapElement, bind, modify, ret.
  rewrite (Hc v _ Hv), pop_push.
  change (match mapElements create (S ix) rest ctx with
          | Returned (a, ctx') => Returned (v :: a, ctx')
          | Thrown e => Thrown e
          end = Returned (v :: rest, ctx)).
  now rewrite IH.
Qed.

(** X13.  In a nested mapping, absence is not an error: a null or undefined
    value mapped as a nested type stays what it is, and an array whose
    elements are all null or undefined (the empty array included) is mapped
    to itself; nothing is constructed and nothing is reported. *)
Theorem nested_absence_passes_through :
  forall (Number_key : string -> option string) (ctor : DecoratedType)
         (ctx : ValidationContext),
    (forall data, is_nullish data = true ->
                  handleRecursiveMapping Number_key ctor false data ctx
                  = Returned (data, ctx))
    /\ (forall elems, forallb is_nullish elems = true ->
                      handleRecursiveMapping Number_key ctor true (VArray elems) ctx
                      = Returned (VArray elems, ctx)).
Proof.
  intros Number_key ctor ctx.
  assert (Hc : forall v c, is_nullish v = true ->
                 internalCreateInstance Number_key ctor v c = Returned (v, c)).
  { intros v c Hn. now rewrite internalCreateInstance_eq, Hn. }
  split.
  - intros data Hn. unfold handleRecursiveMapping, handleRecursiveMappingWith.
    now apply Hc.
  - intros elems Hall. unfold handleRecursiveMapping, handleRecursiveMappingWith.
    cbn [is_nullish negb]. unfold bind.
    now rewrite (mapElements_nullish _ Hc elems 0 ctx Hall).
Qed.

Lemma nested_absence_passes_through_witness :
  forallb is_nullish [VNull; VUndefined] = true
  /\ handleRecursiveMapping names_only Examples.RequiredExample true
       (VArray [VNull; VUndefined]) (at_path [SegName "items"])
     = Returned (VArray [VNull; VUndefined], at_path [SegName "items"]).
Proof.
  split; [reflexivity|].
  exact (proj2 (nested_absence_passes_through names_only Examples.RequiredExample
                  (at_path [SegName "items"]))
               [VNull; VUndefined] eq_refl).
Defined.

(** ** What the engine throws *)

Lemma typeErrorsOnly_ret {A} (a : A) : typeErrorsOnly (ret a).
Proof. intros ctx e c' H. discriminate. Qed.

Lemma typeErrorsOnly_bind {A B} (m : M A) (k : A -> M B) :
  typeErrorsOnly m -> (forall a, typeErrorsOnly (k a)) -> typeErrorsOnly (bind m k).
Proof.
  intros Hm Hk ctx e c' H. unfold bind in H.
  destruct (m ctx) as [[a c]|e'] eqn:E.
  - eapply Hk; eauto.
  - injection H as ->. eapply Hm; eauto.
Qed.

Lemma typeErrorsOnly_modify f : typeErrorsOnly (modify f).
Proof. intros ctx e c' H. discriminate. Qed.

Lemma property_throws key v e :
  property key v = Thrown e -> exists msg, e = TypeError msg.
Proof. destruct v; cbn; intros [= <-]; eauto. Qed.

Lemma getProperty_throws Number_key ref data e :
  getProperty Number_key ref data = Thrown e -> exists msg, e = TypeError msg.
Proof.
  destruct ref as [s|n]; cbn [getProperty]; [|apply property_throws].
  generalize (split_dot s). intros parts. revert data.
  induction parts as [|part rest IH]; intros data; cbn [walk]; [discriminate|].
  destruct (is_nullish data); [discriminate|].
  destruct (property _ data) as [[next|]|e'] eqn:E.
  - apply IH.
  - discriminate.
  - intros [= <-]. eapply property_throws; eauto.
Qed.

Section Throws.

Variable Number_key : string -> option string.

Lemma typeErrorsOnly_mapElements (create : value -> M value) :
  (forall v, typeErrorsOnly (create v)) ->
  forall elems ix, typeErrorsOnly (mapElements create ix elems).
Proof.
  intros Hc. induction elems as [|v rest IH]; intros ix; cbn [mapElements].
  - apply typeErrorsOnly_ret.
  - apply typeErrorsOnly_bind.
    + unfold mapElement. apply typeErrorsOnly_bind; [apply typeErrorsOnly_modify|].
      intros _. apply typeErrorsOnly_bind; [apply Hc|].
      intros r. apply typeErrorsOnly_bind; [apply typeErrorsOnly_modify|].
      intros _. apply typeErrorsOnly_ret.
    + intros r. apply typeErrorsOnly_bind; [apply IH|].
      intros rs. apply typeErrorsOnly_ret.
Qed.

Lemma typeErrorsOnly_handle (create : value -> M value) isArr data :
  (forall v, typeErrorsOnly (create v)) ->
  typeErrorsOnly (handleRecursiveMappingWith create isArr data).
Proof.
  intros Hc. unfold handleRecursiveMappingWith. destruct isArr; [|apply Hc].
  destruct (is_nullish data); cbn [negb]; [apply typeErrorsOnly_ret|].
  destruct data; try (intros ctx e c' H; discriminate).
  apply typeErrorsOnly_bind; [now apply typeErrorsOnly_mapElements|].
  intros rs. apply typeErrorsOnly_ret.
Qed.

Lemma typeErrorsOnly_mapFound recurse mapping name val :
  (forall m h, mapping = Some m -> recurse m = Some h ->
               forall v, typeErrorsOnly (h v)) ->
  typeErrorsOnly (mapFound recurse mapping name val).
Proof.
  intros Hrec. unfold mapFound.
  apply typeErrorsOnly_bind; [apply typeErrorsOnly_modify|]. intros _.
  destruct mapping as [m|]; [|intros ctx e c' [= <- _]; eauto].
  apply typeErrorsOnly_bind.
  { destruct (validations m); [apply typeErrorsOnly_ret|].
    intros ctx e c' H. discriminate. }
  intros vr. apply typeErrorsOnly_bind.
  { destruct (negb (is_error vr)); [|apply typeErrorsOnly_ret].
    apply typeErrorsOnly_bind; [|intros v; apply typeErrorsOnly_ret].
    destruct (recurse m) as [h|] eqn:Eh; [|apply typeErrorsOnly_ret].
    eapply Hrec; eauto. }
  intros r. apply typeErrorsOnly_bind; [apply typeErrorsOnly_modify|].
  intros _. apply typeErrorsOnly_ret.
Qed.

Lemma typeErrorsOnly_tryAliases recurse mapping data :
  (forall m h, mapping = Some m -> recurse m = Some h ->
               forall v, typeErrorsOnly (h v)) ->
  forall names, typeErrorsOnly (tryAliases Number_key recurse mapping names data).
Proof.
  intros Hrec. induction names as [|n names IH]; cbn [tryAliases].
  - apply typeErrorsOnly_ret.
  - apply typeErrorsOnly_bind.
    + intros ctx e c' H. unfold lift in H.
      destruct (getProperty Number_key n data) as [x|e'] eqn:E; [discriminate|].
      injection H as <- _. eapply getProperty_throws; eauto.
    + intros [val|]; [|exact IH]. now apply typeErrorsOnly_mapFound.
Qed.

Lemma typeErrorsOnly_unmappedParam mapping index params :
  typeErrorsOnly (unmappedParam mapping index params).
Proof.
  unfold unmappedParam. destruct (opt_isRequired mapping).
  - apply typeErrorsOnly_bind; [apply typeErrorsOnly_modify|].
    intros _. apply typeErrorsOnly_ret.
  - destruct (opt_defaultValue mapping); apply typeErrorsOnly_ret.
Qed.

Lemma typeErrorsOnly_unmappedProp mapping key result :
  typeErrorsOnly (unmappedProp mapping key result).
Proof. intros ctx e c' H. rewrite unmappedProp_eq in H. discriminate. Qed.

Lemma typeErrorsOnly_paramPass recurse data :
  forall paramMappings,
    (forall m h, In (Some m) paramMappings -> recurse m = Some h ->
                 forall v, typeErrorsOnly (h v)) ->
    forall index params,
      typeErrorsOnly (paramPass Number_key recurse paramMappings index data params).
Proof.
  induction paramMappings as [|mapping rest IH]; intros Hrec index params;
    cbn [paramPass].
  - apply typeErrorsOnly_ret.
  - apply typeErrorsOnly_bind.
    + apply typeErrorsOnly_tryAliases. intros m h -> Hh.
      eapply Hrec; [now left|exact Hh].
    + intros r. apply typeErrorsOnly_bind.
      * destruct r; [apply typeErrorsOnly_ret|apply typeErrorsOnly_unmappedParam].
      * intros ps. apply IH. intros m h Hin. apply Hrec. now right.
Qed.

Lemma typeErrorsOnly_propPass recurse data :
  forall propMappings,
    (forall key m h, In (key, m) propMappings -> recurse m = Some h ->
                     forall v, typeErrorsOnly (h v)) ->
    forall result,
      typeErrorsOnly (propPass Number_key recurse propMappings data result).
Proof.
  induction propMappings as [|[key mapping] rest IH]; intros Hrec result;
    cbn [propPass].
  - apply typeErrorsOnly_ret.
  - apply typeErrorsOnly_bind.
    + apply typeErrorsOnly_tryAliases. intros m h [= <-] Hh.
      eapply Hrec; [now left|exact Hh].
    + intros r. apply typeErrorsOnly_bind.
      * destruct r; [apply typeErrorsOnly_ret|apply typeErrorsOnly_unmappedProp].
      * intros res. apply IH. intros k m h Hin. eapply Hrec. right. exact Hin.
Qed.

Lemma typeErrorsOnly_runHook {A} (hook : option (Hook A)) arg result :
  typeErrorsOnly (runHook hook arg result).
Proof.
  unfold runHook. destruct hook as [h|]; [|apply typeErrorsOnly_ret].
  destruct (h arg result). intros ctx e c' H. discriminate.
Qed.

Lemma typeErrorsOnly_upto n :
  forall ctor, depth ctor <= n ->
               forall data, typeErrorsOnly (internalCreateInstance Number_key ctor data).
Proof.
  induction n as [|n IH]; intros ctor Hd data.
  - destruct ctor; cbn in Hd; lia.
  - rewrite internalCreateInstance_eq.
    destruct (is_nullish data); [apply typeErrorsOnly_ret|].
    assert (Hrec : forall m h,
               (forall nested, mappedAs m = Some nested -> depth nested <= n) ->
               recurseInto Number_key m = Some h -> forall v, typeErrorsOnly (h v)).
    { intros m h Hn Hh v. unfold recurseInto in Hh.
      destruct (mappedAs m) as [nested|]; [|discriminate]. injection Hh as <-.
      apply typeErrorsOnly_handle. intros d. apply IH. now apply Hn. }
    apply typeErrorsOnly_bind.
    { destruct (_parameters ctor) as [|l|z] eqn:El; try apply typeErrorsOnly_ret.
      apply typeErrorsOnly_paramPass. intros m h Hin. apply Hrec.
      intros nested Hm. pose proof (depth_parameter ctor l m nested El Hin Hm). lia. }
    intros params. apply typeErrorsOnly_bind.
    { destruct (_properties ctor) as [|l|z] eqn:El; try apply typeErrorsOnly_ret.
      apply typeErrorsOnly_propPass. intros key m h Hin. apply Hrec.
      intros nested Hm. pose proof (depth_property ctor l key m nested El Hin Hm). lia. }
    intros result. apply typeErrorsOnly_bind; [apply typeErrorsOnly_runHook|].
    intros result1. apply typeErrorsOnly_bind; [apply typeErrorsOnly_runHook|].
    intros result2. apply typeErrorsOnly_ret.
Qed.

End Throws.

(** X14.  Without a callback, [convert] ends in one of four ways and the
    metadata check and the issues decide which: it throws the structural
    error exactly when the type fails the metadata check; otherwise it
    returns, or throws a [TypeError] raised while probing the data, or throws
    a [ValidationError], and then the context it carries holds at least one
    issue of error severity and the message counts and lists those.
    Validation problems never surface in any other way. *)
Theorem convert_fails_in_three_ways :
  forall (Number_key : string -> option string) (ctor : DecoratedType) (data : value),
    match outcome (convert Number_key ctor data None) with
    | Returned _ => isDecoratedType ctor = true
    | Thrown (TypeError _) => isDecoratedType ctor = true
    | Thrown (StructuralError _) => isDecoratedType ctor = false
    | Thrown (ValidationError msg ctx) =>
        isDecoratedType ctor = true
        /\ existsb is_error_issue (issues ctx) = true
        /\ msg = failure_message (filter is_error_issue (issues ctx))
    end.
Proof.
  intros Number_key ctor data. unfold convert.
  destruct (isDecoratedType ctor) eqn:Hdec; cbn [negb outcome]; [|reflexivity].
  destruct (internalCreateInstance Number_key ctor data empty_context)
    as [[instance ctx]|[e ctx]] eqn:E.
  - destruct (filter is_error_issue (issues ctx)) as [|i errs] eqn:Ef;
      cbn [outcome]; [reflexivity|].
    rewrite filter_nonempty, Ef. auto.
  - cbn. destruct (typeErrorsOnly_upto Number_key (depth ctor) ctor (le_n _) data _ _ _ E)
      as [msg ->]. reflexivity.
Qed.

(** ** Fields side by side *)

Section Siblings.

Variable Number_key : string -> option string.
Variable recurse : MappingMetadata -> option (value -> M value).

Lemma propPass_cons key m rest data result ctx :
  propPass Number_key recurse ((key, m) :: rest) data result ctx
  = match propPass Number_key recurse [(key, m)] data result ctx with
    | Returned (r, c) => propPass Number_key recurse rest data r c
    | Thrown e => Thrown e
    end.
Proof.
  cbn [propPass]. unfold bind.
  destruct (tryAliases Number_key recurse (Some m) _ data ctx) as [[r c]|e];
    [|reflexivity].
  destruct r as [val|].
  - reflexivity.
  - match goal with
    | |- context [unmappedProp ?a ?b ?d c] =>
        destruct (unmappedProp a b d c) as [[r' c']|e]
    | |- context [unmappedParam ?a ?b ?d c] =>
        destruct (unmappedParam a b d c) as [[r' c']|e]
    end; reflexivity.
Qed.

Lemma paramPass_cons mapping rest index data params ctx :
  paramPass Number_key recurse (mapping :: rest) index data params ctx
  = match paramPass Number_key recurse [mapping] index data params ctx with
    | Returned (ps, c) => paramPass Number_key recurse rest (S index) data ps c
    | Thrown e => Thrown e
    end.
Proof.
  cbn [paramPass]. unfold bind.
  destruct (tryAliases Number_key recurse mapping _ data ctx) as [[r c]|e];
    [|reflexivity].
  destruct r as [val|].
  - reflexivity.
  - match goal with
    | |- context [unmappedProp ?a ?b ?d c] =>
        destruct (unmappedProp a b d c) as [[r' c']|e]
    | |- context [unmappedParam ?a ?b ?d c] =>
        destruct (unmappedParam a b d c) as [[r' c']|e]
    end; reflexivity.
Qed.

Lemma propPass_app first :
  forall second data result ctx,
    propPass Number_key recurse (first ++ second) data result ctx
    = match propPass Number_key recurse first data result ctx with
      | Returned (r, c) => propPass Number_key recurse second data r c
      | Thrown e => Thrown e
      end.
Proof.
  induction first as [|[key m] first IH]; intros second data result ctx;
    [reflexivity|].
  cbn [app]. rewrite (propPass_cons key m (first ++ second)),
    (propPass_cons key m first).
  destruct (propPass Number_key recurse [(key, m)] data result ctx) as [[r c]|e];
    [apply IH|reflexivity].
Qed.

Lemma paramPass_app first :
  forall second index data params ctx,
    paramPass Number_key recurse (first ++ second) index data params ctx
    = match paramPass Number_key recurse first index data params ctx with
      | Returned (ps, c) =>
          paramPass Number_key recurse second (index + List.length first) data ps c
      | Thrown e => Thrown e
      end.
Proof.
  induction first as [|mapping first IH]; intros second index data params ctx.
  - cbn. now rewrite Nat.add_0_r.
  - cbn [app]. rewrite (paramPass_cons mapping (first ++ second)),
      (paramPass_cons mapping first).
    destruct (paramPass Number_key recurse [mapping] index data params ctx)
      as [[ps c]|e]; [|reflexivity].
    rewrite IH. cbn [List.length]. now rewrite Nat.add_succ_r.
Qed.

End Siblings.

(** X15.  Mappings are processed one after the other, each on the instance and
    the context the ones before it left: the pass over a list of property
    mappings is the pass over its first part followed by the pass over the
    rest, and likewise for parameters, where the second part starts at the
    position after the first. *)
Theorem field_passes_compose :
  forall (Number_key : string -> option string)
         (recurse : MappingMetadata -> option (value -> M value))
         (data : value) (ctx : ValidationContext),
    (forall first second result,
        propPass Number_key recurse (first ++ second) data result ctx
        = match propPass Number_key recurse first data result ctx with
          | Returned (r, c) => propPass Number_key recurse second data r c
          | Thrown e => Thrown e
          end)
    /\ (forall first second index params,
          paramPass Number_key recurse (first ++ second) index data params ctx
          = match paramPass Number_key recurse first index data params ctx with
            | Returned (ps, c) =>
                paramPass Number_key recurse second (index + List.length first) data ps c
            | Thrown e => Thrown e
            end).
Proof.
  intros Number_key recurse data ctx. split.
  - intros first second result. apply propPass_app.
  - intros first second index params. apply paramPass_app.
Qed.

(** X16.  A property whose found value is rejected by its validations does not
    stop the pass: the remaining properties are processed, on the instance
    as it stood (or with the default of the rejected property) and on the
    context holding the validation issues (and the required error, for a
    required property). *)
Theorem rejected_field_does_not_stop_siblings :
  forall (Number_key : string -> option string)
         (recurse : MappingMetadata -> option (value -> M value))
         (key : string) (m : MappingMetadata) (rest : list (string * MappingMetadata))
         (data : value) (result : object) (ctx : ValidationContext)
         (name : segment) (val : value),
    firstFound Number_key (propNames key m) data = Returned (Some (name, val)) ->
    rejects m val = true ->
    propPass Number_key recurse ((key, m) :: rest) data result ctx
    = propPass Number_key recurse rest data
        (if isRequired m then result else propDefaulted m key result)
        (if isRequired m
         then {| issues := issues (afterValidation m name val ctx)
                             ++ [requiredProp key (afterValidation m name val ctx)];
                 _path := _path (afterValidation m name val ctx) |}
         else afterValidation m name val ctx).
Proof.
  intros Number_key recurse key m rest data result ctx name val Hf Hrej.
  rewrite propPass_cons, propPass_single, Hf, mapFound_eq, Hrej, unmappedProp_eq.
  reflexivity.
Qed.

Lemma rejected_field_does_not_stop_siblings_witness :
  firstFound names_only (propNames "foo" Examples.defaultedFoo)
             (VObject [("foo", VNumber 42); ("name", VString "n")])
  = Returned (Some (SegName "foo", VNumber 42))
  /\ rejects Examples.defaultedFoo (VNumber 42) = true
  /\ propPass names_only (recurseInto names_only)
       [("foo", Examples.defaultedFoo); ("name", Examples.plainMapping)]
       (VObject [("foo", VNumber 42); ("name", VString "n")])
       [("foo", VString "init"); ("name", VString "")] empty_context
     = Returned ([("foo", VString "dflt"); ("name", VString "n")],
                 {| issues := [{| path := "foo"; level := IssueLevel.error;
                                  message := "Expected type string, but found: number" |}];
                    _path := [] |}).
Proof.
  split; [reflexivity|]. split; [reflexivity|].
  rewrite (rejected_field_does_not_stop_siblings names_only (recurseInto names_only)
             "foo" Examples.defaultedFoo [("name", Examples.plainMapping)]
             (VObject [("foo", VNumber 42); ("name", VString "n")])
             [("foo", VString "init"); ("name", VString "")] empty_context
             (SegName "foo") (VNumber 42) eq_refl eq_refl).
  reflexivity.
Defined.

(** X17.  A found value whose validations report nothing of error severity
    (reports of [info] and [warn] included) is mapped: it goes through
    [preValidationTransform], then the validations, then [transform], and is
    stored in the property; what the validations reported is recorded under
    the alias the value was found at. *)
Theorem accepted_value_is_transformed_and_stored :
  forall (Number_key : string -> option string)
         (recurse : MappingMetadata -> option (value -> M value))
         (key : string) (m : MappingMetadata) (rest : list (string * MappingMetadata))
         (data : value) (result : object) (ctx : ValidationContext)
         (name : segment) (val : value),
    firstFound Number_key (propNames key m) data = Returned (Some (name, val)) ->
    has_error (fieldReports m val) = false ->
    recurse m = None ->
    propPass Number_key recurse ((key, m) :: rest) data result ctx
    = propPass Number_key recurse rest data
        (set_field key (transformed m (preValidated m val)) result)
        (afterValidation m name val ctx)
    /\ issues (afterValidation m name val ctx)
       = issues ctx ++ issues_at (pathString (VC.push name ctx)) (fieldReports m val)
    /\ _path (afterValidation m name val ctx) = _path ctx.
Proof.
  intros Number_key recurse key m rest data result ctx name val Hf Hok Hrec.
  destruct (afterValidation_issues m name val ctx) as [Hp Hi].
  repeat split; auto.
  rewrite propPass_cons, propPass_single, Hf, mapFound_eq.
  rewrite rejects_reports, is_error_max_level, Hok, Hrec.
  unfold ret. now rewrite <- afterValidation_reports.
Qed.

(** A name that is trimmed to three characters before validation, gets a
    warning for being short of five, and is stored with an exclamation mark
    added by the post-validation transform. *)
Lemma accepted_value_is_transformed_and_stored_witness :
  firstFound names_only (propNames "name" Examples.shortName)
             (VObject [("title", VString "abcdef")])
  = Returned (Some (SegName "title", VString "abcdef"))
  /\ has_error (fieldReports Examples.shortName (VString "abcdef")) = false
  /\ recurseInto names_only Examples.shortName = None
  /\ propPass names_only (recurseInto names_only) [("name", Examples.shortName)]
       (VObject [("title", VString "abcdef")]) [("name", VString "")] empty_context
     = Returned ([("name", VString "abc!")],
                 {| issues :=
                      [{| path := "title"; level := IssueLevel.info;
                          message := "checked" |};
                       {| path := "title"; level := IssueLevel.warn;
                          message := "Minimum length violated (max: 5, actual: 3)" |}];
                    _path := [] |}).
Proof.
  split; [reflexivity|]. split; [reflexivity|]. split; [reflexivity|].
  rewrite (proj1 (accepted_value_is_transformed_and_stored names_only
             (recurseInto names_only) "name" Examples.shortName []
             (VObject [("title", VString "abcdef")]) [("name", VString "")]
             empty_context (SegName "title") (VString "abcdef")
             eq_refl eq_refl eq_refl)).
  reflexivity.
Defined.

(** ** The path in the array-shape message *)

Lemma rendered_rest_names (names : list string) :
  forall n, (n ++ rendered_rest (map SegName names))%string
            = String.concat "." (n :: names).
Proof.
  induction names as [|m names IH]; intros n.
  - cbn. apply append_nil_r.
  - cbn [map rendered_rest]. change (String.concat "." (n :: m :: names))
      with (n ++ "." ++ String.concat "." (m :: names))%string.
    rewrite <- IH. reflexivity.
Qed.

(** X18.  The array-shape error names the property by the stack joined with
    dots, the issue by the rendered path.  On a stack of names that does not
    start with the empty name the two agree; an index on top of it makes
    them differ ([items.2] against [items[2]]). *)
Theorem shape_message_path_agrees_on_names :
  forall (first : string) (names : list string) (ix : nat),
    first <> "" ->
    pathString (at_path (map SegName (first :: names)))
    = join "." (map SegName (first :: names))
    /\ pathString (at_path (map SegName (first :: names) ++ [SegIndex ix]))
       <> join "." (map SegName (first :: names) ++ [SegIndex ix]).
Proof.
  intros first names ix Hne.
  assert (Hl : forall x y : string,
             String.length (x ++ y) = String.length x + String.length y).
  { induction x; intros y; cbn; auto. }
  assert (Hj : forall segs, join "." (map SegName segs) = String.concat "." segs).
  { intros segs. unfold join. rewrite map_map. cbn [segment_text]. now rewrite map_id. }
  assert (Hp : pathString (at_path (map SegName (first :: names)))
               = String.concat "." (first :: names)).
  { unfold pathString. cbn [at_path _path map pathString_from String.eqb append].
    rewrite pathString_from_nonempty by exact Hne. apply rendered_rest_names. }
  split.
  - now rewrite Hj.
  - unfold pathString in *. cbn [at_path _path] in *.
    rewrite pathString_from_app, Hp. cbn [pathString_from].
    unfold join. rewrite map_app, map_map. cbn [segment_text map]. rewrite map_id.
    intros H.
    assert (Hlen : forall l (a : string),
               String.length (String.concat "." (l ++ [a]))
               = String.length (String.concat "." l) + String.length a
                 + (match l with [] => 0 | _ => 1 end)).
    { induction l as [|x l IHl]; intros a; [cbn; lia|].
      destruct l as [|y l].
      - cbn. rewrite Hl. cbn. lia.
      - change (String.concat "." (((x :: y :: l) ++ [a])))
          with (x ++ "." ++ String.concat "." ((y :: l) ++ [a]))%string.
        change (String.concat "." (x :: y :: l))
          with (x ++ "." ++ String.concat "." (y :: l))%string.
        rewrite !Hl, IHl. cbn. lia. }
    apply (f_equal String.length) in H.
    rewrite (Hlen (first :: names) (nat_to_string ix)) in H.
    rewrite !Hl in H. cbn [String.length] in H. lia.
Qed.

Lemma shape_message_path_agrees_on_names_witness :
  "a" <> ""
  /\ pathString (at_path [SegName "a"; SegName "b"]) = join "." [SegName "a"; SegName "b"].
Proof.
  assert (H : "a" <> "") by discriminate.
  split; [exact H|].
  exact (proj1 (shape_message_path_agrees_on_names "a" ["b"] 0 H)).
Defined.

(** ** The decorators *)

Lemma assoc_updateProperty_same key fn properties :
  assoc key (updateProperty key fn properties)
  = Some (fn (match assoc key properties with
              | Some m => m
              | None => makeMappingMetadata
              end)).
Proof.
  induction properties as [|[k m] rest IH]; cbn [updateProperty assoc].
  - now rewrite String.eqb_refl.
  - destruct (k =? key) eqn:E; cbn [assoc]; rewrite E; [reflexivity|exact IH].
Qed.

Lemma assoc_updateProperty_other key fn properties k' :
  k' <> key ->
  assoc k' (updateProperty key fn properties) = assoc k' properties.
Proof.
  intros Hne. induction properties as [|[k m] rest IH]; cbn [updateProperty assoc].
  - destruct (key =? k') eqn:E; [|reflexivity].
    apply String.eqb_eq in E. congruence.
  - destruct (k =? key) eqn:E; cbn [assoc].
    + apply String.eqb_eq in E. subst k.
      destruct (key =? k') eqn:E'; [|reflexivity].
      apply String.eqb_eq in E'. congruence.
    + now rewrite IH.
Qed.

Lemma slot_updateParameter_same fn :
  forall ix parameters,
    slot (updateParameter ix fn parameters) ix
    = Some (fn (match slot parameters ix with
                | Some m => m
                | None => makeMappingMetadata
                end)).
Proof.
  unfold slot. induction ix as [|i IH]; intros [|o rest]; cbn [updateParameter].
  - reflexivity.
  - destruct o; reflexivity.
  - cbn [nth_error]. rewrite (IH []). now destruct i.
  - cbn [nth_error]. apply IH.
Qed.

Lemma slot_updateParameter_other fn :
  forall ix parameters j,
    j <> ix -> slot (updateParameter ix fn parameters) j = slot parameters j.
Proof.
  unfold slot. induction ix as [|i IH]; intros parameters j Hne.
  - destruct j as [|j]; [congruence|].
    destruct parameters as [|[m|] rest]; cbn [updateParameter nth_error];
      try reflexivity.
    now destruct j.
  - destruct parameters as [|o rest]; cbn [updateParameter].
    + destruct j as [|j]; [reflexivity|]. cbn [nth_error].
      rewrite (IH [] j) by congruence. now destruct j.
    + destruct j as [|j]; [reflexivity|]. cbn [nth_error]. apply IH. congruence.
Qed.

(** The mappings a class holds in [_properties], none when the member is
    absent or holds a number. *)
Lemma ensurePropertyMapping_own ctor key fn :
  inherited key = false ->
  (forall n, _properties ctor = Malformed n -> n = 0%Z) ->
  ensurePropertyMapping ctor key fn
  = Some (Returned
            (with_properties ctor
               (updateProperty key (on_mapping fn)
                  (match _properties ctor with Specified l => l | _ => [] end)))).
Proof.
  intros Hinh Hnum. unfold ensurePropertyMapping. rewrite Hinh.
  destruct (_properties ctor) as [|l|n] eqn:E.
  - reflexivity.
  - now destruct (assoc key l).
  - rewrite (Hnum n eq_refl). reflexivity.
Qed.

Lemma propertyMapping_with_properties ctor l k :
  propertyMapping (with_properties ctor l) k = assoc k l.
Proof. reflexivity. Qed.

Lemma propertyMapping_assoc ctor k :
  propertyMapping ctor k
  = assoc k (match _properties ctor with Specified l => l | _ => [] end).
Proof. unfold propertyMapping. now destruct (_properties ctor). Qed.

Lemma hostEffect_untouched d : hostEffect d = HostUntouched -> d = mapped.
Proof. destruct d; cbn; congruence. Qed.

(** X19.  A decorator on a property that is not named like a member every
    object inherits changes the mapping of that property, bringing it into
    existence first if the class has none for it, and leaves alone the
    mappings of all other properties and of all parameters, and the
    constructor; likewise for a decorator on a constructor parameter.  On a
    property that is named like an inherited member and has no mapping, no
    mapping is created: only [mapped] returns, and the class holds the
    mappings it held. *)
Theorem decorator_changes_only_its_target :
  forall (d : Decorator) (ctor ctor' : DecoratedType),
    (forall key ix,
        inherited key = false ->
        (forall n, _properties ctor = Malformed n -> n = 0%Z) ->
        decorate d (Some key) ix ctor = Some (Returned ctor') ->
        propertyMapping ctor' key
        = Some (change d (match propertyMapping ctor key with
                          | Some m => m
                          | None => makeMappingMetadata
                          end))
        /\ (forall k, k <> key -> propertyMapping ctor' k = propertyMapping ctor k)
        /\ _parameters ctor' = _parameters ctor
        /\ construct ctor' = construct ctor)
    /\ (forall ix,
          decorate d None (Some ix) ctor = Some (Returned ctor') ->
          parameterMapping ctor' ix
          = Some (change d (match parameterMapping ctor ix with
                            | Some m => m
                            | None => makeMappingMetadata
                            end))
          /\ (forall j, j <> ix -> parameterMapping ctor' j = parameterMapping ctor j)
          /\ _properties ctor' = _properties ctor
          /\ construct ctor' = construct ctor)
    /\ (forall key ix,
          inherited key = true ->
          propertyMapping ctor key = None ->
          decorate d (Some key) ix ctor = Some (Returned ctor') ->
          d = mapped
          /\ (forall k, propertyMapping ctor' k = propertyMapping ctor k)
          /\ _parameters ctor' = _parameters ctor
          /\ construct ctor' = construct ctor).
Proof.
  intros d ctor ctor'.
  assert (Hparam : forall ix l,
             (forall j, parameterMapping ctor j = slot l j) ->
             parameterMapping (with_parameters ctor (updateParameter ix (change d) l)) ix
             = Some (change d (match parameterMapping ctor ix with
                               | Some m => m
                               | None => makeMappingMetadata
                               end))
             /\ (forall j, j <> ix ->
                           parameterMapping
                             (with_parameters ctor (updateParameter ix (change d) l)) j
                           = parameterMapping ctor j)
             /\ _properties (with_parameters ctor (updateParameter ix (change d) l))
                = _properties ctor
             /\ construct (with_parameters ctor (updateParameter ix (change d) l))
                = construct ctor).
  { intros ix l Hc. repeat split.
    - rewrite Hc. apply slot_updateParameter_same.
    - intros j Hj. rewrite Hc. now apply slot_updateParameter_other. }
  assert (Hnil : forall j, slot [] j = None) by (intros [|j]; reflexivity).
  repeat apply conj.
  - intros key ix Hinh Hnum H. unfold decorate, withMapping in H.
    rewrite ensurePropertyMapping_own in H by assumption.
    injection H as <-. cbn [on_mapping]. repeat split.
    + rewrite propertyMapping_with_properties, (propertyMapping_assoc ctor).
      apply assoc_updateProperty_same.
    + intros k Hk.
      rewrite propertyMapping_with_properties, (propertyMapping_assoc ctor).
      now apply assoc_updateProperty_other.
  - intros ix H. unfold decorate, withMapping, ensureParameterMapping in H.
    cbn [on_mapping] in H.
    destruct (_parameters ctor) as [|l|n] eqn:E.
    + injection H as <-. apply (Hparam ix []). intros j. unfold parameterMapping.
      now rewrite E, Hnil.
    + injection H as <-. apply (Hparam ix l). intros j. unfold parameterMapping.
      now rewrite E.
    + destruct (n =? 0)%Z; [|discriminate]. injection H as <-.
      apply (Hparam ix []). intros j. unfold parameterMapping. now rewrite E, Hnil.
  - intros key ix Hinh Hnone H.
    unfold decorate, withMapping, ensurePropertyMapping in H.
    cbn [on_host on_mapping] in H. rewrite Hinh in H.
    assert (Hi : inherited_by_number key = true)
      by (unfold inherited_by_number; now rewrite Hinh).
    rewrite Hi in H. rewrite propertyMapping_assoc in Hnone.
    assert (Hhost : forall c,
               match hostEffect d with
               | HostUntouched => Some (Returned c)
               | HostThrows e => Some (Thrown e)
               | HostChanged => None
               end = Some (Returned ctor') ->
               d = mapped /\ c = ctor').
    { intros c Hc. destruct (hostEffect d) eqn:Eh; try discriminate.
      split; [now apply hostEffect_untouched|congruence]. }
    destruct (_properties ctor) as [|l|n] eqn:E.
    + cbn [assoc] in H. apply Hhost in H as [-> <-].
      repeat split. intros k. unfold propertyMapping. cbn. now rewrite E.
    + rewrite Hnone in H. apply Hhost in H as [-> <-].
      repeat split. intros k. unfold propertyMapping. cbn. now rewrite E.
    + destruct (n =? 0)%Z.
      * cbn [assoc] in H. apply Hhost in H as [-> <-].
        repeat split. intros k. unfold propertyMapping. cbn. now rewrite E.
      * apply Hhost in H as [-> <-]. repeat split.
Qed.

Lemma decorator_changes_only_its_target_witness :
  inherited "foo" = false
  /\ decorate (alias "b") (Some "foo") None
       (with_properties (undecorated (fun _ => []))
          [("foo", push_alias "a" makeMappingMetadata); ("bar", makeMappingMetadata)])
     = Some (Returned
          (with_properties (undecorated (fun _ => []))
             [("foo", push_alias "b" (push_alias "a" makeMappingMetadata));
              ("bar", makeMappingMetadata)]))
  /\ propertyMapping
       (with_properties (undecorated (fun _ => []))
          [("foo", push_alias "b" (push_alias "a" makeMappingMetadata));
           ("bar", makeMappingMetadata)]) "foo"
     = Some (push_alias "b" (push_alias "a" makeMappingMetadata))
  /\ inherited "toString" = true
  /\ decorate mapped (Some "toString") None
       (with_properties (undecorated (fun _ => [])) [("bar", makeMappingMetadata)])
     = Some (Returned
          (with_properties (undecorated (fun _ => [])) [("bar", makeMappingMetadata)])).
Proof.
  split; [reflexivity|]. split; [reflexivity|]. split.
  - exact (proj1 (proj1 (decorator_changes_only_its_target (alias "b")
             (with_properties (undecorated (fun _ => []))
                [("foo", push_alias "a" makeMappingMetadata); ("bar", makeMappingMetadata)])
             (with_properties (undecorated (fun _ => []))
                [("foo", push_alias "b" (push_alias "a" makeMappingMetadata));
                 ("bar", makeMappingMetadata)]))
             "foo" None eq_refl (fun n H => ltac:(discriminate H)) eq_refl)).
  - split; [reflexivity|]. reflexivity.
Defined.

Lemma decorate_well_formed d key ix ctor :
  match key with Some k => inherited k = false | None => True end ->
  (forall n, _properties ctor <> Malformed n) ->
  (forall n, _parameters ctor <> Malformed n) ->
  exists ctor',
    decorate d key ix ctor = Some (Returned ctor')
    /\ (forall n, _properties ctor' <> Malformed n)
    /\ (forall n, _parameters ctor' <> Malformed n)
    /\ _parmeters ctor' = _parmeters ctor
    /\ construct ctor' = construct ctor.
Proof.
  intros Hk Hpr Hpa. unfold decorate, withMapping.
  destruct key as [k|]; [|destruct ix as [i|]].
  - rewrite ensurePropertyMapping_own;
      [|exact Hk|intros n E; now destruct (Hpr n)].
    eexists. split; [reflexivity|]. repeat split; auto. discriminate.
  - unfold ensureParameterMapping.
    destruct (_parameters ctor) as [|l|n] eqn:E; [| |now destruct (Hpa n)];
      eexists; (split; [reflexivity|]); repeat split; auto; discriminate.
  - exists ctor. repeat split; auto.
Qed.

(** X20.  Whatever decorators are applied to the constructor parameters of a
    class and to its instance members, in whatever order, provided no
    member is named like a member every object inherits: none of them
    throws and the class they leave passes the metadata check, with its
    constructor untouched; the collections the decorators create are an
    object and an array.  On a property that is named like an inherited
    member, [alias] and [validate] throw a [TypeError]. *)
Theorem decorated_class_passes_metadata_check :
  forall (construct0 : list value -> object),
    (forall ds : list (Decorator * option string * option nat),
        own_names ds = true ->
        exists ctor,
          decorateAll ds (undecorated construct0) = Some (Returned ctor)
          /\ isDecoratedType ctor = true
          /\ (forall n, _parameters ctor <> Malformed n)
          /\ construct ctor = construct0)
    /\ (forall (d : Decorator) (key : string) (ix : option nat),
          inherited key = true ->
          (exists name, d = alias name) \/ (exists fn, d = validateWith fn) ->
          exists msg,
            decorate d (Some key) ix (undecorated construct0)
            = Some (Thrown (TypeError msg))).
Proof.
  intros construct0. split.
  - intros ds.
    assert (H : forall ctor0,
               own_names ds = true ->
               (forall n, _properties ctor0 <> Malformed n) ->
               (forall n, _parameters ctor0 <> Malformed n) ->
               _parmeters ctor0 = Unspecified ->
               exists ctor,
                 decorateAll ds ctor0 = Some (Returned ctor)
                 /\ (forall n, _properties ctor <> Malformed n)
                 /\ (forall n, _parameters ctor <> Malformed n)
                 /\ _parmeters ctor = Unspecified
                 /\ construct ctor = construct ctor0).
    { induction ds as [|[[d key] ix] ds IH]; intros ctor0 Hown Hpr Hpa Hpm.
      - exists ctor0. repeat split; auto.
      - unfold own_names in Hown. cbn [forallb] in Hown.
        apply andb_true_iff in Hown as [Hk Hrest].
        assert (Hk' : match key with Some k => inherited k = false | None => True end).
        { destruct key as [k|]; [|exact I]. now apply negb_true_iff in Hk. }
        destruct (decorate_well_formed d key ix ctor0 Hk' Hpr Hpa)
          as (ctor1 & Hd & Hpr1 & Hpa1 & Hpm1 & Hc1).
        destruct (IH ctor1 Hrest Hpr1 Hpa1) as (ctor & Hds & Hpr' & Hpa' & Hpm' & Hc');
          [congruence|].
        exists ctor. cbn [decorateAll]. rewrite Hd. repeat split; auto. congruence. }
    intros Hown.
    destruct (H (undecorated construct0) Hown) as (ctor & Hds & Hpr & Hpa & Hpm & Hc);
      try (intros; discriminate); try reflexivity.
    exists ctor. repeat split; auto.
    unfold isDecoratedType. rewrite Hpm.
    destruct (_properties ctor) as [|l|n] eqn:E; try reflexivity.
    now destruct (Hpr n).
  - intros d key ix Hinh Hd.
    unfold decorate, withMapping, ensurePropertyMapping.
    cbn [undecorated _properties assoc on_host]. rewrite Hinh.
    destruct Hd as [[name ->]|[fn ->]]; eexists; reflexivity.
Qed.

(** A class with an aliased, validated property and a required second
    constructor parameter; and [alias] on a property named [toString]. *)
Lemma decorated_class_passes_metadata_check_witness :
  own_names [(alias "title", Some "name", None);
             (validateWith (validate isString), Some "name", None);
             (required, None, Some 1)] = true
  /\ (exists ctor,
        decorateAll [(alias "title", Some "name", None);
                     (validateWith (validate isString), Some "name", None);
                     (required, None, Some 1)]
                    (undecorated (fun _ => [])) = Some (Returned ctor)
        /\ isDecoratedType ctor = true
        /\ (forall n, _parameters ctor <> Malformed n)
        /\ construct ctor = (fun _ => []))
  /\ inherited "toString" = true
  /\ exists msg,
       decorate (alias "title") (Some "toString") None (undecorated (fun _ => []))
       = Some (Thrown (TypeError msg)).
Proof.
  split; [reflexivity|]. split.
  - exact (proj1 (decorated_class_passes_metadata_check (fun _ => []))
             [(alias "title", Some "name", None);
              (validateWith (validate isString), Some "name", None);
              (required, None, Some 1)] eq_refl).
  - split; [reflexivity|].
    exact (proj2 (decorated_class_passes_metadata_check (fun _ => []))
             (alias "title") "toString" None eq_refl
             (or_introl (ex_intro _ "title" eq_refl))).
Defined.

(** X21.  A property decorated [required], with a plain name that is not the
    name of an inherited member, and missing from the object handed in makes
    [convert] throw the aggregate error with exactly one error, reported at
    the path of the instance: the name of the property is in the message,
    not in the path. *)
Theorem required_property_missing_end_to_end :
  forall (Number_key : string -> option string) (construct0 : list value -> object)
         (key : string) (fields : list (string * value)),
    inherited key = false ->
    Number_key key = None ->
    split_dot key = [key] ->
    assoc key fields = None ->
    exists ctor,
      decorate required (Some key) None (undecorated construct0) = Some (Returned ctor)
      /\ convert Number_key ctor (VObject fields) None
         = {| invocations := [];
              outcome := Thrown (ValidationError
                ("Validation failed with 1 errors: Required property or field not found: "
                   ++ key)
                {| issues := [{| path := ""; level := IssueLevel.error;
                                 message := "Required property or field not found: "
                                              ++ key |}];
                   _path := [] |}) |}.
Proof.
  intros Number_key construct0 key fields Hinh Hnan Hsplit Hmiss.
  assert (Hget : getProperty Number_key (SegName key) (VObject fields) = Returned None).
  { cbn [getProperty]. rewrite Hsplit. cbn [walk is_nullish]. rewrite Hnan.
    cbn [property]. now rewrite Hmiss. }
  eexists. split.
  { unfold decorate, withMapping. rewrite ensurePropertyMapping_own;
      [reflexivity|exact Hinh|intros n E; discriminate E]. }
  unfold convert. cbn [isDecoratedType with_properties undecorated _properties
    _parmeters objectOrUnspecified arrayOrUnspecified andb negb].
  rewrite internalCreateInstance_eq. cbn [is_nullish].
  cbn [with_properties undecorated _properties _parameters construct mapData
       validateHook].
  unfold bind at 1. cbn [ret]. unfold bind at 1.
  change (updateProperty key (on_mapping {| on_mapping := change required;
                                            on_host := hostEffect required |}) [])
    with [(key, set_required makeMappingMetadata)].
  rewrite propPass_single.
  unfold propNames. cbn [set_required makeMappingMetadata aliases ifEmpty firstFound].
  rewrite Hget, unmappedProp_eq.
  reflexivity.
Qed.

Lemma required_property_missing_end_to_end_witness :
  inherited "foo" = false
  /\ names_only "foo" = None
  /\ split_dot "foo" = ["foo"]
  /\ assoc "foo" [("bar", VString "two")] = None
  /\ exists ctor,
       decorate required (Some "foo") None (undecorated (fun _ => []))
       = Some (Returned ctor)
       /\ outcome (convert names_only ctor (VObject [("bar", VString "two")]) None)
          = Thrown (ValidationError
              "Validation failed with 1 errors: Required property or field not found: foo"
              {| issues := [{| path := ""; level := IssueLevel.error;
                               message := "Required property or field not found: foo" |}];
                 _path := [] |}).
Proof.
  split; [reflexivity|]. split; [reflexivity|]. split; [reflexivity|].
  split; [reflexivity|].
  destruct (required_property_missing_end_to_end names_only (fun _ => []) "foo"
              [("bar", VString "two")] eq_refl eq_refl eq_refl eq_refl)
    as (ctor & Hd & Hc).
  exists ctor. split; [exact Hd|]. now rewrite Hc.
Defined.

(** X22.  A property decorated with an alias is read from the alias only: its
    own name is no longer looked up, so an object that holds the property
    under its own name but not under the alias leaves it as the constructor
    set it; an object that holds the alias gives the property the value found
    there, and nothing is reported either way.  (For a property and an alias
    with plain names that are not names of inherited members.) *)
Theorem aliased_property_is_read_from_its_alias :
  forall (Number_key : string -> option string) (construct0 : list value -> object)
         (key name : string) (fields : list (string * value)),
    inherited key = false ->
    inherited name = false ->
    Number_key name = None ->
    split_dot name = [name] ->
    exists ctor,
      decorate (alias name) (Some key) None (undecorated construct0)
      = Some (Returned ctor)
      /\ convert Number_key ctor (VObject fields) None
         = {| invocations := [];
              outcome := Returned (VObject (match assoc name fields with
                                            | Some val => set_field key val (construct0 [])
                                            | None => construct0 []
                                            end)) |}.
Proof.
  intros Number_key construct0 key name fields Hinh _ Hnan Hsplit.
  assert (Hget : getProperty Number_key (SegName name) (VObject fields)
                 = Returned (assoc name fields)).
  { cbn [getProperty]. rewrite Hsplit. cbn [walk is_nullish]. rewrite Hnan.
    cbn [property]. now destruct (assoc name fields). }
  eexists. split.
  { unfold decorate, withMapping. rewrite ensurePropertyMapping_own;
      [reflexivity|exact Hinh|intros n E; discriminate E]. }
  unfold convert. cbn [isDecoratedType with_properties undecorated _properties
    _parmeters objectOrUnspecified arrayOrUnspecified andb negb].
  rewrite internalCreateInstance_eq. cbn [is_nullish].
  cbn [with_properties undecorated _properties _parameters construct mapData
       validateHook].
  unfold bind at 1. cbn [ret]. unfold bind at 1.
  change (updateProperty key (on_mapping {| on_mapping := change (alias name);
                                            on_host := hostEffect (alias name) |}) [])
    with [(key, push_alias name makeMappingMetadata)].
  rewrite propPass_single.
  unfold propNames. cbn [push_alias makeMappingMetadata aliases app ifEmpty firstFound].
  rewrite Hget. destruct (assoc name fields) as [val|].
  - rewrite mapFound_eq. reflexivity.
  - rewrite unmappedProp_eq. reflexivity.
Qed.

Lemma aliased_property_is_read_from_its_alias_witness :
  inherited "make" = false
  /\ inherited "manufacturer" = false
  /\ names_only "manufacturer" = None
  /\ split_dot "manufacturer" = ["manufacturer"]
  /\ exists ctor,
       decorate (alias "manufacturer") (Some "make") None
                (undecorated (fun _ => [("make", VString "")])) = Some (Returned ctor)
       /\ outcome (convert names_only ctor (VObject [("make", VString "Ford")]) None)
          = Returned (VObject [("make", VString "")])
       /\ outcome (convert names_only ctor
                     (VObject [("manufacturer", VString "Ford")]) None)
          = Returned (VObject [("make", VString "Ford")]).
Proof.
  split; [reflexivity|]. split; [reflexivity|]. split; [reflexivity|].
  split; [reflexivity|].
  destruct (aliased_property_is_read_from_its_alias names_only
              (fun _ => [("make", VString "")]) "make" "manufacturer"
              [("make", VString "Ford")] eq_refl eq_refl eq_refl eq_refl)
    as (ctor & Hd & Hc).
  exists ctor. split; [exact Hd|]. split; [now rewrite Hc|].
  injection Hd as <-. reflexivity.
Defined.

(** ** Constructor parameters by position *)

Lemma nat_to_string_inj (i j : nat) : nat_to_string i = nat_to_string j -> i = j.
Proof.
  unfold nat_to_string. intros H.
  apply (f_equal NilEmpty.uint_of_string) in H. rewrite !NilEmpty.usu in H.
  injection H as H. apply (f_equal Nat.of_uint) in H.
  now rewrite !Unsigned.of_to in H.
Qed.

Lemma nat_to_string_not_length (i : nat) : (nat_to_string i =? "length") = false.
Proof.
  destruct (nat_to_string i =? "length") eqn:E; [|reflexivity].
  apply String.eqb_eq in E. unfold nat_to_string in E.
  apply (f_equal NilEmpty.uint_of_string) in E. rewrite NilEmpty.usu in E.
  discriminate E.
Qed.

Lemma array_index_nth (elems : list value) :
  forall k i, array_index (nat_to_string (k + i)) k elems = nth_error elems i.
Proof.
  induction elems as [|x rest IH]; intros k i; cbn [array_index].
  - now destruct i.
  - destruct i as [|i].
    + now rewrite Nat.add_0_r, String.eqb_refl.
    + destruct (nat_to_string k =? nat_to_string (k + S i)) eqn:E.
      * apply String.eqb_eq, nat_to_string_inj in E. lia.
      * rewrite Nat.add_succ_r. apply (IH (S k) i).
Qed.

Lemma getProperty_index Number_key (elems : list value) (i : nat) :
  getProperty Number_key (SegIndex i) (VArray elems) = Returned (nth_error elems i).
Proof.
  cbn [getProperty property]. unfold array_property.
  rewrite nat_to_string_not_length. f_equal. apply (array_index_nth elems 0 i).
Qed.

Lemma array_set_end (l : list value) (v : value) :
  array_set l (List.length l) v = l ++ [v].
Proof. induction l as [|x l IH]; cbn; [reflexivity|now rewrite IH]. Qed.

Lemma firstn_snoc (elems : list value) :
  forall k v, nth_error elems k = Some v -> firstn (S k) elems = firstn k elems ++ [v].
Proof.
  induction elems as [|x rest IH]; intros [|k] v H; try discriminate.
  - now injection H as <-.
  - cbn [firstn app]. f_equal. now apply IH.
Qed.

(** X23.  Parameters that are mapped without aliases are read by position: from
    data that is an array, the first [n] parameters receive the first [n]
    elements, in order, and nothing is reported. *)
Theorem positional_parameters_from_array :
  forall (Number_key : string -> option string)
         (n : nat) (elems : list value) (ctx : ValidationContext),
    n <= List.length elems ->
    paramPass Number_key (recurseInto Number_key) (repeat (Some makeMappingMetadata) n) 0
              (VArray elems) [] ctx
    = Returned (firstn n elems, ctx).
Proof.
  intros Number_key n elems ctx Hn.
  assert (H : forall n k,
             k + n <= List.length elems ->
             paramPass Number_key (recurseInto Number_key)
                       (repeat (Some makeMappingMetadata) n) k
                       (VArray elems) (firstn k elems) ctx
             = Returned (firstn (k + n) elems, ctx)).
  { clear n Hn. induction n as [|n IH]; intros k Hk.
    - cbn. now rewrite Nat.add_0_r.
    - cbn [repeat]. rewrite paramPass_cons, paramPass_single.
      unfold paramNames. cbn [makeMappingMetadata aliases ifEmpty firstFound].
      rewrite getProperty_index.
      destruct (nth_error elems k) as [v|] eqn:Ev.
      + rewrite mapFound_eq.
        change (rejects makeMappingMetadata v) with false. cbv iota.
        change (recurseInto Number_key makeMappingMetadata)
          with (@None (value -> M value)). cbv iota.
        assert (Hlen : List.length (firstn k elems) = k)
          by (rewrite length_firstn; lia).
        assert (Hset : array_set (firstn k elems) k v = firstn (S k) elems).
        { rewrite <- Hlen at 2. rewrite array_set_end. symmetry. now apply firstn_snoc. }
        change (fieldReports makeMappingMetadata v) with (@nil Call).
        change (transformed makeMappingMetadata (preValidated makeMappingMetadata v))
          with v.
        unfold ret. cbn [perform_all fold_left plain_of]. rewrite pop_push, Hset.
        rewrite Nat.add_succ_r. apply (IH (S k)). lia.
      + apply nth_error_None in Ev. lia. }
  exact (H n 0 Hn).
Qed.

Lemma positional_parameters_from_array_witness :
  2 <= List.length [VString "Ford"; VString "Mustang"; VNumber 1969]
  /\ paramPass names_only (recurseInto names_only) (repeat (Some makeMappingMetadata) 2) 0
       (VArray [VString "Ford"; VString "Mustang"; VNumber 1969]) [] empty_context
     = Returned ([VString "Ford"; VString "Mustang"], empty_context).
Proof.
  assert (H : 2 <= List.length [VString "Ford"; VString "Mustang"; VNumber 1969])
    by (cbn; lia).
  split; [exact H|].
  exact (positional_parameters_from_array names_only 2
           [VString "Ford"; VString "Mustang"; VNumber 1969] empty_context H).
Defined.

(** X24.  A constructor parameter that carries no decorator leaves a hole in
    [_parameters].  The hole is looked up by its position all the same: when
    the data has nothing at that position the parameter is skipped and the
    pass goes on, and when it has something the pass throws a [TypeError],
    reading a member of the mapping that is not there. *)
Theorem undecorated_parameter_is_skipped_or_throws :
  forall (Number_key : string -> option string)
         (recurse : MappingMetadata -> option (value -> M value))
         (rest : list (option MappingMetadata)) (index : nat)
         (data : value) (params : list value) (ctx : ValidationContext),
    match getProperty Number_key (SegIndex index) data with
    | Returned None =>
        paramPass Number_key recurse (None :: rest) index data params ctx
        = paramPass Number_key recurse rest (S index) data params ctx
    | Returned (Some _) =>
        exists msg,
          paramPass Number_key recurse (None :: rest) index data params ctx
          = Thrown (TypeError msg, VC.push (SegIndex index) ctx)
    | Thrown e =>
        paramPass Number_key recurse (None :: rest) index data params ctx
        = Thrown (e, ctx)
    end.
Proof.
  intros Number_key recurse rest index data params ctx.
  cbn [paramPass option_map ifEmpty tryAliases]. unfold bind at 1. unfold bind at 1.
  unfold lift.
  destruct (getProperty Number_key (SegIndex index) data) as [[val|]|e].
  - eexists. reflexivity.
  - reflexivity.
  - reflexivity.
Qed.
